(** * Unemployment analysis dashboard: loader, filter and aggregation pipeline

    A shallow embedding of [Unemployment_Analysis_with_Python.py].  The
    script is a linear pandas pipeline; its tables are modelled as lists of
    typed rows, its column operations as list functions, and the external
    library calls it relies on ([Series.mean], [groupby(...).mean()],
    [unique], [idxmax], [Series.corr], [to_datetime]) by the behaviour the
    libraries document for them.

    Numbers.  The script computes in IEEE double precision.  Two models
    of its numbers are used.  In the first a finite double is idealised
    as an exact number (a rational, or a real where a square root is
    taken) and the three special values not-a-number, plus and minus
    infinity are kept, with the IEEE rules for them; rounding, overflow
    and the sign of zero are outside this model.  It serves to say which
    formula the script computes.  In the second the means and the
    correlation are computed on binary64 floats, with the rounding of
    every operation; it serves where a relation between computed numbers
    is at stake, which rounding may break.

    Cells.  The tables the charts are computed from are lists of rows in
    which every cell is present.  The filter stage is also modelled on
    rows with missing cells, as a file with empty fields gives them.

    Texts.  A character of a text is a code point below 256. *)

From Stdlib Require Import String Ascii List Bool ZArith QArith Reals.
From Stdlib Require Import Lia Psatz Sorted Permutation.
From Stdlib Require Floats Uint63.
Import ListNotations.

Local Open Scope list_scope.
Local Open Scope bool_scope.

(* ------------------------------------------------------------------ *)
(** ** Calendar dates *)

(** A pandas [Timestamp] carrying a calendar date.  Timestamps are ordered
    by their position on the time line, which for calendar dates is the
    lexicographic order on (year, month, day). *)
Record Timestamp : Type := mkTimestamp { year : Z; month : Z; day : Z }.

Definition ts_compare (a b : Timestamp) : comparison :=
  match (year a ?= year b)%Z with
  | Eq => match (month a ?= month b)%Z with
          | Eq => (day a ?= day b)%Z
          | c => c
          end
  | c => c
  end.

(** [a <= b], [a >= b] and [a == b] on timestamps. *)
Definition ts_leb (a b : Timestamp) : bool :=
  match ts_compare a b with Gt => false | _ => true end.

Definition ts_geb (a b : Timestamp) : bool := ts_leb b a.

Definition ts_eqb (a b : Timestamp) : bool :=
  match ts_compare a b with Eq => true | _ => false end.

Definition ts_ltb (a b : Timestamp) : bool :=
  match ts_compare a b with Lt => true | _ => false end.

(* ------------------------------------------------------------------ *)
(** ** Idealised double-precision numbers *)

(** A double is not-a-number, an infinity ([neg] tells its sign) or a
    finite value of the carrier [A]. *)
Inductive fnum (A : Type) : Type :=
| NaN : fnum A
| Inf (neg : bool) : fnum A
| Fin (x : A) : fnum A.

Arguments NaN {A}.
Arguments Inf {A} neg.
Arguments Fin {A} x.

Definition is_nan {A : Type} (a : fnum A) : bool :=
  match a with NaN => true | _ => false end.

Definition is_fin {A : Type} (a : fnum A) : bool :=
  match a with Fin _ => true | _ => false end.

(** *** Arithmetic on rationals *)

Definition Qis_zero (q : Q) : bool := Qeq_bool q 0.
Definition Qis_neg (q : Q) : bool := (Qnum q <? 0)%Z.
Definition Qltb (x y : Q) : bool := negb (Qle_bool y x).

Definition fadd (a b : fnum Q) : fnum Q :=
  match a, b with
  | NaN, _ | _, NaN => NaN
  | Fin x, Fin y => Fin (x + y)
  | Inf s, Inf t => if Bool.eqb s t then Inf s else NaN
  | Inf s, Fin _ => Inf s
  | Fin _, Inf t => Inf t
  end.

Definition fsub (a b : fnum Q) : fnum Q :=
  match a, b with
  | NaN, _ | _, NaN => NaN
  | Fin x, Fin y => Fin (x - y)
  | Inf s, Inf t => if Bool.eqb s t then NaN else Inf s
  | Inf s, Fin _ => Inf s
  | Fin _, Inf t => Inf (negb t)
  end.

Definition fmul (a b : fnum Q) : fnum Q :=
  match a, b with
  | NaN, _ | _, NaN => NaN
  | Fin x, Fin y => Fin (x * y)
  | Inf s, Inf t => Inf (xorb s t)
  | Inf s, Fin y => if Qis_zero y then NaN else Inf (xorb s (Qis_neg y))
  | Fin x, Inf t => if Qis_zero x then NaN else Inf (xorb (Qis_neg x) t)
  end.

(** Division never raises: a zero divisor gives an infinity, or
    not-a-number for [0 / 0]. *)
Definition fdiv (a b : fnum Q) : fnum Q :=
  match a, b with
  | NaN, _ | _, NaN => NaN
  | Fin x, Fin y =>
      if Qis_zero y
      then (if Qis_zero x then NaN else Inf (Qis_neg x))
      else Fin (x / y)
  | Fin _, Inf _ => Fin 0
  | Inf s, Fin y => Inf (xorb s (Qis_neg y))
  | Inf _, Inf _ => NaN
  end.

(** [a > b]; every comparison with not-a-number is false. *)
Definition fgtb (a b : fnum Q) : bool :=
  match a, b with
  | NaN, _ | _, NaN => false
  | Fin x, Fin y => Qltb y x
  | Inf s, Inf t => negb s && t
  | Inf s, Fin _ => negb s
  | Fin _, Inf t => t
  end.

(** Two results denote the same number. *)
Definition feq (a b : fnum Q) : Prop :=
  match a, b with
  | NaN, NaN => True
  | Inf s, Inf t => s = t
  | Fin x, Fin y => x == y
  | _, _ => False
  end.

Definition Qsum (l : list Q) : Q := fold_right Qplus 0 l.

Definition fsum (l : list (fnum Q)) : fnum Q := fold_right fadd (Fin 0) l.

(** [Series.mean()] of a column without missing values: the sum over the
    count, and not-a-number for the empty column. *)
Definition mean (l : list Q) : fnum Q :=
  match l with
  | [] => NaN
  | _ :: _ => Fin (Qsum l / inject_Z (Z.of_nat (length l)))
  end.

(* ------------------------------------------------------------------ *)
(** ** The data frame *)

(** One row of the loaded table, with the columns the script reads. *)
Record Observation : Type := mkObservation {
  Date : Timestamp;
  Region : string;
  Area : string;
  Estimated_Unemployment_Rate : Q;
  Estimated_Employed : Q;
  Estimated_Labour_Participation_Rate : Q
}.

Definition DataFrame : Type := list Observation.

Definition rates (df : DataFrame) : list Q :=
  map Estimated_Unemployment_Rate df.

(* ------------------------------------------------------------------ *)
(** ** Column helpers: [unique], [sorted], [isin], [min], [max] *)

Section Unique.
Context {A : Type} (eqb : A -> A -> bool).

(** [Series.unique()]: the distinct values in order of first appearance. *)
Fixpoint unique (l : list A) : list A :=
  match l with
  | [] => []
  | x :: t => x :: filter (fun y => negb (eqb x y)) (unique t)
  end.

End Unique.

Section Sorting.
Context {A : Type} (leb : A -> A -> bool).

Fixpoint insert_sorted (x : A) (l : list A) : list A :=
  match l with
  | [] => [x]
  | h :: t => if leb x h then x :: h :: t else h :: insert_sorted x t
  end.

(** Ascending sort. *)
Fixpoint sort (l : list A) : list A :=
  match l with
  | [] => []
  | x :: t => insert_sorted x (sort t)
  end.

End Sorting.

(** [sorted(...)] on strings. *)
Definition sorted (l : list string) : list string := sort String.leb l.

(** [Series.isin(values)] for one cell. *)
Definition isin (x : string) (values : list string) : bool :=
  existsb (String.eqb x) values.

(** [df['Date'].min()] and [df['Date'].max()]; [None] on an empty column. *)
Fixpoint Date_min (df : DataFrame) : option Timestamp :=
  match df with
  | [] => None
  | r :: t => match Date_min t with
              | None => Some (Date r)
              | Some m => Some (if ts_leb (Date r) m then Date r else m)
              end
  end.

Fixpoint Date_max (df : DataFrame) : option Timestamp :=
  match df with
  | [] => None
  | r :: t => match Date_max t with
              | None => Some (Date r)
              | Some m => Some (if ts_leb m (Date r) then Date r else m)
              end
  end.

(* ------------------------------------------------------------------ *)
(** ** Grouping: [df.groupby(keys)[rate].mean().reset_index()] *)

Inductive column : Type := ColDate | ColRegion | ColArea.

(** A cell of a grouping key: a date, or the text of a region or area. *)
Inductive keycell : Type :=
| KDate (t : Timestamp)
| KStr (s : string).

Definition cell_of (c : column) (r : Observation) : keycell :=
  match c with
  | ColDate => KDate (Date r)
  | ColRegion => KStr (Region r)
  | ColArea => KStr (Area r)
  end.

Definition key_of (keys : list column) (r : Observation) : list keycell :=
  map (fun c => cell_of c r) keys.

Definition cell_compare (a b : keycell) : comparison :=
  match a, b with
  | KDate s, KDate t => ts_compare s t
  | KStr s, KStr t => String.compare s t
  | KDate _, KStr _ => Lt
  | KStr _, KDate _ => Gt
  end.

(** Key tuples are ordered lexicographically. *)
Fixpoint key_compare (a b : list keycell) : comparison :=
  match a, b with
  | [], [] => Eq
  | [], _ :: _ => Lt
  | _ :: _, [] => Gt
  | x :: a', y :: b' =>
      match cell_compare x y with
      | Eq => key_compare a' b'
      | c => c
      end
  end.

Definition key_leb (a b : list keycell) : bool :=
  match key_compare a b with Gt => false | _ => true end.

Definition key_eqb (a b : list keycell) : bool :=
  match key_compare a b with Eq => true | _ => false end.

(** The rows of one group. *)
Definition group (keys : list column) (df : DataFrame) (k : list keycell)
  : DataFrame :=
  filter (fun r => key_eqb (key_of keys r) k) df.

(** One output row per observed key tuple, keys ascending (pandas sorts
    group keys by default), each with the mean rate of its group.  The
    script always names at least one key; pandas rejects an empty key
    list. *)
Definition groupby_mean (keys : list column) (df : DataFrame)
  : list (list keycell * fnum Q) :=
  map (fun k => (k, mean (rates (group keys df k))))
      (sort key_leb (unique key_eqb (map (key_of keys) df))).

(** [groupby(keys).size()] for one key tuple. *)
Definition group_size (keys : list column) (df : DataFrame) (k : list keycell)
  : nat :=
  length (group keys df k).

(* ------------------------------------------------------------------ *)
(** ** [main]: overview *)

(** Line 68. *)
Definition monthly_data (df : DataFrame) := groupby_mean [ColDate] df.

(** Line 91. *)
Definition area_data (df : DataFrame) := groupby_mean [ColDate; ColArea] df.

(* ------------------------------------------------------------------ *)
(** ** [main]: regional analysis, the filter stage *)

(** Line 143.  On rows whose region is present [str] is the identity;
    [all_regions_raw] below is the same line on rows with missing
    cells. *)
Definition all_regions (df : DataFrame) : list string :=
  sorted (unique String.eqb (map Region df)).

(** The slider's default value, lines 159-161. *)
Definition default_time_period (df : DataFrame)
  : option (Timestamp * Timestamp) :=
  match Date_min df, Date_max df with
  | Some lo, Some hi => Some (lo, hi)
  | _, _ => None
  end.

(** Lines 154-176: region membership, then the inclusive date range, then
    the area unless it is ['Both']. *)
Definition filter_stage (df : DataFrame) (selected_regions : list string)
    (time_period : Timestamp * Timestamp) (selected_area : string)
  : DataFrame :=
  let filtered_df := filter (fun r => isin (Region r) selected_regions) df in
  let filtered_df :=
    filter (fun r => ts_geb (Date r) (fst time_period)
                     && ts_leb (Date r) (snd time_period)) filtered_df in
  if negb (String.eqb selected_area "Both")
  then filter (fun r => String.eqb (Area r) selected_area) filtered_df
  else filtered_df.

(** Line 182 and line 203. *)
Definition region_data (filtered_df : DataFrame) :=
  groupby_mean [ColRegion] filtered_df.

Definition region_time_data (filtered_df : DataFrame) :=
  groupby_mean [ColRegion; ColDate] filtered_df.

(* ------------------------------------------------------------------ *)
(** ** [main]: Covid-19 impact *)

(** Lines 276-279. *)
Definition pre_covid_start : Timestamp := mkTimestamp 2019 5 1.
Definition pre_covid_end : Timestamp := mkTimestamp 2020 2 29.
Definition post_covid_start : Timestamp := mkTimestamp 2020 3 1.
Definition post_covid_end : Timestamp := mkTimestamp 2020 6 30.

(** Lines 282-283. *)
Definition pre_covid_df (df : DataFrame) : DataFrame :=
  filter (fun r => ts_geb (Date r) pre_covid_start
                   && ts_leb (Date r) pre_covid_end) df.

Definition post_covid_df (df : DataFrame) : DataFrame :=
  filter (fun r => ts_geb (Date r) post_covid_start
                   && ts_leb (Date r) post_covid_end) df.

(** Lines 286-288: the headline figures. *)
Definition pre_covid_avg (df : DataFrame) : fnum Q := mean (rates (pre_covid_df df)).

Definition post_covid_avg (df : DataFrame) : fnum Q := mean (rates (post_covid_df df)).

Definition percent_change (df : DataFrame) : fnum Q :=
  fmul (fdiv (fsub (post_covid_avg df) (pre_covid_avg df)) (pre_covid_avg df))
       (Fin 100).

(** [frame[frame['Region'] == region]] and [frame[frame['Area'] == area]]. *)
Definition region_rows (region : string) (frame : DataFrame) : DataFrame :=
  filter (fun r => String.eqb (Region r) region) frame.

Definition area_rows (area : string) (frame : DataFrame) : DataFrame :=
  filter (fun r => String.eqb (Area r) area) frame.

(** Lines 310-315: one (Region, Change) row per region, in the order of
    [df['Region'].unique()]. *)
Definition region_impact (df : DataFrame) : list (string * fnum Q) :=
  map (fun region =>
         let pre := mean (rates (region_rows region (pre_covid_df df))) in
         let post := mean (rates (region_rows region (post_covid_df df))) in
         let change := fsub post pre in
         (region, change))
      (unique String.eqb (map Region df)).

(** [Series.idxmax()] on the default integer index: the position of the
    first occurrence of the maximum, missing values skipped.  [None]
    stands for the error pandas reports when there is no value to pick. *)
Fixpoint idxmax_scan (l : list (fnum Q)) (i : nat)
    (best : option (nat * fnum Q)) : option nat :=
  match l with
  | [] => option_map fst best
  | x :: t =>
      let best' :=
        if is_nan x then best
        else match best with
             | None => Some (i, x)
             | Some (_, b) => if fgtb x b then Some (i, x) else best
             end in
      idxmax_scan t (S i) best'
  end.

Definition idxmax (l : list (fnum Q)) : option nat := idxmax_scan l 0 None.

(** Lines 317-318. *)
Definition most_affected (df : DataFrame) : option (string * fnum Q) :=
  let region_impact_df := region_impact df in
  match idxmax (map snd region_impact_df) with
  | Some i => nth_error region_impact_df i
  | None => None
  end.

(** A row of [region_impact_full], lines 387-393. *)
Record ImpactRow : Type := mkImpactRow {
  impact_Region : string;
  Pre_Covid_Rate : fnum Q;
  Post_Covid_Rate : fnum Q;
  Absolute_Change : fnum Q;
  Percentage_Change : fnum Q
}.

(** Lines 381-393. *)
Definition region_impact_full (df : DataFrame) : list ImpactRow :=
  map (fun region =>
         let pre := mean (rates (region_rows region (pre_covid_df df))) in
         let post := mean (rates (region_rows region (post_covid_df df))) in
         let change := fsub post pre in
         let percent :=
           if fgtb pre (Fin 0) then fmul (fdiv change pre) (Fin 100)
           else Fin 0 in
         mkImpactRow region pre post change percent)
      (unique String.eqb (map Region df)).

(** Lines 417-424. *)
Definition rural_pre (df : DataFrame) : fnum Q :=
  mean (rates (area_rows "Rural" (pre_covid_df df))).
Definition rural_post (df : DataFrame) : fnum Q :=
  mean (rates (area_rows "Rural" (post_covid_df df))).
Definition urban_pre (df : DataFrame) : fnum Q :=
  mean (rates (area_rows "Urban" (pre_covid_df df))).
Definition urban_post (df : DataFrame) : fnum Q :=
  mean (rates (area_rows "Urban" (post_covid_df df))).

Definition rural_change_pct (df : DataFrame) : fnum Q :=
  if fgtb (rural_pre df) (Fin 0)
  then fmul (fdiv (fsub (rural_post df) (rural_pre df)) (rural_pre df)) (Fin 100)
  else Fin 0.

Definition urban_change_pct (df : DataFrame) : fnum Q :=
  if fgtb (urban_pre df) (Fin 0)
  then fmul (fdiv (fsub (urban_post df) (urban_pre df)) (urban_pre df)) (Fin 100)
  else Fin 0.

(* ------------------------------------------------------------------ *)
(** ** Correlation: [Series.corr], Pearson's method *)

(** *** Arithmetic on reals *)

Definition Ris_zero (x : R) : bool := if Req_dec_T x 0 then true else false.
Definition Ris_neg (x : R) : bool := if Rlt_dec x 0 then true else false.

Definition rmul (a b : fnum R) : fnum R :=
  match a, b with
  | NaN, _ | _, NaN => NaN
  | Fin x, Fin y => Fin (x * y)%R
  | Inf s, Inf t => Inf (xorb s t)
  | Inf s, Fin y => if Ris_zero y then NaN else Inf (xorb s (Ris_neg y))
  | Fin x, Inf t => if Ris_zero x then NaN else Inf (xorb (Ris_neg x) t)
  end.

Definition rdiv (a b : fnum R) : fnum R :=
  match a, b with
  | NaN, _ | _, NaN => NaN
  | Fin x, Fin y =>
      if Ris_zero y
      then (if Ris_zero x then NaN else Inf (Ris_neg x))
      else Fin (x / y)%R
  | Fin _, Inf _ => Fin 0%R
  | Inf s, Fin y => Inf (xorb s (Ris_neg y))
  | Inf _, Inf _ => NaN
  end.

Definition rsqrt (a : fnum R) : fnum R :=
  match a with
  | NaN => NaN
  | Inf s => if s then NaN else Inf false
  | Fin x => if Ris_neg x then NaN else Fin (sqrt x)
  end.

(** [np.clip(a, -1, 1)]. *)
Definition rclip (a : fnum R) : fnum R :=
  match a with
  | NaN => NaN
  | Inf s => Fin (if s then (-1)%R else 1%R)
  | Fin x => Fin (Rmin (Rmax x (-1)) 1)
  end.

Definition Rsum (l : list R) : R := fold_right Rplus 0%R l.

(** [np.average] of a non-empty row. *)
Definition average (l : list R) : R := (Rsum l / INR (length l))%R.

(** The row with its average subtracted. *)
Definition centred (l : list R) : list R := map (fun v => (v - average l)%R) l.

Definition dot (a b : list R) : R :=
  Rsum (map (fun p => (fst p * snd p)%R) (combine a b)).

(** [np.cov] with [ddof = 1]: the normalisation [fact] is the number of
    observations less one, replaced by zero when that is not positive;
    an entry of the matrix is a dot product of centred rows times
    [1 / fact]. *)
Definition cov_fact (n : nat) : R :=
  let fact := (INR n - 1)%R in
  if Rle_dec fact 0 then 0%R else fact.

Definition cov_entry (a b : list R) : fnum R :=
  rmul (Fin (dot (centred a) (centred b)))
       (rdiv (Fin 1%R) (Fin (cov_fact (length a)))).

(** [np.corrcoef(a, b)[0, 1]]: the covariance divided by both standard
    deviations, then clipped to [-1, 1]. *)
Definition np_corrcoef (a b : list R) : fnum R :=
  let c00 := cov_entry a a in
  let c01 := cov_entry a b in
  let c11 := cov_entry b b in
  rclip (rdiv (rdiv c01 (rsqrt c00)) (rsqrt c11)).

(** [a.corr(b)] for two columns of one frame: not-a-number for an empty
    frame, otherwise [np.corrcoef]. *)
Definition Series_corr (a b : list Q) : fnum R :=
  match a with
  | [] => NaN
  | _ :: _ => np_corrcoef (map Q2R a) (map Q2R b)
  end.

Record CorrelationRow : Type := mkCorrelationRow {
  corr_Region : string;
  Correlation_with_Employment : fnum R;
  Correlation_with_Labor_Participation : fnum R
}.

(** Lines 227-239. *)
Definition correlation_data (filtered_df : DataFrame)
    (selected_regions : list string) : list CorrelationRow :=
  map (fun region =>
         let region_df := region_rows region filtered_df in
         let corr_employment :=
           Series_corr (rates region_df) (map Estimated_Employed region_df) in
         let corr_labor :=
           Series_corr (rates region_df)
                       (map Estimated_Labour_Participation_Rate region_df) in
         mkCorrelationRow region corr_employment corr_labor)
      selected_regions.

(** The textbook quantities the correlation is compared with. *)
Definition sum_sq_dev (x : list R) : R := dot (centred x) (centred x).

Definition sample_variance (x : list R) : R :=
  (sum_sq_dev x / (INR (length x) - 1))%R.

Definition pearson (x y : list R) : R :=
  (dot (centred x) (centred y) / (sqrt (sum_sq_dev x) * sqrt (sum_sq_dev y)))%R.

(* ------------------------------------------------------------------ *)
(** ** The means and the correlation in double precision *)

(** The same computations on binary64 floats, every operation rounded to
    the nearest double as the hardware does.

    A number of the data file is the double nearest to its decimal text:
    the rounded quotient of its numerator and denominator, for numerators
    and denominators below 2^53.

    Sums are accumulated from left to right, starting from zero.  numpy
    and pandas add a column of fewer than eight cells in this order; for
    longer columns they use other orders (pairwise, or with a
    compensation term).  The frames these functions are evaluated on
    below have at most seven rows per sum, or hold whole numbers, whose
    sums are exact in any order. *)
Definition f64 : Set := PrimFloat.float.

Definition f64_of_Z (z : Z) : f64 :=
  match z with
  | Zneg p => PrimFloat.opp (PrimFloat.of_uint63 (Uint63.of_Z (Zpos p)))
  | _ => PrimFloat.of_uint63 (Uint63.of_Z z)
  end.

Definition f64_of_nat (n : nat) : f64 := f64_of_Z (Z.of_nat n).

Definition f64_of_Q (q : Q) : f64 :=
  PrimFloat.div (f64_of_Z (Qnum q)) (f64_of_Z (Zpos (Qden q))).

Definition sum_f64 (l : list f64) : f64 :=
  fold_left PrimFloat.add l PrimFloat.zero.

(** The sum over the count, and not-a-number for the empty column. *)
Definition mean_f64 (l : list f64) : f64 :=
  match l with
  | [] => PrimFloat.nan
  | _ :: _ => PrimFloat.div (sum_f64 l) (f64_of_nat (length l))
  end.

(** [Series.mean()] of a column of the frame. *)
Definition Series_mean_f64 (l : list Q) : f64 := mean_f64 (map f64_of_Q l).

(** [groupby(keys)[rate].mean().reset_index()]. *)
Definition groupby_mean_f64 (keys : list column) (df : DataFrame)
  : list (list keycell * f64) :=
  map (fun k => (k, Series_mean_f64 (rates (group keys df k))))
      (sort key_leb (unique key_eqb (map (key_of keys) df))).

(** [np.cov] and [np.corrcoef], as [cov_entry] and [np_corrcoef] above. *)
Definition centred_f64 (l : list f64) : list f64 :=
  map (fun v => PrimFloat.sub v (mean_f64 l)) l.

Definition dot_f64 (a b : list f64) : f64 :=
  sum_f64 (map (fun p => PrimFloat.mul (fst p) (snd p)) (combine a b)).

Definition cov_fact_f64 (n : nat) : f64 :=
  let fact := PrimFloat.sub (f64_of_nat n) PrimFloat.one in
  if PrimFloat.leb fact PrimFloat.zero then PrimFloat.zero else fact.

Definition cov_entry_f64 (a b : list f64) : f64 :=
  PrimFloat.mul (dot_f64 (centred_f64 a) (centred_f64 b))
                (PrimFloat.div PrimFloat.one (cov_fact_f64 (length a))).

(** [np.clip(x, -1, 1)]; a not-a-number passes through. *)
Definition clip_f64 (x : f64) : f64 :=
  if PrimFloat.ltb x (PrimFloat.opp PrimFloat.one)
  then PrimFloat.opp PrimFloat.one
  else if PrimFloat.ltb PrimFloat.one x then PrimFloat.one
  else x.

(** The covariance is divided by the standard deviation of the first
    column, the quotient by that of the second. *)
Definition np_corrcoef_f64 (a b : list f64) : f64 :=
  let c00 := cov_entry_f64 a a in
  let c01 := cov_entry_f64 a b in
  let c11 := cov_entry_f64 b b in
  clip_f64 (PrimFloat.div (PrimFloat.div c01 (PrimFloat.sqrt c00))
                          (PrimFloat.sqrt c11)).

Definition Series_corr_f64 (a b : list Q) : f64 :=
  match a with
  | [] => PrimFloat.nan
  | _ :: _ => np_corrcoef_f64 (map f64_of_Q a) (map f64_of_Q b)
  end.

Record CorrelationRow_f64 : Type := mkCorrelationRow_f64 {
  corr_Region_f64 : string;
  Correlation_with_Employment_f64 : f64;
  Correlation_with_Labor_Participation_f64 : f64
}.

(** Lines 227-239. *)
Definition correlation_data_f64 (filtered_df : DataFrame)
    (selected_regions : list string) : list CorrelationRow_f64 :=
  map (fun region =>
         let region_df := region_rows region filtered_df in
         let corr_employment :=
           Series_corr_f64 (rates region_df)
                           (map Estimated_Employed region_df) in
         let corr_labor :=
           Series_corr_f64 (rates region_df)
                           (map Estimated_Labour_Participation_Rate region_df) in
         mkCorrelationRow_f64 region corr_employment corr_labor)
      selected_regions.

(** A double that is not-a-number or an infinity, in terms of its
    IEEE representation. *)
Definition nan_or_inf (x : f64) : Prop :=
  FloatOps.Prim2SF x = SpecFloat.S754_nan
  \/ exists s, FloatOps.Prim2SF x = SpecFloat.S754_infinity s.


(* ------------------------------------------------------------------ *)
(** ** [load_data] *)

(** A cell of the table as read from the file, or as computed by the
    loader. *)
Inductive cell : Type :=
| CStr (s : string)
| CNum (q : Q)
| CInt (z : Z)
| CTime (t : Timestamp).

(** A frame is a sequence of named columns. *)
Definition Frame : Type := list (string * list cell).

Definition columns (df : Frame) : list string := map fst df.

(** [str.strip()]: leading and trailing whitespace removed.  Among the
    code points below 256 the whitespace is the range from tab to
    carriage return, the four separators before the space, the space,
    next line (133) and the no-break space (160). *)
Definition is_space (c : ascii) : bool :=
  let n := nat_of_ascii c in
  ((9 <=? n) && (n <=? 13) || (28 <=? n) && (n <=? 32)
   || (n =? 133) || (n =? 160))%nat.

Fixpoint lstrip (s : string) : string :=
  match s with
  | EmptyString => EmptyString
  | String c t => if is_space c then lstrip t else s
  end.

Fixpoint rstrip (s : string) : string :=
  match s with
  | EmptyString => EmptyString
  | String c t =>
      match rstrip t with
      | EmptyString => if is_space c then EmptyString else String c EmptyString
      | t' => String c t'
      end
  end.

Definition strip (s : string) : string := rstrip (lstrip s).

(** [df.columns = df.columns.str.strip()]. *)
Definition strip_columns (df : Frame) : Frame :=
  map (fun col => (strip (fst col), snd col)) df.

(** [df[name]] as a single column: the name must label exactly one. *)
Definition get_column (name : string) (df : Frame) : option (list cell) :=
  match filter (fun col => String.eqb (fst col) name) df with
  | [col] => Some (snd col)
  | _ => None
  end.

(** [df[name] = values]: every column of that name is replaced; a new
    column is appended when there is none. *)
Definition set_column (name : string) (values : list cell) (df : Frame) : Frame :=
  if existsb (fun col => String.eqb (fst col) name) df
  then map (fun col => if String.eqb (fst col) name then (name, values) else col) df
  else df ++ [(name, values)].

Fixpoint traverse {A B : Type} (f : A -> option B) (l : list A) : option (list B) :=
  match l with
  | [] => Some []
  | x :: t =>
      match f x, traverse f t with
      | Some y, Some t' => Some (y :: t')
      | _, _ => None
      end
  end.

Definition bind {A B : Type} (m : option A) (k : A -> option B) : option B :=
  match m with
  | Some x => k x
  | None => None
  end.

Notation "x <- m ;; k" := (bind m (fun x => k))
  (at level 61, m at next level, right associativity).

(** [.str.strip()] on a column of text.  A column of numbers has no
    [.str] accessor and the load fails; a column with an empty field is
    not among the frames of this loader model. *)
Definition str_strip (col : list cell) : option (list string) :=
  traverse (fun c => match c with CStr s => Some (strip s) | _ => None end) col.

Definition as_time (c : cell) : option Timestamp :=
  match c with CTime t => Some t | _ => None end.

(** [.dt.year] and [.dt.month]. *)
Definition dt_year (col : list cell) : option (list cell) :=
  traverse (fun c => option_map (fun t => CInt (year t)) (as_time c)) col.

Definition dt_month (col : list cell) : option (list cell) :=
  traverse (fun c => option_map (fun t => CInt (month t)) (as_time c)) col.

(** [strftime('%b')]. *)
Definition month_abbr (m : Z) : string :=
  match m with
  | 1 => "Jan" | 2 => "Feb" | 3 => "Mar" | 4 => "Apr"
  | 5 => "May" | 6 => "Jun" | 7 => "Jul" | 8 => "Aug"
  | 9 => "Sep" | 10 => "Oct" | 11 => "Nov" | 12 => "Dec"
  | _ => ""
  end%Z%string.

Definition dt_strftime_b (col : list cell) : option (list cell) :=
  traverse (fun c => option_map (fun t => CStr (month_abbr (month t))) (as_time c)) col.

Section Loader.

(** [pd.to_datetime(column, dayfirst=...)] on a column of text; [None]
    when pandas raises. *)
Variable to_datetime : bool -> list string -> option (list Timestamp).

(** Lines 19-32, from the frame [pd.read_csv] returns. *)
Definition load_data (csv : Frame) : option Frame :=
  let df := strip_columns csv in
  dates <- get_column "Date" df ;;
  stripped <- str_strip dates ;;
  parsed <- to_datetime true stripped ;;
  let df := set_column "Date" (map CTime parsed) df in
  d <- get_column "Date" df ;;
  years <- dt_year d ;;
  let df := set_column "Year" years df in
  d <- get_column "Date" df ;;
  months <- dt_month d ;;
  let df := set_column "Month" months df in
  d <- get_column "Date" df ;;
  names <- dt_strftime_b d ;;
  let df := set_column "Month_Name" names df in
  Some df.

End Loader.

(** *** Day-first dates in text *)

Definition digit (n : Z) : ascii := ascii_of_nat (48 + Z.to_nat n).

Definition two_digits (n : Z) : string :=
  String (digit (n / 10)) (String (digit (n mod 10)) EmptyString).

Definition four_digits (n : Z) : string :=
  String (digit (n / 1000))
    (String (digit (n / 100 mod 10))
       (String (digit (n / 10 mod 10))
          (String (digit (n mod 10)) EmptyString))).

(** The text [DD-MM-YYYY]. *)
Definition dmy_text (d m y : Z) : string :=
  (two_digits d ++ "-" ++ two_digits m ++ "-" ++ four_digits y)%string.

Definition is_leap (y : Z) : bool :=
  ((y mod 4 =? 0) && negb (y mod 100 =? 0) || (y mod 400 =? 0))%Z.

Definition days_in_month (y m : Z) : Z :=
  if (m =? 2)%Z then (if is_leap y then 29%Z else 28%Z)
  else if ((m =? 4) || (m =? 6) || (m =? 9) || (m =? 11))%Z then 30%Z
  else 31%Z.

(** A calendar date a [Timestamp] can hold. *)
Definition valid_date (y m d : Z) : Prop :=
  (1678 <= y <= 2261 /\ 1 <= m <= 12 /\ 1 <= d <= days_in_month y m)%Z.

(** The day-first reading of a column: every text is [DD-MM-YYYY] for a
    calendar date, and [ts] lists these dates. *)
Definition dayfirst_reading (texts : list string) (ts : list Timestamp) : Prop :=
  Forall2 (fun s t => s = dmy_text (day t) (month t) (year t)
                      /\ valid_date (year t) (month t) (day t)) texts ts.

(** A strict reader of [DD-MM-YYYY] (or [MM-DD-YYYY] when [dayfirst] is
    off), one instance of [to_datetime]. *)
Definition digit_val (c : ascii) : option Z :=
  let n := nat_of_ascii c in
  if ((48 <=? n) && (n <=? 57))%nat then Some (Z.of_nat n - 48)%Z else None.

Definition valid_dateb (y m d : Z) : bool :=
  ((1678 <=? y) && (y <=? 2261) && (1 <=? m) && (m <=? 12)
   && (1 <=? d) && (d <=? days_in_month y m))%Z.

Definition parse_date (dayfirst : bool) (s : string) : option Timestamp :=
  match s with
  | String a1 (String a2 (String s1 (String b1 (String b2 (String s2
      (String y1 (String y2 (String y3 (String y4 EmptyString))))))))) =>
      if (Ascii.eqb s1 "-" && Ascii.eqb s2 "-")%char then
        a1 <- digit_val a1 ;; a2 <- digit_val a2 ;;
        b1 <- digit_val b1 ;; b2 <- digit_val b2 ;;
        y1 <- digit_val y1 ;; y2 <- digit_val y2 ;;
        y3 <- digit_val y3 ;; y4 <- digit_val y4 ;;
        let a := (10 * a1 + a2)%Z in
        let b := (10 * b1 + b2)%Z in
        let y := (1000 * y1 + 100 * y2 + 10 * y3 + y4)%Z in
        let d := if dayfirst then a else b in
        let m := if dayfirst then b else a in
        if valid_dateb y m d then Some (mkTimestamp y m d) else None
      else None
  | _ => None
  end.

Definition strict_to_datetime (dayfirst : bool) (texts : list string)
  : option (list Timestamp) :=
  traverse (parse_date dayfirst) texts.

(** *** [to_datetime] as pandas reads a column *)

(** With its default settings [to_datetime] (pandas 2 and later) finds
    one format for the whole column from the first text and reads every
    text with that format; [dayfirst] only says which reading of the
    first text is tried first.  For texts of the form [NN-NN-NNNN], the form of the
    dates in the data file, the format found is day first ([true],
    [%d-%m-%Y]) or month first ([false], [%m-%d-%Y]); a text that does
    not fit the format found makes pandas raise. *)
Definition guess_datetime_format (dayfirst : bool) (first : string)
  : option bool :=
  match parse_date dayfirst first with
  | Some _ => Some dayfirst
  | None => match parse_date (negb dayfirst) first with
            | Some _ => Some (negb dayfirst)
            | None => None
            end
  end.

Definition pandas_to_datetime (dayfirst : bool) (texts : list string)
  : option (list Timestamp) :=
  match texts with
  | [] => Some []
  | first :: _ =>
      format <- guess_datetime_format dayfirst first ;;
      traverse (parse_date format) texts
  end.

(** *** The typed rows [main] works on *)

Definition as_text (c : cell) : option string :=
  match c with CStr s => Some s | _ => None end.

Definition as_number (c : cell) : option Q :=
  match c with CNum q => Some q | CInt z => Some (inject_Z z) | _ => None end.

Fixpoint zip_rows (d : list Timestamp) (r a : list string) (u e l : list Q)
  : DataFrame :=
  match d, r, a, u, e, l with
  | d0 :: d', r0 :: r', a0 :: a', u0 :: u', e0 :: e', l0 :: l' =>
      mkObservation d0 r0 a0 u0 e0 l0 :: zip_rows d' r' a' u' e' l'
  | _, _, _, _, _, _ => []
  end.

(** The columns [main] reads from the loaded frame, row by row. *)
Definition observations (df : Frame) : option DataFrame :=
  d <- bind (get_column "Date" df) (traverse as_time) ;;
  r <- bind (get_column "Region" df) (traverse as_text) ;;
  a <- bind (get_column "Area" df) (traverse as_text) ;;
  u <- bind (get_column "Estimated Unemployment Rate (%)" df) (traverse as_number) ;;
  e <- bind (get_column "Estimated Employed" df) (traverse as_number) ;;
  l <- bind (get_column "Estimated Labour Participation Rate (%)" df)
            (traverse as_number) ;;
  Some (zip_rows d r a u e l).

(* ------------------------------------------------------------------ *)
(** ** Frames with missing cells *)

(** [pd.read_csv] reads an empty field as a missing value, and the
    loader passes a missing date text on as a missing date.  A row as
    the filter stage can meet it: each cell is present or missing. *)
Record RawObservation : Type := mkRawObservation {
  Date_cell : option Timestamp;
  Region_cell : option string;
  Area_cell : option string;
  Rate_cell : option Q;
  Employed_cell : option Q;
  Labour_cell : option Q
}.

Definition RawFrame : Type := list RawObservation.

(** A row without missing cells. *)
Definition complete (r : Observation) : RawObservation :=
  mkRawObservation (Some (Date r)) (Some (Region r)) (Some (Area r))
    (Some (Estimated_Unemployment_Rate r)) (Some (Estimated_Employed r))
    (Some (Estimated_Labour_Participation_Rate r)).

(** [str(region)]: the text itself, and ['nan'] for a missing value. *)
Definition str (c : option string) : string :=
  match c with
  | Some s => s
  | None => "nan"
  end.

(** Equality of cells as [unique] sees it: the missing value is one
    value. *)
Definition text_cell_eqb (a b : option string) : bool :=
  match a, b with
  | Some s, Some t => String.eqb s t
  | None, None => true
  | _, _ => false
  end.

(** Line 143: [unique] keeps the missing value, [str] turns it into
    text. *)
Definition all_regions_raw (df : RawFrame) : list string :=
  sorted (map str (unique text_cell_eqb (map Region_cell df))).

(** Line 57: [nunique] counts the distinct values that are present. *)
Fixpoint dropna {A : Type} (l : list (option A)) : list A :=
  match l with
  | [] => []
  | Some x :: t => x :: dropna t
  | None :: t => dropna t
  end.

Definition Region_nunique (df : RawFrame) : nat :=
  length (unique String.eqb (dropna (map Region_cell df))).

(** [isin], [>=], [<=] and [==] are false on a missing cell. *)
Definition isin_cell (c : option string) (values : list string) : bool :=
  match c with
  | Some s => isin s values
  | None => false
  end.

Definition date_cell_between (c : option Timestamp) (lo hi : Timestamp) : bool :=
  match c with
  | Some d => ts_geb d lo && ts_leb d hi
  | None => false
  end.

Definition text_cell_is (c : option string) (s : string) : bool :=
  match c with
  | Some t => String.eqb t s
  | None => false
  end.

(** [min] and [max] skip missing dates. *)
Fixpoint Date_min_raw (df : RawFrame) : option Timestamp :=
  match df with
  | [] => None
  | r :: t => match Date_cell r, Date_min_raw t with
              | Some d, Some m => Some (if ts_leb d m then d else m)
              | Some d, None => Some d
              | None, m => m
              end
  end.

Fixpoint Date_max_raw (df : RawFrame) : option Timestamp :=
  match df with
  | [] => None
  | r :: t => match Date_cell r, Date_max_raw t with
              | Some d, Some m => Some (if ts_leb m d then d else m)
              | Some d, None => Some d
              | None, m => m
              end
  end.

(** The slider's default value, lines 159-161. *)
Definition default_time_period_raw (df : RawFrame)
  : option (Timestamp * Timestamp) :=
  match Date_min_raw df, Date_max_raw df with
  | Some lo, Some hi => Some (lo, hi)
  | _, _ => None
  end.

(** Lines 154-176 on rows with missing cells. *)
Definition filter_stage_raw (df : RawFrame) (selected_regions : list string)
    (time_period : Timestamp * Timestamp) (selected_area : string)
  : RawFrame :=
  let filtered_df :=
    filter (fun r => isin_cell (Region_cell r) selected_regions) df in
  let filtered_df :=
    filter (fun r => date_cell_between (Date_cell r)
                       (fst time_period) (snd time_period)) filtered_df in
  if negb (String.eqb selected_area "Both")
  then filter (fun r => text_cell_is (Area_cell r) selected_area) filtered_df
  else filtered_df.

(* ------------------------------------------------------------------ *)
(** ** Specification-side notions *)

(** The calendar order, written out. *)
Definition ts_le (a b : Timestamp) : Prop :=
  (year a < year b
   \/ (year a = year b
       /\ (month a < month b \/ (month a = month b /\ day a <= day b))))%Z.

Definition ts_lt (a b : Timestamp) : Prop :=
  (year a < year b
   \/ (year a = year b
       /\ (month a < month b \/ (month a = month b /\ day a < day b))))%Z.

(** The date of a key tuple that starts with the date column. *)
Definition head_date (k : list keycell) : option Timestamp :=
  match k with
  | KDate t :: _ => Some t
  | _ => None
  end.

(** Two consecutive output rows are in date order. *)
Definition date_ascending (a b : list keycell * fnum Q) : Prop :=
  match head_date (fst a), head_date (fst b) with
  | Some s, Some t => ts_le s t
  | _, _ => False
  end.

(** The per-group means recombined with the group sizes as weights:
    the sum of [mean * size] over the total size. *)
Definition weighted_recombination (keys : list column) (df : DataFrame) : fnum Q :=
  fdiv (fsum (map (fun row =>
                     fmul (snd row)
                          (Fin (inject_Z (Z.of_nat (group_size keys df (fst row))))))
                  (groupby_mean keys df)))
       (Fin (inject_Z (Z.of_nat (length df)))).

(** The rows of one region whose date lies in the window from [lo] to
    [hi], both ends included. *)
Definition window_rows (df : DataFrame) (region : string) (lo hi : Timestamp)
  : DataFrame :=
  filter (fun r => String.eqb (Region r) region
                   && (ts_leb lo (Date r) && ts_leb (Date r) hi)) df.

(** The frame of the specification's example: region A goes from 10 to
    15, region B from 20 to 25, all rows rural; once with the rows of A
    first and once with the rows of B first. *)
Definition example_A_first : DataFrame :=
  [mkObservation (mkTimestamp 2019 5 31) "A" "Rural" 10 0 0;
   mkObservation (mkTimestamp 2020 4 30) "A" "Rural" 15 0 0;
   mkObservation (mkTimestamp 2019 5 31) "B" "Rural" 20 0 0;
   mkObservation (mkTimestamp 2020 4 30) "B" "Rural" 25 0 0].

Definition example_B_first : DataFrame :=
  [mkObservation (mkTimestamp 2019 5 31) "B" "Rural" 20 0 0;
   mkObservation (mkTimestamp 2020 4 30) "B" "Rural" 25 0 0;
   mkObservation (mkTimestamp 2019 5 31) "A" "Rural" 10 0 0;
   mkObservation (mkTimestamp 2020 4 30) "A" "Rural" 15 0 0].

(** The tie-break as the claim words it: no region with the same change
    comes before the chosen one in the alphabet. *)
Definition alphabetical_tie_break (df : DataFrame) : Prop :=
  forall region change,
    most_affected df = Some (region, change) ->
    forall region' change',
      In (region', change') (region_impact df) -> feq change' change ->
      String.leb region region' = true.

(** Predicates that say what [strip] removes. *)
Fixpoint all_space (s : string) : bool :=
  match s with
  | EmptyString => true
  | String c t => is_space c && all_space t
  end.

Definition starts_with_space (s : string) : bool :=
  match s with
  | EmptyString => false
  | String c _ => is_space c
  end.

Fixpoint ends_with_space (s : string) : bool :=
  match s with
  | EmptyString => false
  | String c EmptyString => is_space c
  | String _ t => ends_with_space t
  end.

(** The derived columns of the loaded frame. *)
Definition years_of (ts : list Timestamp) : list cell :=
  map (fun t => CInt (year t)) ts.

Definition months_of (ts : list Timestamp) : list cell :=
  map (fun t => CInt (month t)) ts.

Definition month_names_of (ts : list Timestamp) : list cell :=
  map (fun t => CStr (month_abbr (month t))) ts.

(** A file with stray spaces in headers and dates, and an ambiguous
    date. *)
Definition example_csv : Frame :=
  [(" Region", [CStr "A"; CStr "A"]);
   (" Date", [CStr " 31-05-2019"; CStr " 05-06-2019 "]);
   (" Estimated Unemployment Rate (%)", [CNum 3.65; CNum 3.05]);
   ("Area", [CStr "Rural"; CStr "Rural"])]%string.

(** A file whose first date can only be read month first, followed by
    an ambiguous date; the header of the dates starts with a no-break
    space. *)
Definition month_first_csv : Frame :=
  [(" Region", [CStr "A"; CStr "A"]);
   (String (ascii_of_nat 160) "Date", [CStr " 05-31-2019"; CStr " 05-06-2019"]);
   (" Estimated Unemployment Rate (%)", [CNum 3.65; CNum 3.05]);
   ("Area", [CStr "Rural"; CStr "Rural"])]%string.

(** Whether a row has its region and its date. *)
Definition has_region_and_date (r : RawObservation) : bool :=
  match Region_cell r, Date_cell r with
  | Some _, Some _ => true
  | _, _ => false
  end.

(** Whether some row lacks its region. *)
Definition region_missing (df : RawFrame) : bool :=
  existsb (fun r => match Region_cell r with None => true | Some _ => false end)
          df.

(** A frame with the row a blank line of the file gives. *)
Definition example_blank_row : RawFrame :=
  [mkRawObservation (Some (mkTimestamp 2019 5 31)) (Some "A"%string)
     (Some "Rural"%string) (Some 10) (Some 7) (Some 40);
   mkRawObservation None None None None None None].

(** One region whose rate is 0.1 in each of three months. *)
Definition example_constant_rate : DataFrame :=
  [mkObservation (mkTimestamp 2019 5 31) "A" "Rural" (1 # 10) 1 40;
   mkObservation (mkTimestamp 2019 6 30) "A" "Rural" (1 # 10) 2 41;
   mkObservation (mkTimestamp 2019 7 31) "A" "Rural" (1 # 10) 4 43].

(** One row on the first date, seven on the second. *)
Definition example_two_dates : DataFrame :=
  [mkObservation (mkTimestamp 2019 5 31) "A" "Rural" 1 0 0;
   mkObservation (mkTimestamp 2019 6 30) "A" "Rural" 5 0 0;
   mkObservation (mkTimestamp 2019 6 30) "B" "Rural" 4 0 0;
   mkObservation (mkTimestamp 2019 6 30) "C" "Rural" 4 0 0;
   mkObservation (mkTimestamp 2019 6 30) "D" "Rural" 4 0 0;
   mkObservation (mkTimestamp 2019 6 30) "E" "Rural" 4 0 0;
   mkObservation (mkTimestamp 2019 6 30) "F" "Rural" 4 0 0;
   mkObservation (mkTimestamp 2019 6 30) "G" "Rural" 4 0 0].

(** One region over three months, rates 0, 0, 3 and employed counts
    0, 3, 9. *)
Definition example_three_months : DataFrame :=
  [mkObservation (mkTimestamp 2019 5 31) "A" "Rural" 0 0 40;
   mkObservation (mkTimestamp 2019 6 30) "A" "Rural" 0 3 40;
   mkObservation (mkTimestamp 2019 7 31) "A" "Rural" 3 9 40].

(** Three regions with their rows interleaved: A with three rows in
    which the employed count rises and the participation rate falls with
    the rate, B with a constant rate, C with a single row. *)
Definition example_regions : DataFrame :=
  [mkObservation (mkTimestamp 2019 5 31) "A" "Rural" 1 2 3;
   mkObservation (mkTimestamp 2019 5 31) "B" "Rural" 5 1 40;
   mkObservation (mkTimestamp 2019 6 30) "A" "Rural" 2 4 2;
   mkObservation (mkTimestamp 2019 6 30) "B" "Rural" 5 2 41;
   mkObservation (mkTimestamp 2019 7 31) "A" "Rural" 3 6 1;
   mkObservation (mkTimestamp 2019 7 31) "C" "Rural" 7 3 40].

(** The per-group means in double precision recombined with the group
    sizes as weights. *)
Definition weighted_recombination_f64 (keys : list column) (df : DataFrame)
  : f64 :=
  PrimFloat.div
    (sum_f64 (map (fun row => PrimFloat.mul (snd row)
                                (f64_of_nat (group_size keys df (fst row))))
                  (groupby_mean_f64 keys df)))
    (f64_of_nat (length df)).

(* ------------------------------------------------------------------ *)
(** ** [main]: the remaining tables *)

(** Line 147: the regions preselected in the selector. *)
Definition default_regions (df : DataFrame) : list string :=
  firstn 5 (all_regions df).

(** [sort_values(by, ascending=False)]: rows in descending order of a
    numeric column, rows without a value last.  Pandas leaves the order
    of rows with equal values open; here they keep their order. *)
Definition desc_leb (x y : fnum Q) : bool :=
  is_nan y || (negb (is_nan x) && negb (fgtb y x)).

Definition sort_values_desc {A : Type} (by_column : A -> fnum Q) (l : list A)
  : list A :=
  sort (fun a b => desc_leb (by_column a) (by_column b)) l.

(** Line 183. *)
Definition region_data_sorted (filtered_df : DataFrame)
  : list (list keycell * fnum Q) :=
  sort_values_desc snd (region_data filtered_df).

(** Lines 395-396, and the [head(10)] of line 400. *)
Definition region_impact_df_sorted (df : DataFrame) : list ImpactRow :=
  sort_values_desc Absolute_Change (region_impact_full df).

Definition top_10 (df : DataFrame) : list ImpactRow :=
  firstn 10 (region_impact_df_sorted df).

(** Lines 355 and 358: the months from January to June 2020. *)
Definition covid_period_df (df : DataFrame) : DataFrame :=
  filter (fun r => ts_geb (Date r) (mkTimestamp 2020 1 1)
                   && ts_leb (Date r) post_covid_end) df.

Definition covid_monthly (df : DataFrame) := groupby_mean [ColDate] (covid_period_df df).

(** Lines 150-269: the regional section is skipped, with a warning, when
    no region is selected. *)
Record RegionalAnalysis : Type := mkRegionalAnalysis {
  shown_region_data : list (list keycell * fnum Q);
  shown_region_time_data : list (list keycell * fnum Q);
  shown_correlation_data : list CorrelationRow
}.

Definition regional_analysis (df : DataFrame) (selected_regions : list string)
    (time_period : Timestamp * Timestamp) (selected_area : string)
  : option RegionalAnalysis :=
  match selected_regions with
  | [] => None
  | _ :: _ =>
      let filtered_df :=
        filter_stage df selected_regions time_period selected_area in
      Some (mkRegionalAnalysis (region_data_sorted filtered_df)
              (region_time_data filtered_df)
              (correlation_data filtered_df selected_regions))
  end.

(** The order of [sort_values(ascending=False)], as a relation. *)
Definition desc_le (x y : fnum Q) : Prop := desc_leb x y = true.

(* ------------------------------------------------------------------ *)
(** ** Facts about the calendar order *)

Ltac ts_cases :=
  unfold ts_leb, ts_geb, ts_ltb, ts_eqb, ts_compare, ts_le, ts_lt in *;
  repeat match goal with
         | |- context [(?x ?= ?y)%Z] => destruct (Z.compare_spec x y)
         | H : context [(?x ?= ?y)%Z] |- _ => destruct (Z.compare_spec x y)
         end.

Lemma ts_leb_le (a b : Timestamp) : ts_leb a b = true <-> ts_le a b.
Proof. ts_cases; split; intros; try discriminate; try reflexivity; lia. Qed.

Lemma ts_ltb_lt (a b : Timestamp) : ts_ltb a b = true <-> ts_lt a b.
Proof. ts_cases; split; intros; try discriminate; try reflexivity; lia. Qed.

Lemma ts_le_refl (a : Timestamp) : ts_le a a.
Proof. unfold ts_le; lia. Qed.

Lemma ts_le_trans (a b c : Timestamp) : ts_le a b -> ts_le b c -> ts_le a c.
Proof. unfold ts_le; lia. Qed.

Lemma ts_le_total (a b : Timestamp) : ts_le a b \/ ts_le b a.
Proof. unfold ts_le; lia. Qed.

Lemma ts_lt_not_le (a b : Timestamp) : ts_lt a b <-> ~ ts_le b a.
Proof. unfold ts_le, ts_lt; lia. Qed.

Lemma ts_compare_eq (a b : Timestamp) : ts_compare a b = Eq <-> a = b.
Proof.
  destruct a as [ya ma da], b as [yb mb db]; unfold ts_compare; simpl.
  split.
  - destruct (Z.compare_spec ya yb); try discriminate.
    destruct (Z.compare_spec ma mb); try discriminate.
    destruct (Z.compare_spec da db); try discriminate.
    intros _; congruence.
  - intros [= -> -> ->]. now rewrite !Z.compare_refl.
Qed.

Lemma ts_compare_antisym (a b : Timestamp) :
  ts_compare a b = CompOpp (ts_compare b a).
Proof.
  unfold ts_compare.
  rewrite (Z.compare_antisym (year a)), (Z.compare_antisym (month a)),
    (Z.compare_antisym (day a)).
  destruct (year a ?= year b)%Z, (month a ?= month b)%Z, (day a ?= day b)%Z;
    reflexivity.
Qed.

(* ------------------------------------------------------------------ *)
(** ** Facts about lists, [unique] and [sort] *)

Lemma filter_all {A : Type} (f : A -> bool) (l : list A) :
  (forall x, In x l -> f x = true) -> filter f l = l.
Proof.
  induction l as [|x l IH]; simpl; intros H; [reflexivity|].
  rewrite (H x (or_introl eq_refl)), IH; auto.
Qed.

Lemma filter_none {A : Type} (f : A -> bool) (l : list A) :
  (forall x, In x l -> f x = false) -> filter f l = [].
Proof.
  induction l as [|x l IH]; simpl; intros H; [reflexivity|].
  rewrite (H x (or_introl eq_refl)), IH; auto.
Qed.

Lemma filter_filter {A : Type} (f g : A -> bool) (l : list A) :
  filter g (filter f l) = filter (fun x => f x && g x) l.
Proof.
  induction l as [|x l IH]; simpl; [reflexivity|].
  destruct (f x); simpl; [destruct (g x)|]; now rewrite IH.
Qed.

Section UniqueFacts.
Context {A : Type} (eqb : A -> A -> bool).
Hypothesis eqb_eq : forall x y, eqb x y = true <-> x = y.

Lemma In_unique (l : list A) (x : A) : In x (unique eqb l) <-> In x l.
Proof.
  induction l as [|h t IH]; simpl; [tauto|].
  rewrite filter_In, IH. split.
  - intros [->|[H _]]; auto.
  - intros [->|H]; auto.
    destruct (eqb h x) eqn:E.
    + apply eqb_eq in E. auto.
    + right. split; auto.
Qed.

Lemma NoDup_unique (l : list A) : NoDup (unique eqb l).
Proof.
  induction l as [|h t IH]; simpl; constructor.
  - rewrite filter_In. intros [_ H].
    assert (E : eqb h h = true) by now apply eqb_eq.
    now rewrite E in H.
  - now apply NoDup_filter.
Qed.

End UniqueFacts.

Section SortFacts.
Context {A : Type} (leb : A -> A -> bool).

Lemma insert_sorted_perm (x : A) (l : list A) :
  Permutation (x :: l) (insert_sorted leb x l).
Proof.
  induction l as [|h t IH]; simpl; [constructor; constructor|].
  destruct (leb x h); [apply Permutation_refl|].
  eapply perm_trans; [apply perm_swap|]. now constructor.
Qed.

Lemma sort_perm (l : list A) : Permutation l (sort leb l).
Proof.
  induction l as [|x l IH]; simpl; [constructor|].
  eapply perm_trans; [|apply insert_sorted_perm]. now constructor.
Qed.

Lemma In_sort (l : list A) (x : A) : In x (sort leb l) <-> In x l.
Proof.
  split; apply Permutation_in;
    [apply Permutation_sym|]; apply sort_perm.
Qed.

Hypothesis leb_total : forall x y, leb x y = true \/ leb y x = true.

Lemma insert_sorted_Sorted (x : A) (l : list A) :
  Sorted (fun a b => leb a b = true) l ->
  Sorted (fun a b => leb a b = true) (insert_sorted leb x l).
Proof.
  induction l as [|h t IH]; simpl; intros HS.
  - repeat constructor.
  - destruct (leb x h) eqn:E.
    + constructor; [assumption|]. now constructor.
    + inversion HS as [|? ? HSt Hhd]; subst.
      constructor; [now apply IH|].
      assert (Hhx : leb h x = true)
        by (destruct (leb_total x h) as [C|C]; [congruence|exact C]).
      destruct t as [|h' t']; simpl.
      * now constructor.
      * destruct (leb x h'); constructor; [assumption|].
        now inversion Hhd.
Qed.

Lemma sort_Sorted (l : list A) : Sorted (fun a b => leb a b = true) (sort leb l).
Proof.
  induction l as [|x l IH]; simpl; [constructor|].
  now apply insert_sorted_Sorted.
Qed.

End SortFacts.

Lemma unique_map_inj {A B : Type} (eqa : A -> A -> bool) (eqb : B -> B -> bool)
    (f : A -> B) (l : list A) :
  (forall x y, eqb (f x) (f y) = eqa x y) ->
  unique eqb (map f l) = map f (unique eqa l).
Proof.
  intros H. induction l as [|x l IH]; simpl; [reflexivity|].
  rewrite IH. f_equal. clear IH.
  induction (unique eqa l) as [|y u IHu]; simpl; [reflexivity|].
  rewrite H. destruct (eqa x y); simpl; now rewrite IHu.
Qed.

(* ------------------------------------------------------------------ *)
(** ** Facts about grouping keys *)

Lemma string_compare_refl (s : string) : String.compare s s = Eq.
Proof.
  pose proof (String.compare_antisym s s) as H.
  destruct (String.compare s s); simpl in H; congruence.
Qed.

Lemma cell_compare_eq (a b : keycell) : cell_compare a b = Eq <-> a = b.
Proof.
  destruct a as [s|s], b as [t|t]; simpl; split; try discriminate.
  - intros H. apply ts_compare_eq in H. now subst.
  - intros [= ->]. now apply ts_compare_eq.
  - intros H. apply String.compare_eq_iff in H. now subst.
  - intros [= ->]. apply string_compare_refl.
Qed.

Lemma cell_compare_antisym (a b : keycell) :
  cell_compare a b = CompOpp (cell_compare b a).
Proof.
  destruct a, b; simpl; auto using ts_compare_antisym, String.compare_antisym.
Qed.

Lemma key_compare_eq (a b : list keycell) : key_compare a b = Eq <-> a = b.
Proof.
  revert b; induction a as [|x a IH]; intros [|y b]; simpl;
    try (split; [discriminate|intros [=]]); [tauto|].
  destruct (cell_compare x y) eqn:E.
  - apply cell_compare_eq in E; subst. rewrite IH.
    split; [now intros ->|now intros [= ->]].
  - split; [discriminate|]. intros [= -> ->].
    assert (cell_compare y y = Eq) by now apply cell_compare_eq. congruence.
  - split; [discriminate|]. intros [= -> ->].
    assert (cell_compare y y = Eq) by now apply cell_compare_eq. congruence.
Qed.

Lemma key_compare_antisym (a b : list keycell) :
  key_compare a b = CompOpp (key_compare b a).
Proof.
  revert b; induction a as [|x a IH]; intros [|y b]; simpl; try reflexivity.
  rewrite (cell_compare_antisym x y).
  destruct (cell_compare y x); simpl; auto.
Qed.

Lemma key_eqb_eq (a b : list keycell) : key_eqb a b = true <-> a = b.
Proof.
  unfold key_eqb. rewrite <- key_compare_eq.
  destruct (key_compare a b); split; congruence.
Qed.

Lemma key_leb_total (a b : list keycell) :
  key_leb a b = true \/ key_leb b a = true.
Proof.
  unfold key_leb. rewrite (key_compare_antisym b a).
  destruct (key_compare a b); simpl; auto.
Qed.

Lemma key_leb_head_date (a b : list keycell) (s t : Timestamp) :
  head_date a = Some s -> head_date b = Some t ->
  key_leb a b = true -> ts_le s t.
Proof.
  destruct a as [|[s'|?] a]; simpl; try discriminate.
  destruct b as [|[t'|?] b]; simpl; try discriminate.
  intros [= ->] [= ->]. unfold key_leb; simpl.
  intros H. apply ts_leb_le. unfold ts_leb.
  destruct (ts_compare s t); auto; discriminate.
Qed.

Lemma Sorted_map_weaken {A B : Type} (R : A -> A -> Prop) (S : B -> B -> Prop)
    (f : A -> B) (l : list A) :
  (forall a b, In a l -> In b l -> R a b -> S (f a) (f b)) ->
  Sorted R l -> Sorted S (map f l).
Proof.
  intros HRS HS. induction HS as [|a l HSl IH Hhd]; simpl; constructor.
  - apply IH. intros; apply HRS; simpl; auto.
  - destruct Hhd as [|b l' Hab]; simpl; constructor.
    apply HRS; simpl; auto.
Qed.

(** The key tuples of the output are exactly the observed ones. *)
Lemma groupby_mean_keys (keys : list column) (df : DataFrame) :
  map fst (groupby_mean keys df)
  = sort key_leb (unique key_eqb (map (key_of keys) df)).
Proof.
  unfold groupby_mean. rewrite map_map; simpl. apply map_id.
Qed.

Lemma In_group (keys : list column) (df : DataFrame) (k : list keycell)
    (r : Observation) :
  In r (group keys df k) <-> In r df /\ key_of keys r = k.
Proof. unfold group. now rewrite filter_In, key_eqb_eq. Qed.

Lemma In_groupby_keys (keys : list column) (df : DataFrame) (k : list keycell) :
  In k (map fst (groupby_mean keys df))
  <-> exists r, In r df /\ key_of keys r = k.
Proof.
  rewrite groupby_mean_keys, In_sort, (In_unique _ key_eqb_eq), in_map_iff.
  split; intros (r & H1 & H2); exists r; auto.
Qed.

Lemma NoDup_groupby_keys (keys : list column) (df : DataFrame) :
  NoDup (map fst (groupby_mean keys df)).
Proof.
  rewrite groupby_mean_keys.
  eapply Permutation_NoDup; [apply sort_perm|].
  apply (NoDup_unique _ key_eqb_eq).
Qed.

Lemma groupby_mean_row (keys : list column) (df : DataFrame)
    (k : list keycell) (v : fnum Q) :
  In (k, v) (groupby_mean keys df) ->
  v = mean (rates (group keys df k)) /\ group keys df k <> [].
Proof.
  intros H. assert (Hk : In k (map fst (groupby_mean keys df)))
    by (apply in_map_iff; exists (k, v); auto).
  unfold groupby_mean in H. apply in_map_iff in H.
  destruct H as (k' & [= <- <-] & _). split; [reflexivity|].
  apply In_groupby_keys in Hk. destruct Hk as (r & Hr & Hkr).
  intros E. assert (Hin : In r (group keys df k')) by now apply In_group.
  now rewrite E in Hin.
Qed.

Lemma mean_nonempty (l : list Q) :
  l <> [] -> mean l = Fin (Qsum l / inject_Z (Z.of_nat (length l))).
Proof. destruct l; [congruence|reflexivity]. Qed.

Lemma rates_nonempty (df : DataFrame) : df <> [] -> rates df <> [].
Proof. destruct df; simpl; congruence. Qed.

(** C5. For any view and any list of grouping keys (one key at least),
    [groupby_mean] emits exactly one row per key tuple that occurs in
    the view; the value of a row is the arithmetic mean of the rate over
    exactly the rows of the view that carry its key tuple, a finite number
    because that group is never empty; a key tuple without rows has no
    output row; and when the first grouping key is the date, the output
    rows are in ascending date order. *)
Theorem groupby_mean_spec (keys : list column) (view : DataFrame) :
  keys <> [] ->
  (forall k, In k (map fst (groupby_mean keys view))
             <-> exists r, In r view /\ key_of keys r = k)
  /\ NoDup (map fst (groupby_mean keys view))
  /\ (forall k v, In (k, v) (groupby_mean keys view) ->
        (forall r, In r (group keys view k) <-> In r view /\ key_of keys r = k)
        /\ group keys view k <> []
        /\ v = Fin (Qsum (rates (group keys view k))
                    / inject_Z (Z.of_nat (length (rates (group keys view k))))))
  /\ (forall k, group keys view k = [] ->
        ~ In k (map fst (groupby_mean keys view)))
  /\ (forall rest, keys = ColDate :: rest ->
        Sorted date_ascending (groupby_mean keys view)).
Proof.
  intros _.
  split; [apply In_groupby_keys|].
  split; [apply NoDup_groupby_keys|].
  split; [|split].
  - intros k v H. apply groupby_mean_row in H. destruct H as [Hv Hne].
    split; [intros r; apply In_group|]. split; [assumption|].
    rewrite Hv. apply mean_nonempty. now apply rates_nonempty.
  - intros k Hempty Hin. apply In_groupby_keys in Hin.
    destruct Hin as (r & Hr & Hk).
    assert (Hin : In r (group keys view k)) by now apply In_group.
    now rewrite Hempty in Hin.
  - intros rest ->. unfold groupby_mean.
    eapply Sorted_map_weaken; [|apply sort_Sorted, key_leb_total].
    intros a b Ha Hb Hab. unfold date_ascending; simpl.
    apply In_sort, (In_unique _ key_eqb_eq), in_map_iff in Ha, Hb.
    destruct Ha as (ra & <- & _), Hb as (rb & <- & _). simpl.
    eapply key_leb_head_date; eauto; reflexivity.
Qed.

(* ------------------------------------------------------------------ *)
(** ** The filter stage *)

Lemma isin_In (x : string) (values : list string) :
  isin x values = true <-> In x values.
Proof.
  unfold isin. rewrite existsb_exists. split.
  - intros (y & Hy & E). apply String.eqb_eq in E. now subst.
  - intros H. exists x. split; [assumption|apply String.eqb_refl].
Qed.

Lemma In_all_regions (df : DataFrame) (x : string) :
  In x (all_regions df) <-> exists r, In r df /\ Region r = x.
Proof.
  unfold all_regions, sorted.
  rewrite In_sort, (In_unique _ String.eqb_eq), in_map_iff.
  split; intros (r & H1 & H2); exists r; auto.
Qed.

Lemma Date_min_le (df : DataFrame) (m : Timestamp) :
  Date_min df = Some m -> forall r, In r df -> ts_le m (Date r).
Proof.
  revert m; induction df as [|h t IH]; simpl; intros m; [discriminate|].
  destruct (Date_min t) as [m'|] eqn:E.
  - intros [= <-] r [<-|Hr].
    + destruct (ts_leb (Date h) m') eqn:L; [apply ts_le_refl|].
      destruct (ts_le_total (Date h) m') as [C|C]; [|exact C].
      apply ts_leb_le in C; congruence.
    + specialize (IH m' eq_refl r Hr).
      destruct (ts_leb (Date h) m') eqn:L; [|exact IH].
      apply ts_leb_le in L. eapply ts_le_trans; eauto.
  - intros [= <-] r [<-|Hr]; [apply ts_le_refl|].
    destruct t; [contradiction|]. simpl in E.
    destruct (Date_min t); discriminate.
Qed.

Lemma Date_max_ge (df : DataFrame) (m : Timestamp) :
  Date_max df = Some m -> forall r, In r df -> ts_le (Date r) m.
Proof.
  revert m; induction df as [|h t IH]; simpl; intros m; [discriminate|].
  destruct (Date_max t) as [m'|] eqn:E.
  - intros [= <-] r [<-|Hr].
    + destruct (ts_leb m' (Date h)) eqn:L; [apply ts_le_refl|].
      destruct (ts_le_total m' (Date h)) as [C|C]; [|exact C].
      apply ts_leb_le in C; congruence.
    + specialize (IH m' eq_refl r Hr).
      destruct (ts_leb m' (Date h)) eqn:L; [|exact IH].
      apply ts_leb_le in L. eapply ts_le_trans; eauto.
  - intros [= <-] r [<-|Hr]; [apply ts_le_refl|].
    destruct t; [contradiction|]. simpl in E.
    destruct (Date_max t); discriminate.
Qed.

Lemma default_time_period_some (df : DataFrame) :
  df <> [] -> exists lo hi, default_time_period df = Some (lo, hi).
Proof.
  destruct df as [|h t]; [congruence|]. intros _.
  unfold default_time_period; simpl.
  destruct (Date_min t), (Date_max t); eauto.
Qed.

(** The filter stage as one selection over the rows of the frame. *)
Lemma filter_stage_filter (df : DataFrame) (selected_regions : list string)
    (time_period : Timestamp * Timestamp) (selected_area : string) :
  filter_stage df selected_regions time_period selected_area
  = filter (fun r => isin (Region r) selected_regions
                     && (ts_leb (fst time_period) (Date r)
                         && ts_leb (Date r) (snd time_period))
                     && (String.eqb selected_area "Both"
                         || String.eqb (Area r) selected_area)) df.
Proof.
  unfold filter_stage, ts_geb. rewrite !filter_filter.
  destruct (String.eqb selected_area "Both"); simpl.
  - apply filter_ext. intros r. now rewrite andb_true_r.
  - apply filter_ext. intros r. now rewrite andb_assoc.
Qed.

Lemma groupby_mean_nil (keys : list column) : groupby_mean keys [] = [].
Proof. reflexivity. Qed.

(** C3. The filter stage keeps, in their order, exactly the rows of the
    selected regions and area whose date [d] has [start <= d] and
    [d <= stop], both bounds included; when [stop < start] the view is
    empty, so are the grouped aggregates computed from it, and the
    correlations computed from it are not-a-number.  The stage is a
    total function: no input makes it fail. *)
Theorem filter_stage_date_range (df : DataFrame) (selected_regions : list string)
    (start stop : Timestamp) (selected_area : string) :
  filter_stage df selected_regions (start, stop) selected_area
  = filter (fun r => isin (Region r) selected_regions
                     && (ts_leb start (Date r) && ts_leb (Date r) stop)
                     && (String.eqb selected_area "Both"
                         || String.eqb (Area r) selected_area)) df
  /\ (forall r,
        In r (filter_stage df selected_regions (start, stop) selected_area)
        <-> In r df /\ In (Region r) selected_regions
            /\ (ts_le start (Date r) /\ ts_le (Date r) stop)
            /\ (selected_area = "Both"%string \/ Area r = selected_area))
  /\ (forall r, In r df -> In (Region r) selected_regions ->
        (selected_area = "Both"%string \/ Area r = selected_area) ->
        (Date r = start \/ Date r = stop) -> ts_le start stop ->
        In r (filter_stage df selected_regions (start, stop) selected_area))
  /\ (ts_lt stop start ->
        filter_stage df selected_regions (start, stop) selected_area = []
        /\ region_data
             (filter_stage df selected_regions (start, stop) selected_area) = []
        /\ region_time_data
             (filter_stage df selected_regions (start, stop) selected_area) = []
        /\ (forall row,
              In row (correlation_data
                        (filter_stage df selected_regions (start, stop)
                           selected_area) selected_regions) ->
              Correlation_with_Employment row = NaN
              /\ Correlation_with_Labor_Participation row = NaN)).
Proof.
  assert (Hin : forall r,
        In r (filter_stage df selected_regions (start, stop) selected_area)
        <-> In r df /\ In (Region r) selected_regions
            /\ (ts_le start (Date r) /\ ts_le (Date r) stop)
            /\ (selected_area = "Both"%string \/ Area r = selected_area)).
  { intros r. rewrite filter_stage_filter, filter_In; simpl.
    rewrite !andb_true_iff, orb_true_iff, isin_In, !ts_leb_le, !String.eqb_eq.
    tauto. }
  split; [apply (filter_stage_filter df selected_regions (start, stop))|].
  split; [exact Hin|]. split.
  - intros r Hr Hreg Harea Hd Hle. apply Hin. repeat split; auto.
    + destruct Hd as [->| ->]; [apply ts_le_refl|assumption].
    + destruct Hd as [->| ->]; [assumption|apply ts_le_refl].
  - intros Hlt.
    assert (E : filter_stage df selected_regions (start, stop) selected_area = []).
    { rewrite filter_stage_filter. apply filter_none. intros r _; simpl.
      destruct (ts_leb start (Date r)) eqn:L1; [|now rewrite andb_false_r].
      destruct (ts_leb (Date r) stop) eqn:L2; [|now rewrite andb_false_r].
      exfalso. apply ts_leb_le in L1, L2.
      apply ts_lt_not_le in Hlt. apply Hlt. eapply ts_le_trans; eauto. }
    rewrite E. split; [reflexivity|]. split; [reflexivity|].
    split; [reflexivity|].
    intros row Hrow. unfold correlation_data in Hrow.
    apply in_map_iff in Hrow. destruct Hrow as (region & <- & _).
    split; reflexivity.
Qed.

(** *** The filter stage on rows with missing cells *)

Lemma text_cell_eqb_eq (a b : option string) :
  text_cell_eqb a b = true <-> a = b.
Proof.
  destruct a as [s|], b as [t|]; simpl; try (split; congruence).
  rewrite String.eqb_eq. split; congruence.
Qed.

Lemma In_all_regions_raw (df : RawFrame) (x : string) :
  In x (all_regions_raw df) <-> exists r, In r df /\ str (Region_cell r) = x.
Proof.
  unfold all_regions_raw, sorted. rewrite In_sort, in_map_iff. split.
  - intros (c & <- & Hc).
    apply (In_unique _ text_cell_eqb_eq), in_map_iff in Hc.
    destruct Hc as (r & <- & Hr). eauto.
  - intros (r & Hr & <-). exists (Region_cell r). split; [reflexivity|].
    apply (In_unique _ text_cell_eqb_eq), in_map. exact Hr.
Qed.

Lemma Date_min_raw_le (df : RawFrame) (m : Timestamp) :
  Date_min_raw df = Some m ->
  forall r d, In r df -> Date_cell r = Some d -> ts_le m d.
Proof.
  revert m; induction df as [|h t IH]; simpl; intros m; [discriminate|].
  destruct (Date_cell h) as [dh|] eqn:Eh.
  - destruct (Date_min_raw t) as [m'|] eqn:E.
    + intros [= <-] r d [<-|Hr] Hd.
      * rewrite Eh in Hd. injection Hd as <-.
        destruct (ts_leb dh m') eqn:L; [apply ts_le_refl|].
        destruct (ts_le_total dh m') as [C|C]; [|exact C].
        apply ts_leb_le in C; congruence.
      * specialize (IH m' eq_refl r d Hr Hd).
        destruct (ts_leb dh m') eqn:L; [|exact IH].
        apply ts_leb_le in L. eapply ts_le_trans; eauto.
    + intros [= <-] r d [<-|Hr] Hd.
      * rewrite Eh in Hd. injection Hd as <-. apply ts_le_refl.
      * exfalso. clear IH. induction t as [|h' t IHt]; [contradiction|].
        simpl in E. destruct Hr as [<-|Hr].
        -- rewrite Hd in E. destruct (Date_min_raw t); discriminate.
        -- destruct (Date_cell h'); [destruct (Date_min_raw t); discriminate|].
           auto.
  - intros Hm r d [<-|Hr] Hd; [congruence|]. eapply IH; eauto.
Qed.

Lemma Date_max_raw_ge (df : RawFrame) (m : Timestamp) :
  Date_max_raw df = Some m ->
  forall r d, In r df -> Date_cell r = Some d -> ts_le d m.
Proof.
  revert m; induction df as [|h t IH]; simpl; intros m; [discriminate|].
  destruct (Date_cell h) as [dh|] eqn:Eh.
  - destruct (Date_max_raw t) as [m'|] eqn:E.
    + intros [= <-] r d [<-|Hr] Hd.
      * rewrite Eh in Hd. injection Hd as <-.
        destruct (ts_leb m' dh) eqn:L; [apply ts_le_refl|].
        destruct (ts_le_total m' dh) as [C|C]; [|exact C].
        apply ts_leb_le in C; congruence.
      * specialize (IH m' eq_refl r d Hr Hd).
        destruct (ts_leb m' dh) eqn:L; [|exact IH].
        apply ts_leb_le in L. eapply ts_le_trans; eauto.
    + intros [= <-] r d [<-|Hr] Hd.
      * rewrite Eh in Hd. injection Hd as <-. apply ts_le_refl.
      * exfalso. clear IH. induction t as [|h' t IHt]; [contradiction|].
        simpl in E. destruct Hr as [<-|Hr].
        -- rewrite Hd in E. destruct (Date_max_raw t); discriminate.
        -- destruct (Date_cell h'); [destruct (Date_max_raw t); discriminate|].
           auto.
  - intros Hm r d [<-|Hr] Hd; [congruence|]. eapply IH; eauto.
Qed.

Lemma Date_min_raw_some (df : RawFrame) (r : RawObservation) (d : Timestamp) :
  In r df -> Date_cell r = Some d -> exists m, Date_min_raw df = Some m.
Proof.
  induction df as [|h t IH]; simpl; [contradiction|].
  intros [<-|Hr] Hd.
  - rewrite Hd. destruct (Date_min_raw t); eauto.
  - destruct (IH Hr Hd) as (m & ->). destruct (Date_cell h); eauto.
Qed.

Lemma Date_max_raw_some (df : RawFrame) (r : RawObservation) (d : Timestamp) :
  In r df -> Date_cell r = Some d -> exists m, Date_max_raw df = Some m.
Proof.
  induction df as [|h t IH]; simpl; [contradiction|].
  intros [<-|Hr] Hd.
  - rewrite Hd. destruct (Date_max_raw t); eauto.
  - destruct (IH Hr Hd) as (m & ->). destruct (Date_cell h); eauto.
Qed.

Lemma Date_min_raw_complete (df : DataFrame) :
  Date_min_raw (map complete df) = Date_min df.
Proof.
  induction df as [|r t IH]; simpl; [reflexivity|]. now rewrite IH.
Qed.

Lemma Date_max_raw_complete (df : DataFrame) :
  Date_max_raw (map complete df) = Date_max df.
Proof.
  induction df as [|r t IH]; simpl; [reflexivity|]. now rewrite IH.
Qed.

Lemma filter_map_complete (p : RawObservation -> bool) (df : DataFrame) :
  filter p (map complete df) = map complete (filter (fun r => p (complete r)) df).
Proof.
  induction df as [|r t IH]; simpl; [reflexivity|].
  destruct (p (complete r)); simpl; now rewrite IH.
Qed.

Lemma filter_stage_raw_filter (df : RawFrame) (selected_regions : list string)
    (time_period : Timestamp * Timestamp) :
  filter_stage_raw df selected_regions time_period "Both"
  = filter (fun r => isin_cell (Region_cell r) selected_regions
                     && date_cell_between (Date_cell r)
                          (fst time_period) (snd time_period)) df.
Proof.
  unfold filter_stage_raw. simpl. now rewrite filter_filter.
Qed.

(** C4, as stated, fails.  A frame that holds the row of a blank line is
    not empty; its region options are A and the text nan, its full date
    range is the single date of the other row, and with these and
    ['Both'] the stage returns one row, not the frame: the blank row
    fails the region test and both date tests. *)
Lemma filter_stage_drops_blank_row :
  let d := mkTimestamp 2019 5 31 in
  example_blank_row <> []
  /\ all_regions_raw example_blank_row = ["A"; "nan"]%string
  /\ default_time_period_raw example_blank_row = Some (d, d)
  /\ filter_stage_raw example_blank_row (all_regions_raw example_blank_row)
       (d, d) "Both"
     = [mkRawObservation (Some d) (Some "A"%string) (Some "Rural"%string)
          (Some 10) (Some 7) (Some 40)]
  /\ filter_stage_raw example_blank_row (all_regions_raw example_blank_row)
       (d, d) "Both" <> example_blank_row.
Proof.
  intros d. split; [discriminate|]. split; [reflexivity|].
  split; [reflexivity|]. split; [reflexivity|]. discriminate.
Qed.

(** C4, amended.  Run with every region option, the slider's full range
    from the earliest to the latest date and the area ['Both'], the
    filter stage returns the rows that have both a region and a date, in
    their order; so it returns the frame itself when the frame is not
    empty and no row lacks its region or its date.  With ['Both'] the
    stage never looks at the area column: its result is the region and
    date selection alone, whether the area is present or missing.  On
    rows without missing cells the region options, the full range and
    the stage are those of [all_regions], [default_time_period] and
    [filter_stage]. *)
Theorem filter_stage_raw_identity (df : RawFrame) :
  (forall lo hi,
      default_time_period_raw df = Some (lo, hi) ->
      filter_stage_raw df (all_regions_raw df) (lo, hi) "Both"
      = filter has_region_and_date df)
  /\ (df <> [] ->
      (forall r, In r df -> Region_cell r <> None /\ Date_cell r <> None) ->
      exists lo hi,
        default_time_period_raw df = Some (lo, hi)
        /\ filter_stage_raw df (all_regions_raw df) (lo, hi) "Both" = df)
  /\ (forall selected_regions time_period,
        filter_stage_raw df selected_regions time_period "Both"
        = filter (fun r => date_cell_between (Date_cell r)
                             (fst time_period) (snd time_period))
            (filter (fun r => isin_cell (Region_cell r) selected_regions) df))
  /\ (forall frame : DataFrame,
        all_regions_raw (map complete frame) = all_regions frame
        /\ default_time_period_raw (map complete frame)
           = default_time_period frame
        /\ forall selected_regions time_period selected_area,
            filter_stage_raw (map complete frame) selected_regions time_period
              selected_area
            = map complete
                (filter_stage frame selected_regions time_period selected_area)).
Proof.
  assert (Hgen : forall lo hi,
      default_time_period_raw df = Some (lo, hi) ->
      filter_stage_raw df (all_regions_raw df) (lo, hi) "Both"
      = filter has_region_and_date df).
  { intros lo hi E. unfold default_time_period_raw in E.
    destruct (Date_min_raw df) as [lo'|] eqn:Emin; [|discriminate].
    destruct (Date_max_raw df) as [hi'|] eqn:Emax; [|discriminate].
    injection E as -> ->.
    rewrite filter_stage_raw_filter. apply filter_ext_in. intros r Hr.
    unfold has_region_and_date, isin_cell, date_cell_between; simpl.
    destruct (Region_cell r) as [s|] eqn:Es; [|reflexivity].
    assert (Hs : isin s (all_regions_raw df) = true).
    { apply isin_In, In_all_regions_raw. exists r. rewrite Es. auto. }
    rewrite Hs; simpl.
    destruct (Date_cell r) as [d|] eqn:Ed; [|reflexivity].
    unfold ts_geb. apply andb_true_iff. rewrite !ts_leb_le. split.
    - eapply Date_min_raw_le; eauto.
    - eapply Date_max_raw_ge; eauto. }
  split; [exact Hgen|]. split; [|split].
  - intros Hne Hall. destruct df as [|h t]; [congruence|].
    destruct (Hall h (or_introl eq_refl)) as [_ Hd].
    destruct (Date_cell h) as [d|] eqn:Ed; [|congruence].
    destruct (Date_min_raw_some (h :: t) h d (or_introl eq_refl) Ed) as (lo & Elo).
    destruct (Date_max_raw_some (h :: t) h d (or_introl eq_refl) Ed) as (hi & Ehi).
    exists lo, hi.
    assert (E : default_time_period_raw (h :: t) = Some (lo, hi))
      by (unfold default_time_period_raw; now rewrite Elo, Ehi).
    split; [exact E|]. rewrite (Hgen lo hi E).
    apply filter_all. intros r Hr. destruct (Hall r Hr) as [H1 H2].
    unfold has_region_and_date.
    destruct (Region_cell r); [|congruence].
    destruct (Date_cell r); [reflexivity|congruence].
  - reflexivity.
  - intros frame. split; [|split].
    + unfold all_regions_raw, all_regions.
      replace (map Region_cell (map complete frame))
        with (map Some (map Region frame))
        by (rewrite !map_map; reflexivity).
      rewrite (unique_map_inj String.eqb text_cell_eqb Some) by reflexivity.
      rewrite map_map. simpl. now rewrite map_id.
    + unfold default_time_period_raw, default_time_period.
      now rewrite Date_min_raw_complete, Date_max_raw_complete.
    + intros selected_regions time_period selected_area.
      unfold filter_stage_raw, filter_stage.
      rewrite !filter_map_complete; simpl.
      destruct (negb (String.eqb selected_area "Both")); reflexivity.
Qed.

(* ------------------------------------------------------------------ *)
(** ** Covid-19 impact per region *)

Lemma In_window_rows (df : DataFrame) (region : string) (lo hi : Timestamp)
    (r : Observation) :
  In r (window_rows df region lo hi)
  <-> In r df /\ Region r = region /\ ts_le lo (Date r) /\ ts_le (Date r) hi.
Proof.
  unfold window_rows.
  rewrite filter_In, !andb_true_iff, String.eqb_eq, !ts_leb_le. tauto.
Qed.

Lemma region_rows_pre (df : DataFrame) (region : string) :
  region_rows region (pre_covid_df df)
  = window_rows df region (mkTimestamp 2019 5 1) (mkTimestamp 2020 2 29).
Proof.
  unfold region_rows, pre_covid_df, window_rows. rewrite filter_filter.
  apply filter_ext. intros r. apply andb_comm.
Qed.

Lemma region_rows_post (df : DataFrame) (region : string) :
  region_rows region (post_covid_df df)
  = window_rows df region (mkTimestamp 2020 3 1) (mkTimestamp 2020 6 30).
Proof.
  unfold region_rows, post_covid_df, window_rows. rewrite filter_filter.
  apply filter_ext. intros r. apply andb_comm.
Qed.

Lemma Qltb_lt (x y : Q) : Qltb x y = true <-> x < y.
Proof.
  unfold Qltb. rewrite negb_true_iff, <- not_true_iff_false, Qle_bool_iff.
  split; [apply Qnot_le_lt|apply Qlt_not_le].
Qed.

Lemma Qis_zero_eq (x : Q) : Qis_zero x = true <-> x == 0.
Proof. apply Qeq_bool_iff. Qed.

Lemma Qis_zero_pos (x : Q) : 0 < x -> Qis_zero x = false.
Proof.
  intros H. apply not_true_iff_false. rewrite Qis_zero_eq.
  intros E. rewrite E in H. now apply Qlt_irrefl in H.
Qed.

Lemma impact_regions (df : DataFrame) :
  map impact_Region (region_impact_full df) = unique String.eqb (map Region df).
Proof. unfold region_impact_full. rewrite map_map; simpl. apply map_id. Qed.

(** How one row of [region_impact_full] is made. *)
Lemma region_impact_full_row (df : DataFrame) (row : ImpactRow) :
  In row (region_impact_full df) ->
  In (impact_Region row) (map Region df)
  /\ Pre_Covid_Rate row
     = mean (rates (region_rows (impact_Region row) (pre_covid_df df)))
  /\ Post_Covid_Rate row
     = mean (rates (region_rows (impact_Region row) (post_covid_df df)))
  /\ Absolute_Change row = fsub (Post_Covid_Rate row) (Pre_Covid_Rate row)
  /\ Percentage_Change row
     = if fgtb (Pre_Covid_Rate row) (Fin 0)
       then fmul (fdiv (Absolute_Change row) (Pre_Covid_Rate row)) (Fin 100)
       else Fin 0.
Proof.
  unfold region_impact_full. rewrite in_map_iff.
  intros (region & <- & Hin); simpl.
  apply (proj1 (In_unique _ String.eqb_eq _ _)) in Hin.
  split; [assumption|repeat split].
Qed.

(** C1. Every region of the frame has exactly one impact row.  Its
    pre-Covid rate is the mean rate over the region's rows dated from
    2019-05-01 to 2020-02-29 and its post-Covid rate the mean over those
    dated from 2020-03-01 to 2020-06-30, both windows with their end
    dates included.  The absolute change is the post mean minus the pre
    mean.  The percentage change is the absolute change over the pre
    mean times 100 when the pre mean is greater than zero, and 0
    otherwise, also when the pre mean is not a number. *)
Theorem region_impact_full_spec (df : DataFrame) (region : string) :
  In region (map Region df) ->
  NoDup (map impact_Region (region_impact_full df))
  /\ (forall lo hi r,
        In r (window_rows df region lo hi)
        <-> In r df /\ Region r = region
            /\ ts_le lo (Date r) /\ ts_le (Date r) hi)
  /\ exists row,
      In row (region_impact_full df)
      /\ impact_Region row = region
      /\ Pre_Covid_Rate row
         = mean (rates (window_rows df region (mkTimestamp 2019 5 1)
                                              (mkTimestamp 2020 2 29)))
      /\ Post_Covid_Rate row
         = mean (rates (window_rows df region (mkTimestamp 2020 3 1)
                                              (mkTimestamp 2020 6 30)))
      /\ Absolute_Change row = fsub (Post_Covid_Rate row) (Pre_Covid_Rate row)
      /\ (forall pre post,
            Pre_Covid_Rate row = Fin pre -> Post_Covid_Rate row = Fin post ->
            Absolute_Change row = Fin (post - pre)
            /\ (0 < pre ->
                Percentage_Change row = Fin ((post - pre) / pre * 100))
            /\ (~ 0 < pre -> Percentage_Change row = Fin 0))
      /\ (fgtb (Pre_Covid_Rate row) (Fin 0) = false ->
          Percentage_Change row = Fin 0)
      /\ (fgtb (Pre_Covid_Rate row) (Fin 0) = true ->
          Percentage_Change row
          = fmul (fdiv (Absolute_Change row) (Pre_Covid_Rate row)) (Fin 100)).
Proof.
  intros Hin. split; [|split].
  - rewrite impact_regions. apply (NoDup_unique _ String.eqb_eq).
  - intros lo hi r. apply In_window_rows.
  - set (pre := mean (rates (region_rows region (pre_covid_df df)))).
    set (post := mean (rates (region_rows region (post_covid_df df)))).
    exists (mkImpactRow region pre post (fsub post pre)
              (if fgtb pre (Fin 0)
               then fmul (fdiv (fsub post pre) pre) (Fin 100) else Fin 0)).
    simpl. split.
    { unfold region_impact_full. apply in_map_iff. exists region.
      split; [reflexivity|]. now apply (In_unique _ String.eqb_eq). }
    split; [reflexivity|].
    split; [unfold pre; now rewrite region_rows_pre|].
    split; [unfold post; now rewrite region_rows_post|].
    split; [reflexivity|]. split; [|split].
    + intros p q -> ->. simpl. split; [reflexivity|]. split.
      * intros Hp. rewrite (proj2 (Qltb_lt 0 p) Hp).
        now rewrite (Qis_zero_pos p Hp).
      * intros Hp. destruct (Qltb 0 p) eqn:E; [|reflexivity].
        apply Qltb_lt in E. contradiction.
    + now intros ->.
    + now intros ->.
Qed.

Lemma region_impact_full_spec_witness :
  let df := [mkObservation (mkTimestamp 2019 5 31) "A" "Rural" 10 0 0;
             mkObservation (mkTimestamp 2020 4 30) "A" "Rural" 15 0 0] in
  In "A"%string (map Region df)
  /\ exists row, In row (region_impact_full df)
                 /\ Percentage_Change row = Fin ((15 / 1 - 10 / 1) / (10 / 1) * 100).
Proof.
  simpl. split; [auto|].
  destruct (region_impact_full_spec
              [mkObservation (mkTimestamp 2019 5 31) "A" "Rural" 10 0 0;
               mkObservation (mkTimestamp 2020 4 30) "A" "Rural" 15 0 0] "A"
              (or_introl eq_refl))
    as (_ & _ & row & Hin & _ & Hpre & Hpost & _ & Hval & _).
  exists row. split; [exact Hin|].
  destruct (Hval (10 / 1) (15 / 1) Hpre Hpost) as (_ & Hpos & _).
  apply Hpos. reflexivity.
Defined.

(* ------------------------------------------------------------------ *)
(** ** The headline percentage change *)

Lemma mean_shape (l : list Q) : mean l = NaN \/ exists q, mean l = Fin q.
Proof. destruct l; simpl; eauto. Qed.




(* ------------------------------------------------------------------ *)
(** ** [idxmax] and the most affected region *)

Lemma Qltb_ge (x y : Q) : Qltb x y = false <-> y <= x.
Proof. unfold Qltb. now rewrite negb_false_iff, Qle_bool_iff. Qed.

Ltac fnum_order :=
  intros;
  repeat match goal with
         | a : fnum Q |- _ => destruct a as [|[|]|?]
         end;
  simpl in *; try discriminate; try reflexivity;
  repeat match goal with
         | H : Qltb _ _ = true |- _ => apply Qltb_lt in H
         | H : Qltb _ _ = false |- _ => apply Qltb_ge in H
         | |- Qltb _ _ = true => apply Qltb_lt
         | |- Qltb _ _ = false => apply Qltb_ge
         end;
  try lra.

Lemma fgtb_asym (v b : fnum Q) : fgtb v b = true -> fgtb b v = false.
Proof. fnum_order. Qed.

Lemma fgtb_above (x v b : fnum Q) :
  is_nan x = false -> is_nan v = false -> is_nan b = false ->
  fgtb x v = false -> fgtb x b = true -> fgtb v b = true.
Proof. fnum_order. Qed.

Lemma fgtb_below (x v b : fnum Q) :
  is_nan x = false -> is_nan v = false -> is_nan b = false ->
  fgtb v b = true -> fgtb x b = false -> fgtb v x = true.
Proof. fnum_order. Qed.

Lemma fgtb_negtrans (x b v : fnum Q) :
  is_nan x = false -> is_nan v = false -> is_nan b = false ->
  fgtb x b = false -> fgtb b v = false -> fgtb x v = false.
Proof. fnum_order. Qed.

Lemma fgtb_irrefl (v : fnum Q) : fgtb v v = false.
Proof. fnum_order. Qed.

(** What the scan returns, for any starting position and running best:
    a value that is not missing, that nothing exceeds, and that strictly
    exceeds everything met before it. *)
Lemma idxmax_scan_spec (l : list (fnum Q)) :
  forall (i : nat) (best : option (nat * fnum Q)) (j : nat),
    (forall bi bv, best = Some (bi, bv) -> is_nan bv = false /\ (bi < i)%nat) ->
    idxmax_scan l i best = Some j ->
    exists v,
      is_nan v = false
      /\ (best = Some (j, v) \/ ((i <= j)%nat /\ nth_error l (j - i) = Some v))
      /\ (forall bi bv, best = Some (bi, bv) ->
            fgtb bv v = false /\ (bi <> j -> fgtb v bv = true))
      /\ (forall k x, nth_error l k = Some x -> is_nan x = false ->
            fgtb x v = false /\ ((i + k < j)%nat -> fgtb v x = true)).
Proof.
  induction l as [|x t IH]; intros i best j Hbest; simpl.
  - destruct best as [[bi bv]|]; simpl; [|discriminate].
    intros [= <-]. destruct (Hbest bi bv eq_refl) as [Hn Hlt].
    exists bv. split; [assumption|]. split; [now left|]. split.
    + intros ? ? [= <- <-]. split; [apply fgtb_irrefl|congruence].
    + intros [|k] y; discriminate.
  - intros Hscan. destruct (is_nan x) eqn:Hx.
    + (* a missing value is skipped *)
      destruct (IH (S i) best j) as (v & Hv & Hpos & Hb & Hl); auto.
      { intros bi bv E. destruct (Hbest bi bv E). split; [assumption|lia]. }
      exists v. split; [assumption|]. split.
      { destruct Hpos as [E|[Hle Hn]]; [now left|right].
        split; [lia|]. replace (j - i)%nat with (S (j - S i)) by lia.
        exact Hn. }
      split; [exact Hb|].
      intros [|k] y; simpl.
      * intros [= <-]. congruence.
      * intros Hk Hy. destruct (Hl k y Hk Hy) as [H1 H2].
        split; [assumption|]. intros; apply H2; lia.
    + destruct best as [[bi bv]|].
      * destruct (Hbest bi bv eq_refl) as [Hbn Hbi].
        destruct (fgtb x bv) eqn:Hgt.
        -- (* the new value takes over *)
           destruct (IH (S i) (Some (i, x)) j) as (v & Hv & Hpos & Hb & Hl);
             auto.
           { intros ? ? [= <- <-]. split; [assumption|lia]. }
           destruct (Hb i x eq_refl) as [Hxv Hxv'].
           exists v. split; [assumption|]. split.
           { right. destruct Hpos as [[= <- <-]|[Hle Hn]].
             - split; [lia|]. now rewrite Nat.sub_diag.
             - split; [lia|]. replace (j - i)%nat with (S (j - S i)) by lia.
               exact Hn. }
           split.
           { intros ? ? [= <- <-].
             assert (Hvb : fgtb v bv = true) by (apply (fgtb_above x v bv); assumption).
             split; [now apply fgtb_asym|auto]. }
           intros [|k] y; simpl.
           ++ intros [= <-] _. split; [assumption|].
              intros Hlt. apply Hxv'. lia.
           ++ intros Hk Hy. destruct (Hl k y Hk Hy) as [H1 H2].
              split; [assumption|]. intros; apply H2; lia.
        -- (* the running best stays *)
           destruct (IH (S i) (Some (bi, bv)) j) as (v & Hv & Hpos & Hb & Hl);
             auto.
           { intros ? ? [= <- <-]. split; [assumption|lia]. }
           destruct (Hb bi bv eq_refl) as [Hbv Hbv'].
           exists v. split; [assumption|]. split.
           { destruct Hpos as [E|[Hle Hn]]; [now left|right].
             split; [lia|]. replace (j - i)%nat with (S (j - S i)) by lia.
             exact Hn. }
           split; [exact Hb|].
           intros [|k] y; simpl.
           ++ intros [= <-] _. split.
              ** apply (fgtb_negtrans x bv v); assumption.
              ** intros Hlt. apply (fgtb_below x v bv); try assumption.
                 apply Hbv'. lia.
           ++ intros Hk Hy. destruct (Hl k y Hk Hy) as [H1 H2].
              split; [assumption|]. intros; apply H2; lia.
      * (* the first value met *)
        destruct (IH (S i) (Some (i, x)) j) as (v & Hv & Hpos & Hb & Hl); auto.
        { intros ? ? [= <- <-]. split; [assumption|lia]. }
        destruct (Hb i x eq_refl) as [Hxv Hxv'].
        exists v. split; [assumption|]. split.
        { right. destruct Hpos as [[= <- <-]|[Hle Hn]].
          - split; [lia|]. now rewrite Nat.sub_diag.
          - split; [lia|]. replace (j - i)%nat with (S (j - S i)) by lia.
            exact Hn. }
        split; [discriminate|].
        intros [|k] y; simpl.
        -- intros [= <-] _. split; [assumption|].
           intros Hlt. apply Hxv'. lia.
        -- intros Hk Hy. destruct (Hl k y Hk Hy) as [H1 H2].
           split; [assumption|]. intros; apply H2; lia.
Qed.

Lemma idxmax_spec (l : list (fnum Q)) (j : nat) :
  idxmax l = Some j ->
  exists v,
    is_nan v = false /\ nth_error l j = Some v
    /\ (forall k x, nth_error l k = Some x -> is_nan x = false ->
          fgtb x v = false /\ ((k < j)%nat -> fgtb v x = true)).
Proof.
  intros H. apply idxmax_scan_spec in H; [|discriminate].
  destruct H as (v & Hv & [E|[_ Hn]] & _ & Hl); [discriminate|].
  exists v. rewrite Nat.sub_0_r in Hn. auto.
Qed.

(** The scan finds a position as soon as one value is present. *)
Lemma idxmax_scan_some (l : list (fnum Q)) :
  forall (i : nat) (best : option (nat * fnum Q)),
    (best <> None \/ exists x, In x l /\ is_nan x = false) ->
    exists j, idxmax_scan l i best = Some j.
Proof.
  induction l as [|x t IH]; intros i best H; simpl.
  - destruct H as [H|(x & [] & _)].
    destruct best as [[bi bv]|]; [simpl; eauto|congruence].
  - apply IH. destruct (is_nan x) eqn:Hx.
    + destruct H as [H|(y & [<-|Hy] & Hn)]; eauto. congruence.
    + left. destruct best as [[bi bv]|]; [destruct (fgtb x bv)|]; discriminate.
Qed.

(** C2, as stated, fails: with the rows of B ahead of the rows of A, both
    regions have a change of 5 and B is chosen, although A comes first in
    the alphabet. *)
Lemma most_affected_not_alphabetical :
  region_impact example_B_first = [("B"%string, Fin 5); ("A"%string, Fin 5)]
  /\ most_affected example_B_first = Some ("B"%string, Fin 5)
  /\ String.ltb "A" "B" = true
  /\ ~ alphabetical_tie_break example_B_first.
Proof.
  split; [reflexivity|]. split; [reflexivity|]. split; [reflexivity|].
  intros H.
  specialize (H "B"%string (Fin 5) eq_refl "A"%string (Fin 5)).
  assert (C : String.leb "B" "A" = true).
  { apply H; [right; left; reflexivity|reflexivity]. }
  discriminate C.
Qed.

Lemma region_impact_regions (df : DataFrame) :
  map fst (region_impact df) = unique String.eqb (map Region df).
Proof. unfold region_impact. rewrite map_map; simpl. apply map_id. Qed.

Lemma region_impact_row (df : DataFrame) (region : string) (change : fnum Q) :
  In (region, change) (region_impact df) ->
  change
  = fsub (mean (rates (window_rows df region (mkTimestamp 2020 3 1)
                                             (mkTimestamp 2020 6 30))))
         (mean (rates (window_rows df region (mkTimestamp 2019 5 1)
                                             (mkTimestamp 2020 2 29)))).
Proof.
  unfold region_impact. rewrite in_map_iff.
  intros (r & [= <- <-] & _). now rewrite region_rows_pre, region_rows_post.
Qed.

Lemma region_impact_shape (df : DataFrame) (region : string) (change : fnum Q) :
  In (region, change) (region_impact df) ->
  change = NaN \/ exists c, change = Fin c.
Proof.
  intros H. rewrite (region_impact_row df region change H).
  destruct (mean_shape (rates (window_rows df region (mkTimestamp 2020 3 1)
                                                     (mkTimestamp 2020 6 30))))
    as [-> | [q ->]];
  destruct (mean_shape (rates (window_rows df region (mkTimestamp 2019 5 1)
                                                     (mkTimestamp 2020 2 29))))
    as [-> | [p ->]]; simpl; eauto.
Qed.

(** C2, amended.  The table of changes has one row per region, in the
    order in which the regions first occur in the frame, and the change
    of a region is its post-window mean rate minus its pre-window mean
    rate.  The most affected region is a row of that table whose change
    is a number, no smaller than the change of any other region, and
    strictly larger than the change of every region that occurs earlier
    in the frame: among tied regions the one occurring first is chosen.
    A region is chosen whenever some change is a number.  On the
    example frame with the rows of A ahead of the rows of B, both with a
    change of 5, the result is A. *)
Theorem most_affected_first_maximum (df : DataFrame) :
  map fst (region_impact df) = unique String.eqb (map Region df)
  /\ (forall region change,
        In (region, change) (region_impact df) ->
        change
        = fsub (mean (rates (window_rows df region (mkTimestamp 2020 3 1)
                                                   (mkTimestamp 2020 6 30))))
               (mean (rates (window_rows df region (mkTimestamp 2019 5 1)
                                                   (mkTimestamp 2020 2 29)))))
  /\ (forall region change,
        most_affected df = Some (region, change) ->
        exists i c,
          nth_error (region_impact df) i = Some (region, Fin c)
          /\ change = Fin c
          /\ (forall j region' c',
                nth_error (region_impact df) j = Some (region', Fin c') ->
                c' <= c /\ ((j < i)%nat -> c' < c)))
  /\ ((exists region c, In (region, Fin c) (region_impact df)) ->
      exists region c, most_affected df = Some (region, Fin c))
  /\ most_affected example_A_first = Some ("A"%string, Fin 5).
Proof.
  split; [apply region_impact_regions|].
  split; [apply region_impact_row|].
  assert (Hchosen : forall region change,
        most_affected df = Some (region, change) ->
        exists i c,
          nth_error (region_impact df) i = Some (region, Fin c)
          /\ change = Fin c
          /\ (forall j region' c',
                nth_error (region_impact df) j = Some (region', Fin c') ->
                c' <= c /\ ((j < i)%nat -> c' < c))).
  { intros region change. unfold most_affected.
    destruct (idxmax (map snd (region_impact df))) as [i|] eqn:E;
      [|discriminate].
    intros Hrow. apply idxmax_spec in E.
    destruct E as (v & Hv & Hnth & Hmax).
    rewrite nth_error_map, Hrow in Hnth. simpl in Hnth.
    injection Hnth as <-.
    destruct (region_impact_shape df region change
                (nth_error_In _ _ Hrow)) as [-> | [c ->]]; [discriminate|].
    exists i, c. split; [assumption|]. split; [reflexivity|].
    intros j region' c' Hj.
    destruct (Hmax j (Fin c')) as [H1 H2];
      [now rewrite nth_error_map, Hj|reflexivity|].
    simpl in H1, H2. split.
    - now apply Qltb_ge.
    - intros Hlt. now apply Qltb_lt, H2. }
  split; [exact Hchosen|]. split; [|reflexivity].
  intros (region & c & Hin). unfold most_affected.
  destruct (idxmax_scan_some (map snd (region_impact df)) 0 None) as [j Hj].
  { right. exists (Fin c). split; [|reflexivity].
    apply in_map_iff. exists (region, Fin c). auto. }
  unfold idxmax. rewrite Hj.
  destruct (nth_error (region_impact df) j) as [[r ch]|] eqn:Hrow.
  - destruct (Hchosen r ch) as (_ & c0 & _ & -> & _); [|eauto].
    unfold most_affected, idxmax. now rewrite Hj.
  - exfalso. apply idxmax_spec in Hj. destruct Hj as (v & _ & Hnth & _).
    rewrite nth_error_map, Hrow in Hnth. discriminate.
Qed.

Lemma most_affected_first_maximum_witness :
  exists i c,
    nth_error (region_impact example_B_first) i = Some ("B"%string, Fin c)
    /\ Fin 5 = Fin c
    /\ forall j region' c',
         nth_error (region_impact example_B_first) j = Some (region', Fin c') ->
         c' <= c /\ ((j < i)%nat -> c' < c).
Proof.
  destruct (most_affected_first_maximum example_B_first)
    as (_ & _ & Hchosen & _).
  exact (Hchosen "B"%string (Fin 5) eq_refl).
Defined.

(* ------------------------------------------------------------------ *)
(** ** Consistency of the grouped means with the overall mean *)

Lemma Qsum_map_ext {A : Type} (f g : A -> Q) (l : list A) :
  (forall x, In x l -> f x == g x) -> Qsum (map f l) == Qsum (map g l).
Proof.
  induction l as [|x l IH]; simpl; intros H; [reflexivity|].
  rewrite (H x (or_introl eq_refl)), IH; [reflexivity|auto].
Qed.

Lemma Qsum_map_plus {A : Type} (f g : A -> Q) (l : list A) :
  Qsum (map (fun x => f x + g x) l) == Qsum (map f l) + Qsum (map g l).
Proof.
  induction l as [|x l IH]; simpl; [reflexivity|]. rewrite IH. ring.
Qed.

Lemma Qsum_indicator_out (K : list (list keycell)) (k0 : list keycell) (x : Q) :
  ~ In k0 K -> Qsum (map (fun k => if key_eqb k0 k then x else 0) K) == 0.
Proof.
  induction K as [|k K IH]; simpl; intros H; [reflexivity|].
  destruct (key_eqb k0 k) eqn:E.
  - apply key_eqb_eq in E. subst k0. tauto.
  - rewrite IH; [ring|tauto].
Qed.

Lemma Qsum_indicator (K : list (list keycell)) (k0 : list keycell) (x : Q) :
  NoDup K -> In k0 K ->
  Qsum (map (fun k => if key_eqb k0 k then x else 0) K) == x.
Proof.
  induction 1 as [|k K Hk HK IH]; simpl; [tauto|]. intros Hin.
  destruct (key_eqb k0 k) eqn:E.
  - apply key_eqb_eq in E; subst k0.
    rewrite Qsum_indicator_out; [ring|assumption].
  - rewrite IH; [ring|].
    destruct Hin as [->|Hin]; [|assumption].
    assert (key_eqb k0 k0 = true) by now apply key_eqb_eq. congruence.
Qed.

(** Summing the group sums over a duplicate-free list of keys that
    covers the frame gives the sum over the frame. *)
Lemma Qsum_groups (keys : list column) (K : list (list keycell))
    (df : DataFrame) :
  NoDup K -> (forall r, In r df -> In (key_of keys r) K) ->
  Qsum (map (fun k => Qsum (rates (group keys df k))) K) == Qsum (rates df).
Proof.
  intros HK. induction df as [|r t IH]; intros Hcov.
  - simpl. clear Hcov. induction K as [|k K IHK]; simpl; [reflexivity|].
    inversion HK; subst. rewrite IHK; [ring|assumption].
  - rewrite (Qsum_map_ext _
      (fun k => (if key_eqb (key_of keys r) k
                 then Estimated_Unemployment_Rate r else 0)
                + Qsum (rates (group keys t k)))).
    + rewrite Qsum_map_plus, Qsum_indicator, IH; simpl; auto.
      * reflexivity.
      * intros; apply Hcov; simpl; auto.
      * apply Hcov; simpl; auto.
    + intros k _. unfold group; simpl.
      destruct (key_eqb (key_of keys r) k); simpl; ring.
Qed.

Lemma fsum_Fin {A : Type} (g : A -> fnum Q) (h : A -> Q) (l : list A) :
  (forall x, In x l -> g x = Fin (h x)) ->
  fsum (map g l) = Fin (Qsum (map h l)).
Proof.
  induction l as [|x l IH]; simpl; intros H; [reflexivity|].
  unfold fsum in *; simpl.
  rewrite (H x (or_introl eq_refl)), IH; [reflexivity|auto].
Qed.

Lemma inject_nat_nonzero (n : nat) :
  n <> 0%nat -> ~ inject_Z (Z.of_nat n) == 0.
Proof.
  intros Hn E. unfold Qeq in E; simpl in E. lia.
Qed.

Lemma weighted_recombination_mean (keys : list column) (df : DataFrame) :
  feq (weighted_recombination keys df) (mean (rates df)).
Proof.
  unfold weighted_recombination, groupby_mean. rewrite map_map; simpl.
  set (K := sort key_leb (unique key_eqb (map (key_of keys) df))).
  assert (HK : NoDup K).
  { eapply Permutation_NoDup; [apply sort_perm|].
    apply (NoDup_unique _ key_eqb_eq). }
  assert (Hcov : forall r, In r df -> In (key_of keys r) K).
  { intros r Hr. apply In_sort, (In_unique _ key_eqb_eq), in_map. exact Hr. }
  assert (Hne : forall k, In k K -> group keys df k <> []).
  { intros k Hk E. apply In_sort, (In_unique _ key_eqb_eq), in_map_iff in Hk.
    destruct Hk as (r & Hkr & Hr).
    assert (Hin : In r (group keys df k)) by now apply In_group.
    now rewrite E in Hin. }
  rewrite (fsum_Fin _
    (fun k => Qsum (rates (group keys df k))
              / inject_Z (Z.of_nat (length (rates (group keys df k))))
              * inject_Z (Z.of_nat (group_size keys df k)))).
  2:{ intros k Hk. rewrite mean_nonempty; [reflexivity|].
      now apply rates_nonempty, Hne. }
  assert (Hsum :
    Qsum (map (fun k => Qsum (rates (group keys df k))
                        / inject_Z (Z.of_nat (length (rates (group keys df k))))
                        * inject_Z (Z.of_nat (group_size keys df k))) K)
    == Qsum (rates df)).
  { rewrite <- (Qsum_groups keys K df HK Hcov). apply Qsum_map_ext.
    intros k Hk. unfold group_size, rates. rewrite length_map.
    field. apply inject_nat_nonzero.
    specialize (Hne k Hk). destruct (group keys df k); simpl; congruence. }
  destruct df as [|r t].
  - reflexivity.
  - remember (r :: t) as df' eqn:Edf.
    assert (Hdf : df' <> []) by (subst; discriminate).
    assert (Hn : Qis_zero (inject_Z (Z.of_nat (length df'))) = false).
    { apply not_true_iff_false. rewrite Qis_zero_eq.
      apply inject_nat_nonzero. subst; discriminate. }
    rewrite (mean_nonempty _ (rates_nonempty _ Hdf)).
    unfold fdiv. rewrite Hn. unfold feq. rewrite Hsum.
    unfold rates. now rewrite length_map.
Qed.

(** C7, as stated, fails in double precision.  With one row of rate 1 on
    the first date and seven rows of rates 5, 4, 4, 4, 4, 4, 4 on the
    second, the overall mean is 3.75 exactly, while the mean of the
    second date, 29/7, is rounded, and the recombination comes out above
    3.75. *)
Lemma weighted_recombination_f64_differs :
  PrimFloat.eqb (weighted_recombination_f64 [ColDate] example_two_dates)
                (Series_mean_f64 (rates example_two_dates)) = false
  /\ PrimFloat.ltb (Series_mean_f64 (rates example_two_dates))
                   (weighted_recombination_f64 [ColDate] example_two_dates) = true
  /\ Series_mean_f64 (rates example_two_dates) = f64_of_Q (15 # 4)
  /\ feq (mean (rates example_two_dates)) (Fin (15 # 4)).
Proof.
  repeat split; vm_compute; reflexivity.
Qed.

(** C7, amended.  In exact arithmetic, for every view, the means per
    date, each weighted by the number of rows of its date, sum to the
    total which, divided by the number of rows of the view, is the
    overall mean rate of the view; for the empty view both sides are
    not-a-number.  In particular the headline pre-Covid and post-Covid
    averages are recovered from the per-date means of their windows. *)
Theorem weighted_recombination_by_date (view : DataFrame) :
  feq (weighted_recombination [ColDate] view) (mean (rates view))
  /\ (forall date m, In (date, m) (monthly_data view) ->
        m = mean (rates (group [ColDate] view date))
        /\ group_size [ColDate] view date = length (group [ColDate] view date))
  /\ feq (weighted_recombination [ColDate] (pre_covid_df view))
         (pre_covid_avg view)
  /\ feq (weighted_recombination [ColDate] (post_covid_df view))
         (post_covid_avg view).
Proof.
  split; [apply weighted_recombination_mean|]. split.
  - intros date m H. apply groupby_mean_row in H. tauto.
  - split; apply weighted_recombination_mean.
Qed.

(* ------------------------------------------------------------------ *)
(** ** Facts about the real arithmetic of the correlation *)

Local Open Scope R_scope.

Lemma Ris_zero_true (x : R) : x = 0 -> Ris_zero x = true.
Proof. intros H. unfold Ris_zero. destruct (Req_dec_T x 0); tauto. Qed.

Lemma Ris_zero_false (x : R) : x <> 0 -> Ris_zero x = false.
Proof. intros H. unfold Ris_zero. destruct (Req_dec_T x 0); tauto. Qed.

Lemma Ris_neg_true (x : R) : x < 0 -> Ris_neg x = true.
Proof. intros H. unfold Ris_neg. destruct (Rlt_dec x 0); tauto. Qed.

Lemma Ris_neg_false (x : R) : 0 <= x -> Ris_neg x = false.
Proof. intros H. unfold Ris_neg. destruct (Rlt_dec x 0); [lra|reflexivity]. Qed.

Lemma rdiv_Fin (x y : R) : y <> 0 -> rdiv (Fin x) (Fin y) = Fin (x / y).
Proof. intros H. unfold rdiv. now rewrite (Ris_zero_false y H). Qed.

Lemma rdiv_zero_zero (x y : R) : x = 0 -> y = 0 -> rdiv (Fin x) (Fin y) = NaN.
Proof.
  intros Hx Hy. unfold rdiv.
  now rewrite (Ris_zero_true y Hy), (Ris_zero_true x Hx).
Qed.

Lemma rsqrt_Fin (x : R) : 0 <= x -> rsqrt (Fin x) = Fin (sqrt x).
Proof. intros H. unfold rsqrt. now rewrite (Ris_neg_false x H). Qed.

Lemma rclip_Fin (x : R) : -1 <= x <= 1 -> rclip (Fin x) = Fin x.
Proof.
  intros [H1 H2]. unfold rclip. f_equal.
  rewrite Rmax_left by lra. now rewrite Rmin_left by lra.
Qed.

Lemma Ris_neg_div (x y : R) :
  x <> 0 -> y <> 0 -> Ris_neg (x / y) = xorb (Ris_neg x) (Ris_neg y).
Proof.
  intros Hx Hy.
  destruct (Rlt_dec x 0) as [Hxn|Hxp], (Rlt_dec y 0) as [Hyn|Hyp].
  - rewrite (Ris_neg_true x), (Ris_neg_true y) by assumption.
    apply Ris_neg_false. apply Rlt_le.
    unfold Rdiv. replace (x * / y) with ((- x) * (- / y)) by ring.
    apply Rmult_lt_0_compat; [lra|].
    apply Ropp_0_gt_lt_contravar. now apply Rinv_lt_0_compat.
  - rewrite (Ris_neg_true x), (Ris_neg_false y) by lra.
    apply Ris_neg_true. unfold Rdiv.
    assert (0 < / y) by (apply Rinv_0_lt_compat; lra). nra.
  - rewrite (Ris_neg_false x), (Ris_neg_true y) by lra.
    apply Ris_neg_true. unfold Rdiv.
    assert (/ y < 0) by now apply Rinv_lt_0_compat. nra.
  - rewrite (Ris_neg_false x), (Ris_neg_false y) by lra.
    apply Ris_neg_false. unfold Rdiv.
    assert (0 < / y) by (apply Rinv_0_lt_compat; lra). nra.
Qed.

Lemma Rdiv_nonzero (x y : R) : x <> 0 -> y <> 0 -> x / y <> 0.
Proof.
  intros Hx Hy E. apply Hx.
  replace x with (x / y * y) by (field; assumption). rewrite E. ring.
Qed.

(** Dividing by two numbers one after the other does not depend on
    their order. *)
Lemma rdiv_rdiv_swap (c s t : fnum R) :
  rdiv (rdiv c s) t = rdiv (rdiv c t) s.
Proof.
  destruct c as [|cn|c], s as [|sn|s], t as [|tn|t]; simpl; try reflexivity;
    repeat match goal with
           | |- context [Ris_zero ?x] =>
               let E := fresh "E" in
               destruct (Req_dec_T x 0) as [E|E];
               [rewrite (Ris_zero_true x E)|rewrite (Ris_zero_false x E)];
               simpl
           end;
    try reflexivity; subst;
    try (exfalso; lra);
    try (f_equal; solve [ destruct cn; reflexivity
                        | destruct (Ris_neg s), (Ris_neg t), cn; reflexivity ]).
  all: try (f_equal; field; solve [assumption | split; assumption]).
  all: try match goal with
           | H : ?x / ?y = 0 |- _ =>
               exfalso; apply (Rdiv_nonzero x y); assumption
           end.
  all: now rewrite Ris_neg_div.
Qed.

(** *** Dot products *)

Lemma dot_cons (x y : R) (a b : list R) : dot (x :: a) (y :: b) = x * y + dot a b.
Proof. reflexivity. Qed.

Lemma dot_comm (a b : list R) : dot a b = dot b a.
Proof.
  revert b; induction a as [|x a IH]; intros [|y b]; try reflexivity.
  rewrite !dot_cons, IH. ring.
Qed.

Lemma dot_self_nonneg (a : list R) : 0 <= dot a a.
Proof.
  induction a as [|x a IH]; [unfold dot; simpl; lra|].
  rewrite dot_cons. nra.
Qed.

Lemma dot_self_zero (a b : list R) : dot a a = 0 -> dot a b = 0.
Proof.
  revert b; induction a as [|x a IH]; intros [|y b]; try reflexivity.
  rewrite !dot_cons. intros H. pose proof (dot_self_nonneg a).
  assert (x = 0) by nra. assert (dot a a = 0) by nra.
  subst x. rewrite IH by assumption. ring.
Qed.

(** The Cauchy-Schwarz inequality. *)
Lemma dot_cauchy_schwarz (a b : list R) :
  dot a b * dot a b <= dot a a * dot b b.
Proof.
  revert b; induction a as [|x a IH]; intros b.
  - replace (dot [] b) with 0 by reflexivity.
    replace (dot [] []) with 0 by reflexivity. lra.
  - destruct b as [|y b].
    + replace (dot (x :: a) []) with 0 by reflexivity.
      replace (dot [] []) with 0 by reflexivity. lra.
    + rewrite !dot_cons. specialize (IH b).
      pose proof (dot_self_nonneg a) as HA.
      pose proof (dot_self_nonneg b) as HB.
      remember (dot a b) as s eqn:Es. remember (dot a a) as A eqn:EA.
      remember (dot b b) as B eqn:EB. clear Es EA EB.
      assert (Hy : 0 <= y * y) by nra.
      assert (Hq : 2 * (x * y) * s <= x * x * B + A * (y * y)).
      { destruct (Req_dec B 0) as [HB0|HB0].
        - rewrite HB0 in *. assert (Hs : s = 0) by nra. rewrite Hs.
          assert (0 <= A * (y * y)) by now apply Rmult_le_pos.
          lra.
        - assert (HBpos : 0 < B) by lra.
          assert (Hsq : 0 <= B * (x * x * B + A * (y * y) - 2 * (x * y) * s)).
          { replace (B * (x * x * B + A * (y * y) - 2 * (x * y) * s))
              with ((B * x - s * y) * (B * x - s * y) + (A * B - s * s) * (y * y))
              by ring.
            apply Rplus_le_le_0_compat; [apply (Rle_0_sqr (B * x - s * y))|].
            apply Rmult_le_pos; [lra|assumption]. }
          assert (0 <= x * x * B + A * (y * y) - 2 * (x * y) * s).
          { apply (Rmult_le_reg_l B); [assumption|].
            now rewrite Rmult_0_r. }
          lra. }
      nra.
Qed.

Lemma length_centred (a : list R) : length (centred a) = length a.
Proof. unfold centred. apply length_map. Qed.

(** *** The normalisation *)

Lemma cov_fact_small (n : nat) : (n <= 1)%nat -> cov_fact n = 0.
Proof.
  intros H. unfold cov_fact.
  destruct (Rle_dec (INR n - 1) 0) as [_|C]; [reflexivity|].
  exfalso. apply C. apply le_INR in H. simpl in H. lra.
Qed.

Lemma cov_fact_large (n : nat) :
  (2 <= n)%nat -> cov_fact n = INR n - 1 /\ 0 < INR n - 1.
Proof.
  intros H. apply le_INR in H. simpl in H. unfold cov_fact.
  destruct (Rle_dec (INR n - 1) 0); split; try reflexivity; lra.
Qed.

Lemma centred_single (x : R) : dot (centred [x]) (centred [x]) = 0.
Proof.
  unfold centred, average, dot, Rsum; simpl. field.
Qed.

Lemma rdiv_NaN_r (c : fnum R) : rdiv c NaN = NaN.
Proof. destruct c; reflexivity. Qed.

(** *** [np.corrcoef] in the degenerate cases *)

Lemma np_corrcoef_single (a b : list R) :
  length a = 1%nat -> np_corrcoef a b = NaN.
Proof.
  intros Hlen. destruct a as [|x [|? ?]]; try discriminate.
  unfold np_corrcoef.
  assert (E : cov_entry [x] [x] = NaN).
  { unfold cov_entry. rewrite centred_single. simpl length.
    rewrite (cov_fact_small 1) by reflexivity.
    unfold rdiv. rewrite (Ris_zero_true 0), (Ris_zero_false 1) by lra.
    unfold rmul. now rewrite (Ris_zero_true 0). }
  rewrite E. simpl rsqrt. now rewrite rdiv_NaN_r.
Qed.

Lemma cov_entry_Fin (a b : list R) :
  (2 <= length a)%nat ->
  cov_entry a b = Fin (dot (centred a) (centred b) * (1 / (INR (length a) - 1))).
Proof.
  intros H. destruct (cov_fact_large _ H) as [E Hpos].
  unfold cov_entry. rewrite E, rdiv_Fin by lra. reflexivity.
Qed.

Lemma np_corrcoef_zero_variance (a b : list R) :
  (2 <= length a)%nat -> length a = length b ->
  sum_sq_dev a = 0 \/ sum_sq_dev b = 0 ->
  np_corrcoef a b = NaN.
Proof.
  intros Hn Hlen Hz. unfold np_corrcoef, sum_sq_dev in *.
  assert (Hnb : (2 <= length b)%nat) by lia.
  rewrite !cov_entry_Fin by assumption.
  destruct (cov_fact_large _ Hn) as [_ Hpos]. rewrite <- Hlen.
  set (k := 1 / (INR (length a) - 1)).
  assert (Hk : 0 < k) by (unfold k; apply Rdiv_lt_0_compat; lra).
  pose proof (dot_self_nonneg (centred a)) as HA.
  pose proof (dot_self_nonneg (centred b)) as HB.
  rewrite !rsqrt_Fin by nra.
  assert (Hab : dot (centred a) (centred b) = 0).
  { destruct Hz as [Hz|Hz]; [now apply dot_self_zero|].
    rewrite dot_comm. now apply dot_self_zero. }
  rewrite Hab.
  destruct (Req_dec (dot (centred a) (centred a)) 0) as [Ha|Ha].
  - rewrite Ha, Rmult_0_l, sqrt_0, rdiv_zero_zero by reflexivity.
    reflexivity.
  - assert (Hb : dot (centred b) (centred b) = 0) by tauto.
    assert (Hs : sqrt (dot (centred a) (centred a) * k) <> 0).
    { apply Rgt_not_eq, sqrt_lt_R0. nra. }
    rewrite rdiv_Fin by assumption.
    rewrite Hb, (Rmult_0_l k), sqrt_0, rdiv_zero_zero; try reflexivity.
    unfold Rdiv. ring.
Qed.

(** *** [np.corrcoef] in the regular case *)

Lemma pearson_bounded (a b : list R) :
  0 < dot a a -> 0 < dot b b ->
  -1 <= dot a b / (sqrt (dot a a) * sqrt (dot b b)) <= 1.
Proof.
  intros HA HB.
  pose proof (dot_cauchy_schwarz a b) as CS.
  pose proof (sqrt_lt_R0 _ HA) as Hsa. pose proof (sqrt_lt_R0 _ HB) as Hsb.
  pose proof (sqrt_sqrt (dot a a) (Rlt_le _ _ HA)) as Ea.
  pose proof (sqrt_sqrt (dot b b) (Rlt_le _ _ HB)) as Eb.
  set (d := sqrt (dot a a) * sqrt (dot b b)) in *.
  assert (Hd : 0 < d) by (unfold d; nra).
  assert (Hdd : d * d = dot a a * dot b b) by (unfold d; nra).
  assert (Hs : - d <= dot a b <= d) by nra.
  assert (Hi : 0 < / d) by now apply Rinv_0_lt_compat.
  assert (Hone : d * / d = 1) by (apply Rinv_r; lra).
  unfold Rdiv. split; nra.
Qed.

Lemma np_corrcoef_pearson (a b : list R) :
  (2 <= length a)%nat -> length a = length b ->
  sum_sq_dev a <> 0 -> sum_sq_dev b <> 0 ->
  np_corrcoef a b = Fin (pearson a b).
Proof.
  intros Hn Hlen Ha Hb. unfold np_corrcoef, pearson, sum_sq_dev in *.
  assert (Hnb : (2 <= length b)%nat) by lia.
  rewrite !cov_entry_Fin by assumption.
  destruct (cov_fact_large _ Hn) as [_ Hpos]. rewrite <- Hlen.
  set (k := 1 / (INR (length a) - 1)).
  assert (Hk : 0 < k) by (unfold k; apply Rdiv_lt_0_compat; lra).
  pose proof (dot_self_nonneg (centred a)) as HA.
  pose proof (dot_self_nonneg (centred b)) as HB.
  set (A := dot (centred a) (centred a)) in *.
  set (B := dot (centred b) (centred b)) in *.
  set (s := dot (centred a) (centred b)).
  assert (HA' : 0 < A) by lra. assert (HB' : 0 < B) by lra.
  rewrite !rsqrt_Fin by nra.
  rewrite !sqrt_mult by lra.
  pose proof (sqrt_lt_R0 _ HA') as Hsa. pose proof (sqrt_lt_R0 _ HB') as Hsb.
  pose proof (sqrt_lt_R0 _ Hk) as Hsk.
  pose proof (sqrt_sqrt k (Rlt_le _ _ Hk)) as Ek.
  rewrite !rdiv_Fin by nra.
  replace (s * k / (sqrt A * sqrt k) / (sqrt B * sqrt k))
    with (s / (sqrt A * sqrt B)).
  - apply rclip_Fin. apply pearson_bounded; assumption.
  - rewrite <- Ek at 1. field. repeat split; lra.
Qed.

(** *** [Series.corr] *)

Lemma sample_variance_zero (x : list R) :
  (2 <= length x)%nat -> (sample_variance x = 0 <-> sum_sq_dev x = 0).
Proof.
  intros H. destruct (cov_fact_large _ H) as [_ Hpos].
  unfold sample_variance. split; intros E.
  - replace (sum_sq_dev x)
      with (sum_sq_dev x / (INR (length x) - 1) * (INR (length x) - 1))
      by (field; lra).
    rewrite E. ring.
  - rewrite E. unfold Rdiv. ring.
Qed.

Lemma Series_corr_spec (a b : list Q) :
  length a = length b ->
  (((length a < 2)%nat
    \/ sample_variance (map Q2R a) = 0 \/ sample_variance (map Q2R b) = 0) ->
   Series_corr a b = NaN)
  /\ ((2 <= length a)%nat ->
      sample_variance (map Q2R a) <> 0 -> sample_variance (map Q2R b) <> 0 ->
      Series_corr a b = Fin (pearson (map Q2R a) (map Q2R b))).
Proof.
  intros Hlen.
  assert (Hla : length (map Q2R a) = length a) by apply length_map.
  assert (Hlb : length (map Q2R b) = length b) by apply length_map.
  split.
  - intros Hdeg. destruct a as [|x a]; [reflexivity|].
    unfold Series_corr.
    destruct (Nat.le_gt_cases 2 (length (x :: a))) as [Hn|Hn].
    + apply np_corrcoef_zero_variance; [lia|lia|].
      destruct Hdeg as [Hd|[Hd|Hd]]; [lia|left|right];
        apply sample_variance_zero in Hd; auto; lia.
    + apply np_corrcoef_single. simpl in *. lia.
  - intros Hn Ha Hb. destruct a as [|x a]; [simpl in Hn; lia|].
    unfold Series_corr.
    apply np_corrcoef_pearson; [lia|lia| |].
    + intros E. apply Ha. apply sample_variance_zero; [lia|assumption].
    + intros E. apply Hb. apply sample_variance_zero; [lia|assumption].
Qed.

Lemma cov_entry_sym (a b : list R) :
  length a = length b -> cov_entry a b = cov_entry b a.
Proof.
  intros H. unfold cov_entry. now rewrite H, dot_comm.
Qed.

Lemma np_corrcoef_sym (a b : list R) :
  length a = length b -> np_corrcoef a b = np_corrcoef b a.
Proof.
  intros H. unfold np_corrcoef.
  now rewrite (cov_entry_sym a b H), rdiv_rdiv_swap.
Qed.

Lemma Series_corr_sym (a b : list Q) :
  length a = length b -> Series_corr a b = Series_corr b a.
Proof.
  intros H. destruct a as [|x a], b as [|y b]; try discriminate;
    [reflexivity|].
  unfold Series_corr. apply np_corrcoef_sym. now rewrite !length_map.
Qed.

Lemma correlation_data_row (filtered_df : DataFrame)
    (selected_regions : list string) (row : CorrelationRow) :
  In row (correlation_data filtered_df selected_regions) ->
  In (corr_Region row) selected_regions
  /\ Correlation_with_Employment row
     = Series_corr (rates (region_rows (corr_Region row) filtered_df))
         (map Estimated_Employed (region_rows (corr_Region row) filtered_df))
  /\ Correlation_with_Labor_Participation row
     = Series_corr (rates (region_rows (corr_Region row) filtered_df))
         (map Estimated_Labour_Participation_Rate
              (region_rows (corr_Region row) filtered_df)).
Proof.
  unfold correlation_data. rewrite in_map_iff.
  intros (region & <- & Hin); simpl. auto.
Qed.

(** *** The correlation in double precision *)

(** The rounded product does not depend on the order of its factors, so
    the covariance entry is the same for both orders of the columns. *)
Lemma mul_f64_comm (x y : f64) : PrimFloat.mul x y = PrimFloat.mul y x.
Proof.
  apply FloatAxioms.Prim2SF_inj. rewrite !FloatAxioms.mul_spec.
  unfold FloatAxioms.SF64mul, SpecFloat.SFmul.
  destruct (FloatOps.Prim2SF x) as [sx|sx| |sx mx ex],
           (FloatOps.Prim2SF y) as [sy|sy| |sy my ey];
    try reflexivity; try (now rewrite xorb_comm).
  now rewrite xorb_comm, Pos.mul_comm, Z.add_comm.
Qed.

Lemma dot_f64_comm (a b : list f64) : dot_f64 a b = dot_f64 b a.
Proof.
  unfold dot_f64. f_equal. revert b.
  induction a as [|x a IH]; destruct b as [|y b]; simpl; try reflexivity.
  now rewrite IH, mul_f64_comm.
Qed.

Lemma cov_entry_f64_sym (a b : list f64) :
  length a = length b -> cov_entry_f64 a b = cov_entry_f64 b a.
Proof.
  intros H. unfold cov_entry_f64. now rewrite H, dot_f64_comm.
Qed.

(** With a single observation the normalisation of the covariance is
    [1 / 0], an infinity: every entry of the covariance matrix is
    not-a-number or an infinity, and so is its root; their quotient is
    not-a-number. *)
Lemma mul_infinity (x : f64) : nan_or_inf (PrimFloat.mul x PrimFloat.infinity).
Proof.
  unfold nan_or_inf. rewrite FloatAxioms.mul_spec.
  change (FloatOps.Prim2SF PrimFloat.infinity)
    with (SpecFloat.S754_infinity false).
  unfold FloatAxioms.SF64mul, SpecFloat.SFmul.
  destruct (FloatOps.Prim2SF x); eauto.
Qed.

Lemma sqrt_nan_or_inf (x : f64) :
  nan_or_inf x -> nan_or_inf (PrimFloat.sqrt x).
Proof.
  unfold nan_or_inf. rewrite FloatAxioms.sqrt_spec.
  intros [->|[s ->]]; [now left|]. destruct s; simpl; eauto.
Qed.

Lemma div_nan_or_inf (x y : f64) :
  nan_or_inf x -> nan_or_inf y ->
  FloatOps.Prim2SF (PrimFloat.div x y) = SpecFloat.S754_nan.
Proof.
  unfold nan_or_inf. rewrite FloatAxioms.div_spec.
  intros [->|[s ->]] [->|[t ->]]; reflexivity.
Qed.

Lemma div_nan_l (x y : f64) :
  FloatOps.Prim2SF x = SpecFloat.S754_nan ->
  FloatOps.Prim2SF (PrimFloat.div x y) = SpecFloat.S754_nan.
Proof.
  rewrite FloatAxioms.div_spec. intros ->. reflexivity.
Qed.

Lemma clip_f64_nan (x : f64) :
  FloatOps.Prim2SF x = SpecFloat.S754_nan ->
  FloatOps.Prim2SF (clip_f64 x) = SpecFloat.S754_nan.
Proof.
  intros H. unfold clip_f64. rewrite !FloatAxioms.ltb_spec, H.
  simpl. destruct (FloatOps.Prim2SF PrimFloat.one); exact H.
Qed.

Lemma np_corrcoef_f64_single (x y : f64) :
  FloatOps.Prim2SF (np_corrcoef_f64 [x] [y]) = SpecFloat.S754_nan.
Proof.
  unfold np_corrcoef_f64. apply clip_f64_nan, div_nan_l, div_nan_or_inf.
  - unfold cov_entry_f64. apply mul_infinity.
  - apply sqrt_nan_or_inf. unfold cov_entry_f64. apply mul_infinity.
Qed.

Lemma Prim2SF_nan_is_nan (x : f64) :
  FloatOps.Prim2SF x = SpecFloat.S754_nan -> PrimFloat.is_nan x = true.
Proof.
  intros H. unfold PrimFloat.is_nan. now rewrite FloatAxioms.eqb_spec, H.
Qed.

Lemma Series_corr_f64_few (a b : list Q) :
  (length a < 2)%nat -> length a = length b ->
  PrimFloat.is_nan (Series_corr_f64 a b) = true.
Proof.
  intros Hn Hlen. destruct a as [|x [|? ?]]; [reflexivity| |simpl in Hn; lia].
  destruct b as [|y [|? ?]]; try discriminate.
  apply Prim2SF_nan_is_nan, np_corrcoef_f64_single.
Qed.

Lemma Series_corr_f64_orders (a b : list Q) :
  a <> [] -> length a = length b ->
  let x := map f64_of_Q a in
  let y := map f64_of_Q b in
  let c := cov_entry_f64 x y in
  let sx := PrimFloat.sqrt (cov_entry_f64 x x) in
  let sy := PrimFloat.sqrt (cov_entry_f64 y y) in
  Series_corr_f64 a b = clip_f64 (PrimFloat.div (PrimFloat.div c sx) sy)
  /\ Series_corr_f64 b a = clip_f64 (PrimFloat.div (PrimFloat.div c sy) sx).
Proof.
  intros Ha Hlen x y c sx sy.
  destruct a as [|u a]; [congruence|]. destruct b as [|v b]; [discriminate|].
  split; [reflexivity|].
  unfold Series_corr_f64, np_corrcoef_f64.
  fold x y. rewrite (cov_entry_f64_sym y x); [reflexivity|].
  unfold x, y. now rewrite !length_map.
Qed.

(** C6, as stated, fails in double precision.  Three rows of one region
    with the rate 0.1 have zero variance in the rate, yet the correlation
    with the employed counts 1, 2, 4 is a number strictly between 0 and
    1, not not-a-number: the mean of the three rates is rounded to a
    double above 0.1, so the centred rates are not zero. *)
Lemma constant_rate_correlation_is_finite :
  let region_df := region_rows "A" example_constant_rate in
  sample_variance (map Q2R (rates region_df)) = 0
  /\ exists row,
       correlation_data_f64 example_constant_rate ["A"%string] = [row]
       /\ PrimFloat.is_nan (Correlation_with_Employment_f64 row) = false
       /\ PrimFloat.ltb PrimFloat.zero (Correlation_with_Employment_f64 row) = true
       /\ PrimFloat.ltb (Correlation_with_Employment_f64 row) PrimFloat.one = true
       /\ PrimFloat.ltb (f64_of_Q (1 # 10)) (Series_mean_f64 (rates region_df)) = true.
Proof.
  intros region_df. split.
  - change region_df with example_constant_rate.
    unfold sample_variance, sum_sq_dev, dot, centred, average, Rsum,
      example_constant_rate, rates.
    cbn [map combine fold_right length fst snd Estimated_Unemployment_Rate].
    cbn [INR]. unfold Q2R. cbn [Qnum Qden]. field.
  - eexists. split; [reflexivity|]. repeat split; vm_compute; reflexivity.
Qed.

(** C6, amended.  The correlation table has one row per selected region,
    whatever the view holds.  In exact arithmetic: for a region with
    fewer than two rows in the view, or whose rate or whose other
    variable has zero sample variance there, the correlation is
    not-a-number; for every other region it is Pearson's sample
    correlation coefficient of the two columns.  In double precision:
    the table has one row per selected region as well, and for a region
    with fewer than two rows in the view both correlations are
    not-a-number.  This holds for the correlation with the employed
    count and for the one with the labour participation rate. *)
Theorem correlation_data_spec (filtered_df : DataFrame)
    (selected_regions : list string) :
  map corr_Region (correlation_data filtered_df selected_regions)
  = selected_regions
  /\ (forall row,
      In row (correlation_data filtered_df selected_regions) ->
      let region_df := region_rows (corr_Region row) filtered_df in
      let rate := map Q2R (rates region_df) in
      let employed := map Q2R (map Estimated_Employed region_df) in
      let labour :=
        map Q2R (map Estimated_Labour_Participation_Rate region_df) in
      (((length region_df < 2)%nat
        \/ sample_variance rate = 0 \/ sample_variance employed = 0) ->
       Correlation_with_Employment row = NaN)
      /\ ((2 <= length region_df)%nat ->
          sample_variance rate <> 0 -> sample_variance employed <> 0 ->
          Correlation_with_Employment row = Fin (pearson rate employed))
      /\ (((length region_df < 2)%nat
           \/ sample_variance rate = 0 \/ sample_variance labour = 0) ->
          Correlation_with_Labor_Participation row = NaN)
      /\ ((2 <= length region_df)%nat ->
          sample_variance rate <> 0 -> sample_variance labour <> 0 ->
          Correlation_with_Labor_Participation row = Fin (pearson rate labour)))
  /\ map corr_Region_f64 (correlation_data_f64 filtered_df selected_regions)
     = selected_regions
  /\ (forall row,
        In row (correlation_data_f64 filtered_df selected_regions) ->
        (length (region_rows (corr_Region_f64 row) filtered_df) < 2)%nat ->
        PrimFloat.is_nan (Correlation_with_Employment_f64 row) = true
        /\ PrimFloat.is_nan (Correlation_with_Labor_Participation_f64 row) = true).
Proof.
  split; [|split; [|split]].
  - unfold correlation_data. rewrite map_map; simpl. apply map_id.
  - intros row Hrow region_df rate employed labour.
    destruct (correlation_data_row _ _ _ Hrow) as (_ & He & Hl).
    fold region_df in He, Hl.
    assert (Hr : length (rates region_df) = length region_df)
      by apply length_map.
    destruct (Series_corr_spec (rates region_df)
                (map Estimated_Employed region_df)) as [He1 He2];
      [now rewrite !length_map|].
    destruct (Series_corr_spec (rates region_df)
                (map Estimated_Labour_Participation_Rate region_df))
      as [Hl1 Hl2]; [now rewrite !length_map|].
    rewrite Hr in He1, He2, Hl1, Hl2. rewrite He, Hl. tauto.
  - unfold correlation_data_f64. rewrite map_map; simpl. apply map_id.
  - intros row Hrow Hn. unfold correlation_data_f64 in Hrow.
    apply in_map_iff in Hrow. destruct Hrow as (region & <- & _).
    simpl in *. unfold rates.
    split; apply Series_corr_f64_few; rewrite !length_map; auto.
Qed.


Ltac real_columns :=
  unfold sample_variance, sum_sq_dev, dot, centred, average, Rsum;
  cbn [map combine fold_right length fst snd INR];
  unfold Q2R; cbn [Qnum Qden].

Lemma example_regions_A :
  region_rows "A" example_regions
  = [mkObservation (mkTimestamp 2019 5 31) "A" "Rural" 1 2 3;
     mkObservation (mkTimestamp 2019 6 30) "A" "Rural" 2 4 2;
     mkObservation (mkTimestamp 2019 7 31) "A" "Rural" 3 6 1].
Proof. reflexivity. Qed.

Lemma example_regions_B :
  region_rows "B" example_regions
  = [mkObservation (mkTimestamp 2019 5 31) "B" "Rural" 5 1 40;
     mkObservation (mkTimestamp 2019 6 30) "B" "Rural" 5 2 41].
Proof. reflexivity. Qed.

Lemma example_sum_sq_dev :
  let a := region_rows "A" example_regions in
  let b := region_rows "B" example_regions in
  sum_sq_dev (map Q2R (rates a)) = 2
  /\ sum_sq_dev (map Q2R (map Estimated_Employed a)) = 8
  /\ sum_sq_dev (map Q2R (map Estimated_Labour_Participation_Rate a)) = 2
  /\ dot (centred (map Q2R (rates a)))
         (centred (map Q2R (map Estimated_Employed a))) = 4
  /\ dot (centred (map Q2R (rates a)))
         (centred (map Q2R (map Estimated_Labour_Participation_Rate a))) = -2
  /\ sum_sq_dev (map Q2R (rates b)) = 0.
Proof.
  intros a b. unfold a, b. rewrite example_regions_A, example_regions_B.
  unfold rates.
  cbn [map Estimated_Unemployment_Rate Estimated_Employed
       Estimated_Labour_Participation_Rate].
  repeat split; real_columns; field.
Qed.

Lemma example_pearson :
  let a := region_rows "A" example_regions in
  pearson (map Q2R (rates a)) (map Q2R (map Estimated_Employed a)) = 1
  /\ pearson (map Q2R (rates a))
       (map Q2R (map Estimated_Labour_Participation_Rate a)) = -1.
Proof.
  intros a. destruct example_sum_sq_dev as (E1 & E2 & E3 & E4 & E5 & _).
  fold a in E1, E2, E3, E4, E5.
  unfold pearson. rewrite E1, E2, E3, E4, E5. split.
  - rewrite <- sqrt_mult by lra.
    replace (2 * 8) with (4 * 4) by lra. rewrite sqrt_square by lra. field.
  - rewrite <- sqrt_mult by lra. rewrite sqrt_square by lra. field.
Qed.

Lemma correlation_data_spec_witness :
  exists rowA rowB rowC,
    correlation_data example_regions ["A"; "B"; "C"]%string = [rowA; rowB; rowC]
    /\ Correlation_with_Employment rowA = Fin 1
    /\ Correlation_with_Labor_Participation rowA = Fin (-1)
    /\ Correlation_with_Employment rowB = NaN
    /\ Correlation_with_Labor_Participation rowB = NaN
    /\ Correlation_with_Employment rowC = NaN
    /\ Correlation_with_Labor_Participation rowC = NaN
    /\ correlation_data_f64 example_regions ["A"; "B"; "C"]%string
       = [mkCorrelationRow_f64 "A" PrimFloat.one (PrimFloat.opp PrimFloat.one);
          mkCorrelationRow_f64 "B" PrimFloat.nan PrimFloat.nan;
          mkCorrelationRow_f64 "C" PrimFloat.nan PrimFloat.nan].
Proof.
  destruct (correlation_data_spec example_regions ["A"; "B"; "C"]%string)
    as (_ & H & _).
  do 3 eexists. split; [reflexivity|].
  destruct example_sum_sq_dev as (E1 & E2 & E3 & _ & _ & E6).
  destruct example_pearson as [P1 P2].
  assert (LA : length (region_rows "A" example_regions) = 3%nat)
    by reflexivity.
  assert (LB : length (region_rows "B" example_regions) = 2%nat)
    by reflexivity.
  assert (LC : length (region_rows "C" example_regions) = 1%nat)
    by reflexivity.
  assert (V : forall x : list R, (2 <= length x)%nat ->
                sample_variance x = 0 <-> sum_sq_dev x = 0)
    by apply sample_variance_zero.
  split; [|split; [|split; [|split; [|split; [|split]]]]].
  - match goal with |- Correlation_with_Employment ?row = _ =>
      destruct (H row (or_introl eq_refl)) as (_ & He & _) end.
    cbn [corr_Region] in He. rewrite <- P1. apply He.
    + rewrite LA; lia.
    + intros E. apply V in E; [|unfold rates; rewrite !length_map, LA; lia].
      rewrite E1 in E. lra.
    + intros E. apply V in E; [|rewrite !length_map, LA; lia].
      rewrite E2 in E. lra.
  - match goal with |- Correlation_with_Labor_Participation ?row = _ =>
      destruct (H row (or_introl eq_refl)) as (_ & _ & _ & Hl) end.
    cbn [corr_Region] in Hl. rewrite <- P2. apply Hl.
    + rewrite LA; lia.
    + intros E. apply V in E; [|unfold rates; rewrite !length_map, LA; lia].
      rewrite E1 in E. lra.
    + intros E. apply V in E; [|rewrite !length_map, LA; lia].
      rewrite E3 in E. lra.
  - match goal with |- Correlation_with_Employment ?row = _ =>
      destruct (H row (or_intror (or_introl eq_refl))) as (He & _) end.
    cbn [corr_Region] in He. apply He. right; left.
    apply V; [unfold rates; rewrite !length_map, LB; lia|exact E6].
  - match goal with |- Correlation_with_Labor_Participation ?row = _ =>
      destruct (H row (or_intror (or_introl eq_refl))) as (_ & _ & Hl & _) end.
    cbn [corr_Region] in Hl. apply Hl. right; left.
    apply V; [unfold rates; rewrite !length_map, LB; lia|exact E6].
  - match goal with |- Correlation_with_Employment ?row = _ =>
      destruct (H row (or_intror (or_intror (or_introl eq_refl)))) as (He & _) end.
    cbn [corr_Region] in He. apply He. left. rewrite LC; lia.
  - match goal with |- Correlation_with_Labor_Participation ?row = _ =>
      destruct (H row (or_intror (or_intror (or_introl eq_refl))))
        as (_ & _ & Hl & _) end.
    cbn [corr_Region] in Hl. apply Hl. left. rewrite LC; lia.
  - vm_compute. reflexivity.
Defined.

(** C8, as stated, fails in double precision.  For the rates 0, 0, 3 and
    the employed counts 0, 3, 9 the covariance 7.5 and the variances 3
    and 21 are exact; dividing 7.5 first by the root of 3 and then by the
    root of 21 gives a double above the one obtained in the other
    order. *)
Lemma Series_corr_f64_not_symmetric :
  let rate := rates example_three_months in
  let employed := map Estimated_Employed example_three_months in
  PrimFloat.eqb (Series_corr_f64 rate employed) (Series_corr_f64 employed rate)
  = false
  /\ PrimFloat.ltb (Series_corr_f64 employed rate) (Series_corr_f64 rate employed)
     = true
  /\ Series_corr_f64 rate employed <> Series_corr_f64 employed rate.
Proof.
  intros rate employed. split; [vm_compute; reflexivity|].
  split; [vm_compute; reflexivity|].
  intros E.
  assert (H : PrimFloat.eqb (Series_corr_f64 rate employed)
                (Series_corr_f64 rate employed) = false).
  { rewrite E at 2. vm_compute. reflexivity. }
  vm_compute in H. discriminate.
Qed.

(** C8, amended.  In exact arithmetic the correlation on one region's
    rows does not depend on the order of its two columns: the rate
    against the employed count equals the employed count against the
    rate, and likewise for the labour participation rate and for any two
    columns of equal length.  In double precision the two orders use the
    same covariance and the same two standard deviations, and differ
    only in which deviation divides first. *)
Theorem Series_corr_symmetric (region_df : DataFrame) :
  Series_corr (rates region_df) (map Estimated_Employed region_df)
  = Series_corr (map Estimated_Employed region_df) (rates region_df)
  /\ Series_corr (rates region_df)
       (map Estimated_Labour_Participation_Rate region_df)
     = Series_corr (map Estimated_Labour_Participation_Rate region_df)
         (rates region_df)
  /\ (forall a b : list Q,
        length a = length b -> Series_corr a b = Series_corr b a)
  /\ (forall a b : list Q,
        a <> [] -> length a = length b ->
        let x := map f64_of_Q a in
        let y := map f64_of_Q b in
        let c := cov_entry_f64 x y in
        let sx := PrimFloat.sqrt (cov_entry_f64 x x) in
        let sy := PrimFloat.sqrt (cov_entry_f64 y y) in
        Series_corr_f64 a b = clip_f64 (PrimFloat.div (PrimFloat.div c sx) sy)
        /\ Series_corr_f64 b a
           = clip_f64 (PrimFloat.div (PrimFloat.div c sy) sx)).
Proof.
  split; [|split; [|split]].
  - apply Series_corr_sym. unfold rates. now rewrite !length_map.
  - apply Series_corr_sym. unfold rates. now rewrite !length_map.
  - apply Series_corr_sym.
  - apply Series_corr_f64_orders.
Qed.

Local Close Scope R_scope.

(* ------------------------------------------------------------------ *)
(** ** The loader *)

(** *** What [strip] removes *)

Lemma lstrip_spec (s : string) :
  exists pre, s = (pre ++ lstrip s)%string
              /\ all_space pre = true
              /\ starts_with_space (lstrip s) = false.
Proof.
  induction s as [|c t (pre & E & Hp & Hs)]; simpl.
  - exists EmptyString. auto.
  - destruct (is_space c) eqn:Hc.
    + exists (String c pre). simpl. rewrite Hc, Hp, <- E. auto.
    + exists EmptyString. simpl. auto.
Qed.

Lemma rstrip_spec (s : string) :
  exists post, s = (rstrip s ++ post)%string
               /\ all_space post = true
               /\ ends_with_space (rstrip s) = false.
Proof.
  induction s as [|c t (post & E & Hp & Hs)]; simpl.
  - exists EmptyString. auto.
  - destruct (rstrip t) as [|c' t'] eqn:Ht.
    + simpl in E. subst t. destruct (is_space c) eqn:Hc.
      * exists (String c post). simpl. rewrite Hc, Hp. auto.
      * exists post. simpl. auto.
    + exists post. split; [now rewrite E at 1|]. split; [assumption|].
      exact Hs.
Qed.

Lemma rstrip_keeps_start (s : string) :
  starts_with_space s = false -> starts_with_space (rstrip s) = false.
Proof.
  destruct s as [|c t]; simpl; [auto|]. intros Hc.
  destruct (rstrip t); [rewrite Hc|]; simpl; auto.
Qed.

Lemma strip_spec (s : string) :
  exists pre post,
    s = (pre ++ strip s ++ post)%string
    /\ all_space pre = true /\ all_space post = true
    /\ starts_with_space (strip s) = false
    /\ ends_with_space (strip s) = false.
Proof.
  destruct (lstrip_spec s) as (pre & E1 & Hpre & Hstart).
  destruct (rstrip_spec (lstrip s)) as (post & E2 & Hpost & Hend).
  exists pre, post. unfold strip. rewrite <- E2, <- E1.
  repeat split; auto using rstrip_keeps_start.
Qed.

(** *** Reading and writing columns *)

Lemma filter_replaced (name : string) (values : list cell) (df : Frame) :
  filter (fun col => String.eqb (fst col) name)
    (map (fun col => if String.eqb (fst col) name then (name, values) else col)
         df)
  = map (fun _ => (name, values))
      (filter (fun col => String.eqb (fst col) name) df).
Proof.
  induction df as [|col df IH]; simpl; [reflexivity|].
  destruct (String.eqb (fst col) name) eqn:E; simpl.
  - rewrite String.eqb_refl, IH. reflexivity.
  - rewrite E, IH. reflexivity.
Qed.

Lemma existsb_filter_nonempty {A : Type} (p : A -> bool) (l : list A) :
  filter p l <> [] -> existsb p l = true.
Proof.
  induction l as [|x l IH]; simpl; [congruence|].
  destruct (p x); simpl; auto.
Qed.

Lemma get_set_same (name : string) (values old : list cell) (df : Frame) :
  get_column name df = Some old ->
  get_column name (set_column name values df) = Some values.
Proof.
  unfold get_column, set_column. intros H.
  destruct (filter (fun col => String.eqb (fst col) name) df)
    as [|col [|? ?]] eqn:E; try discriminate.
  rewrite existsb_filter_nonempty by (rewrite E; discriminate).
  now rewrite filter_replaced, E.
Qed.

Lemma filter_set_other (name other : string) (values : list cell) (df : Frame) :
  name <> other ->
  filter (fun col => String.eqb (fst col) name) (set_column other values df)
  = filter (fun col => String.eqb (fst col) name) df.
Proof.
  intros Hne. unfold set_column.
  assert (Hon : String.eqb other name = false).
  { apply String.eqb_neq. congruence. }
  destruct (existsb _ df).
  - induction df as [|col df IH]; simpl; [reflexivity|].
    destruct (String.eqb (fst col) other) eqn:E; simpl.
    + apply String.eqb_eq in E. rewrite E, Hon. exact IH.
    + now rewrite IH.
  - rewrite filter_app; simpl. rewrite Hon. apply app_nil_r.
Qed.

Lemma get_set_other (name other : string) (values : list cell) (df : Frame) :
  name <> other ->
  get_column name (set_column other values df) = get_column name df.
Proof.
  intros Hne. unfold get_column. now rewrite filter_set_other.
Qed.

Lemma In_set_same (name : string) (values : list cell) (df : Frame) :
  In (name, values) (set_column name values df)
  /\ forall c, In (name, c) (set_column name values df) -> c = values.
Proof.
  unfold set_column.
  destruct (existsb (fun col => String.eqb (fst col) name) df) eqn:E.
  - split.
    + apply existsb_exists in E. destruct E as (col & Hin & Hn).
      apply in_map_iff. exists col. now rewrite Hn.
    + intros c Hc. apply in_map_iff in Hc. destruct Hc as (col & Hc & _).
      destruct (String.eqb (fst col) name) eqn:En; [congruence|].
      subst col. simpl in En. now rewrite String.eqb_refl in En.
  - split; [apply in_or_app; right; now left|].
    intros c Hc. apply in_app_or in Hc. destruct Hc as [Hc|[Hc|[]]].
    + exfalso. apply not_true_iff_false in E. apply E.
      apply existsb_exists. exists (name, c). split; [assumption|].
      apply String.eqb_refl.
    + congruence.
Qed.

Lemma In_set_other (name other : string) (values c : list cell) (df : Frame) :
  name <> other ->
  (In (name, c) (set_column other values df) <-> In (name, c) df).
Proof.
  intros Hne. unfold set_column.
  destruct (existsb (fun col => String.eqb (fst col) other) df).
  - rewrite in_map_iff. split.
    + intros (col & Hc & Hin).
      destruct (String.eqb (fst col) other); [congruence|now subst].
    + intros Hin. exists (name, c). split; [|assumption]. simpl.
      destruct (String.eqb name other) eqn:E; [|reflexivity].
      apply String.eqb_eq in E. contradiction.
  - rewrite in_app_iff. simpl. split; [|auto].
    intros [H|[H|[]]]; [assumption|congruence].
Qed.

Lemma columns_set (name : string) (values : list cell) (df : Frame) :
  exists extra,
    columns (set_column name values df) = columns df ++ extra
    /\ incl extra [name].
Proof.
  unfold set_column, columns.
  destruct (existsb (fun col => String.eqb (fst col) name) df).
  - exists []. rewrite app_nil_r, map_map. split; [|intros ? []].
    apply map_ext. intros col.
    destruct (String.eqb (fst col) name) eqn:E; [|reflexivity].
    apply String.eqb_eq in E. now rewrite E.
  - exists [name]. rewrite map_app. split; [reflexivity|apply incl_refl].
Qed.

Lemma traverse_map {A B C : Type} (f : B -> option C) (g : A -> B)
    (h : A -> C) (l : list A) :
  (forall x, f (g x) = Some (h x)) ->
  traverse f (map g l) = Some (map h l).
Proof.
  intros H. induction l as [|x l IH]; simpl; [reflexivity|].
  now rewrite H, IH.
Qed.

Lemma str_strip_spec (col : list cell) (texts : list string) :
  str_strip col = Some texts ->
  Forall2 (fun c s => exists raw, c = CStr raw /\ s = strip raw) col texts.
Proof.
  unfold str_strip. revert texts.
  induction col as [|c col IH]; simpl; intros texts.
  - intros [= <-]. constructor.
  - destruct c as [raw| | |]; try discriminate.
    destruct (traverse _ col) as [t|]; [|discriminate].
    intros [= <-]. constructor; eauto.
Qed.

(** *** The strict reader reads day-first text day first *)

Lemma digit_val_digit (n : Z) :
  (0 <= n <= 9)%Z -> digit_val (digit n) = Some n.
Proof.
  intros Hn. unfold digit_val, digit.
  rewrite nat_ascii_embedding by lia.
  replace ((48 <=? 48 + Z.to_nat n)%nat && (48 + Z.to_nat n <=? 57)%nat)
    with true.
  - f_equal. lia.
  - symmetry. apply andb_true_iff. split; apply Nat.leb_le; lia.
Qed.

Lemma days_in_month_le (y m : Z) : (days_in_month y m <= 31)%Z.
Proof.
  unfold days_in_month.
  destruct (m =? 2)%Z; [destruct (is_leap y); lia|].
  destruct ((m =? 4) || (m =? 6) || (m =? 9) || (m =? 11))%Z; lia.
Qed.

Lemma valid_dateb_true (y m d : Z) : valid_date y m d -> valid_dateb y m d = true.
Proof.
  unfold valid_date, valid_dateb. intros (Hy & Hm & Hd).
  repeat (apply andb_true_iff; split); apply Z.leb_le; lia.
Qed.

Lemma two_digit_parts (n : Z) :
  (0 <= n <= 99)%Z ->
  (0 <= n / 10 <= 9 /\ 0 <= n mod 10 <= 9 /\ 10 * (n / 10) + n mod 10 = n)%Z.
Proof. intros H. Z.div_mod_to_equations. lia. Qed.

Lemma four_digit_parts (n : Z) :
  (0 <= n <= 9999)%Z ->
  (0 <= n / 1000 <= 9 /\ 0 <= (n / 100) mod 10 <= 9
   /\ 0 <= (n / 10) mod 10 <= 9 /\ 0 <= n mod 10 <= 9
   /\ 1000 * (n / 1000) + 100 * ((n / 100) mod 10)
      + 10 * ((n / 10) mod 10) + n mod 10 = n)%Z.
Proof. intros H. Z.div_mod_to_equations. lia. Qed.

Lemma parse_dmy_text (y m d : Z) :
  valid_date y m d ->
  parse_date true (dmy_text d m y) = Some (mkTimestamp y m d).
Proof.
  intros Hv. pose proof (valid_dateb_true y m d Hv) as Hb.
  destruct Hv as (Hy & Hm & Hd). pose proof (days_in_month_le y m) as H31.
  destruct (two_digit_parts d) as (D1 & D2 & D3); [lia|].
  destruct (two_digit_parts m) as (M1 & M2 & M3); [lia|].
  destruct (four_digit_parts y) as (Y1 & Y2 & Y3 & Y4 & Y5); [lia|].
  unfold dmy_text, two_digits, four_digits, parse_date. cbn [append].
  change (Ascii.eqb "-" "-") with true. cbn [andb].
  rewrite !digit_val_digit by assumption.
  cbn [bind]. rewrite D3, M3, Y5. now rewrite Hb.
Qed.

Lemma strict_to_datetime_dayfirst (texts : list string) (ts : list Timestamp) :
  dayfirst_reading texts ts -> strict_to_datetime true texts = Some ts.
Proof.
  unfold dayfirst_reading, strict_to_datetime.
  induction 1 as [|s t texts ts [-> Hv] _ IH]; [reflexivity|].
  cbn [traverse]. rewrite (parse_dmy_text _ _ _ Hv), IH. now destruct t.
Qed.

(** *** The loaded frame *)

Section LoaderSpec.

Variable to_datetime : bool -> list string -> option (list Timestamp).

(** The frame [load_data] returns once the date column has been found,
    stripped and parsed. *)
Lemma load_data_eq (csv : Frame) (cells : list cell) (texts : list string)
    (parsed : list Timestamp) :
  get_column "Date" (strip_columns csv) = Some cells ->
  str_strip cells = Some texts ->
  to_datetime true texts = Some parsed ->
  load_data to_datetime csv
  = Some (set_column "Month_Name" (month_names_of parsed)
            (set_column "Month" (months_of parsed)
               (set_column "Year" (years_of parsed)
                  (set_column "Date" (map CTime parsed) (strip_columns csv))))).
Proof.
  intros Hget Hstrip Hparse. unfold load_data.
  rewrite Hget; cbn [bind]. rewrite Hstrip; cbn [bind].
  rewrite Hparse; cbn [bind].
  rewrite (get_set_same "Date" _ cells) by assumption. cbn [bind].
  unfold dt_year.
  rewrite (traverse_map _ CTime (fun t => CInt (year t))) by reflexivity.
  cbn [bind]. rewrite get_set_other by discriminate.
  rewrite (get_set_same "Date" _ cells) by assumption. cbn [bind].
  unfold dt_month.
  rewrite (traverse_map _ CTime (fun t => CInt (month t))) by reflexivity.
  cbn [bind]. rewrite !get_set_other by discriminate.
  rewrite (get_set_same "Date" _ cells) by assumption. cbn [bind].
  unfold dt_strftime_b.
  rewrite (traverse_map _ CTime (fun t => CStr (month_abbr (month t))))
    by reflexivity.
  reflexivity.
Qed.

Lemma load_data_inv (csv df : Frame) :
  load_data to_datetime csv = Some df ->
  exists cells texts parsed,
    get_column "Date" (strip_columns csv) = Some cells
    /\ str_strip cells = Some texts
    /\ to_datetime true texts = Some parsed.
Proof.
  unfold load_data.
  destruct (get_column "Date" (strip_columns csv)) as [cells|];
    [|discriminate].
  cbn [bind].
  destruct (str_strip cells) as [texts|] eqn:Hstrip; [|discriminate].
  cbn [bind].
  destruct (to_datetime true texts) as [parsed|] eqn:Hparse; [|discriminate].
  intros _. exists cells, texts, parsed. auto.
Qed.

(** The columns of the loaded frame that hold the dates and what is
    derived from them. *)
Lemma loaded_frame (csv : Frame) (cells : list cell) (parsed : list Timestamp) :
  get_column "Date" (strip_columns csv) = Some cells ->
  let df := set_column "Month_Name" (month_names_of parsed)
              (set_column "Month" (months_of parsed)
                 (set_column "Year" (years_of parsed)
                    (set_column "Date" (map CTime parsed)
                       (strip_columns csv)))) in
  get_column "Date" df = Some (map CTime parsed)
  /\ In ("Year"%string, years_of parsed) df
  /\ (forall c, In ("Year"%string, c) df -> c = years_of parsed)
  /\ In ("Month"%string, months_of parsed) df
  /\ (forall c, In ("Month"%string, c) df -> c = months_of parsed).
Proof.
  intros Hget df. unfold df. split; [|split; [|split; [|split]]].
  - rewrite !get_set_other by discriminate.
    now apply (get_set_same "Date" _ cells).
  - apply In_set_other; [discriminate|]. apply In_set_other; [discriminate|].
    apply In_set_same.
  - intros c Hc.
    apply In_set_other in Hc; [|discriminate].
    apply In_set_other in Hc; [|discriminate].
    eapply In_set_same; eauto.
  - apply In_set_other; [discriminate|]. apply In_set_same.
  - intros c Hc. apply In_set_other in Hc; [|discriminate].
    eapply In_set_same; eauto.
Qed.

Lemma loaded_columns (csv : Frame) (cells : list cell) (parsed : list Timestamp) :
  get_column "Date" (strip_columns csv) = Some cells ->
  exists extra,
    columns (set_column "Month_Name" (month_names_of parsed)
               (set_column "Month" (months_of parsed)
                  (set_column "Year" (years_of parsed)
                     (set_column "Date" (map CTime parsed)
                        (strip_columns csv)))))
    = map strip (columns csv) ++ extra
    /\ incl extra ["Year"; "Month"; "Month_Name"]%string.
Proof.
  intros Hget.
  destruct (columns_set "Month_Name" (month_names_of parsed)
              (set_column "Month" (months_of parsed)
                 (set_column "Year" (years_of parsed)
                    (set_column "Date" (map CTime parsed)
                       (strip_columns csv))))) as (e4 & -> & H4).
  destruct (columns_set "Month" (months_of parsed)
              (set_column "Year" (years_of parsed)
                 (set_column "Date" (map CTime parsed)
                    (strip_columns csv)))) as (e3 & -> & H3).
  destruct (columns_set "Year" (years_of parsed)
              (set_column "Date" (map CTime parsed)
                 (strip_columns csv))) as (e2 & -> & H2).
  assert (E1 : columns (set_column "Date" (map CTime parsed)
                          (strip_columns csv))
               = columns (strip_columns csv)).
  { unfold set_column, get_column in *.
    rewrite existsb_filter_nonempty.
    - unfold columns. rewrite map_map. apply map_ext. intros col.
      destruct (String.eqb (fst col) "Date") eqn:E; [|reflexivity].
      apply String.eqb_eq in E. now rewrite E.
    - destruct (filter _ (strip_columns csv)); discriminate. }
  rewrite E1. exists (e2 ++ e3 ++ e4). split.
  - unfold columns, strip_columns. rewrite map_map; simpl.
    rewrite <- !app_assoc. now rewrite <- map_map.
  - intros x Hx. apply in_app_or in Hx. destruct Hx as [Hx|Hx].
    + apply H2 in Hx. destruct Hx as [<-|[]]. simpl; auto.
    + apply in_app_or in Hx. destruct Hx as [Hx|Hx].
      * apply H3 in Hx. destruct Hx as [<-|[]]. simpl; auto.
      * apply H4 in Hx. destruct Hx as [<-|[]]. simpl; auto.
Qed.

End LoaderSpec.

(** *** The format pandas finds for the column *)

Lemma pandas_to_datetime_dayfirst (texts : list string) (ts : list Timestamp) :
  dayfirst_reading texts ts -> pandas_to_datetime true texts = Some ts.
Proof.
  intros H. pose proof (strict_to_datetime_dayfirst texts ts H) as E.
  unfold strict_to_datetime in E. unfold pandas_to_datetime.
  destruct texts as [|first rest]; [simpl in E; congruence|].
  unfold guess_datetime_format.
  cbn [traverse] in E.
  destruct (parse_date true first) eqn:E1; [|discriminate].
  cbn [bind traverse]. now rewrite E1.
Qed.

Lemma pandas_to_datetime_one_format (texts : list string)
    (parsed : list Timestamp) (first : string) (rest : list string) :
  pandas_to_datetime true texts = Some parsed ->
  texts = first :: rest ->
  (parse_date true first <> None ->
   traverse (parse_date true) texts = Some parsed)
  /\ (parse_date true first = None ->
      parse_date false first <> None
      /\ traverse (parse_date false) texts = Some parsed).
Proof.
  intros H ->. unfold pandas_to_datetime, guess_datetime_format in H.
  destruct (parse_date true first) eqn:E1.
  - cbn [bind] in H. split; [auto|discriminate].
  - change (negb true) with false in H.
    destruct (parse_date false first) eqn:E2; [|discriminate].
    cbn [bind] in H. split; [congruence|]. split; [discriminate|exact H].
Qed.

(** C9.  The loader trims every column header; it takes the column whose
    trimmed header is [Date], trims each of its texts and only then
    parses them, with the day-first option on; the [Year] and [Month]
    columns of the result hold the year and the month of the parsed
    dates.  The day-first option does not make the reading day first:
    the whole column is read with the one format found from its first
    text, day first when that text is a date read day first, month first
    otherwise.  In a file whose first date is 05-31-2019 the ambiguous
    05-06-2019, by day-first reading the 5th of June, is loaded as the
    6th of May, and its month as 5.  When every trimmed text is a
    day-first date [DD-MM-YYYY], the [Date], [Year] and [Month] columns
    hold the day-first reading, and the load succeeds. *)
Theorem load_data_one_format :
  (forall s, exists pre post,
      s = (pre ++ strip s ++ post)%string
      /\ all_space pre = true /\ all_space post = true
      /\ starts_with_space (strip s) = false
      /\ ends_with_space (strip s) = false)
  /\ (exists df,
      load_data pandas_to_datetime month_first_csv = Some df
      /\ get_column "Date" df
         = Some [CTime (mkTimestamp 2019 5 31); CTime (mkTimestamp 2019 5 6)]
      /\ In ("Year"%string, [CInt 2019; CInt 2019]) df
      /\ In ("Month"%string, [CInt 5; CInt 5]) df
      /\ dayfirst_reading ["05-06-2019"%string] [mkTimestamp 2019 6 5])
  /\ (forall csv df,
        load_data pandas_to_datetime csv = Some df ->
        (exists extra,
            columns df = map strip (columns csv) ++ extra
            /\ incl extra ["Year"; "Month"; "Month_Name"]%string)
        /\ exists cells texts parsed,
            get_column "Date" (strip_columns csv) = Some cells
            /\ Forall2 (fun c s => exists raw, c = CStr raw /\ s = strip raw)
                 cells texts
            /\ get_column "Date" df = Some (map CTime parsed)
            /\ In ("Year"%string, years_of parsed) df
            /\ (forall c, In ("Year"%string, c) df -> c = years_of parsed)
            /\ In ("Month"%string, months_of parsed) df
            /\ (forall c, In ("Month"%string, c) df -> c = months_of parsed)
            /\ (forall first rest, texts = first :: rest ->
                  (parse_date true first <> None ->
                   traverse (parse_date true) texts = Some parsed)
                  /\ (parse_date true first = None ->
                      parse_date false first <> None
                      /\ traverse (parse_date false) texts = Some parsed)))
  /\ (forall csv cells texts ts,
        get_column "Date" (strip_columns csv) = Some cells ->
        str_strip cells = Some texts ->
        dayfirst_reading texts ts ->
        exists df,
          load_data pandas_to_datetime csv = Some df
          /\ get_column "Date" df = Some (map CTime ts)
          /\ In ("Year"%string, years_of ts) df
          /\ In ("Month"%string, months_of ts) df).
Proof.
  split; [apply strip_spec|]. split; [|split].
  - eexists. split; [reflexivity|]. split; [reflexivity|].
    split; [vm_compute; tauto|]. split; [vm_compute; tauto|].
    repeat constructor; vm_compute; intuition discriminate.
  - intros csv df Hload.
    destruct (load_data_inv pandas_to_datetime csv df Hload)
      as (cells & texts & parsed & Hget & Hstrip & Hparse).
    rewrite (load_data_eq pandas_to_datetime csv cells texts parsed
               Hget Hstrip Hparse) in Hload.
    injection Hload as <-. split; [now apply (loaded_columns csv cells)|].
    exists cells, texts, parsed.
    destruct (loaded_frame csv cells parsed Hget) as (F1 & F2 & F3 & F4 & F5).
    split; [assumption|]. split; [now apply str_strip_spec|].
    split; [assumption|]. split; [assumption|]. split; [assumption|].
    split; [assumption|]. split; [assumption|].
    intros first rest E.
    apply (pandas_to_datetime_one_format texts parsed first rest Hparse E).
  - intros csv cells texts ts Hget Hstrip Hts.
    pose proof (pandas_to_datetime_dayfirst texts ts Hts) as Hparse.
    eexists.
    split; [apply (load_data_eq pandas_to_datetime csv cells texts ts);
            assumption|].
    destruct (loaded_frame csv cells ts Hget) as (F1 & F2 & _ & F4 & _). auto.
Qed.

(* ------------------------------------------------------------------ *)
(** ** The theorems at concrete frames *)

Lemma filter_stage_date_range_witness :
  filter_stage example_A_first ["A"; "B"]%string
    (mkTimestamp 2020 1 1, mkTimestamp 2019 1 1) "Both" = []
  /\ region_data
       (filter_stage example_A_first ["A"; "B"]%string
          (mkTimestamp 2020 1 1, mkTimestamp 2019 1 1) "Both") = []
  /\ region_time_data
       (filter_stage example_A_first ["A"; "B"]%string
          (mkTimestamp 2020 1 1, mkTimestamp 2019 1 1) "Both") = [].
Proof.
  destruct (filter_stage_date_range example_A_first ["A"; "B"]%string
              (mkTimestamp 2020 1 1) (mkTimestamp 2019 1 1) "Both")
    as (_ & _ & _ & H).
  destruct H as (H1 & H2 & H3 & _); [unfold ts_lt; simpl; lia|].
  auto.
Defined.

Lemma filter_stage_raw_identity_witness :
  exists lo hi,
    default_time_period_raw (map complete example_A_first) = Some (lo, hi)
    /\ filter_stage_raw (map complete example_A_first)
         (all_regions_raw (map complete example_A_first)) (lo, hi) "Both"
       = map complete example_A_first.
Proof.
  apply (proj1 (proj2 (filter_stage_raw_identity (map complete example_A_first)))).
  - discriminate.
  - intros r Hr. apply in_map_iff in Hr. destruct Hr as (x & <- & _).
    split; discriminate.
Defined.

Lemma groupby_mean_spec_witness :
  Sorted date_ascending (groupby_mean [ColDate; ColArea] example_A_first)
  /\ In ([KDate (mkTimestamp 2019 5 31); KStr "Rural"], Fin (30 # 2))
        (groupby_mean [ColDate; ColArea] example_A_first).
Proof.
  destruct (groupby_mean_spec [ColDate; ColArea] example_A_first
              ltac:(discriminate))
    as (_ & _ & _ & _ & H).
  split; [apply (H [ColArea]); reflexivity|].
  left. reflexivity.
Defined.

Lemma weighted_recombination_by_date_witness :
  feq (weighted_recombination [ColDate] example_A_first) (Fin (35 # 2))
  /\ feq (mean (rates example_A_first)) (Fin (35 # 2))
  /\ feq (weighted_recombination [ColDate] example_A_first)
         (mean (rates example_A_first)).
Proof.
  split; [reflexivity|]. split; [reflexivity|].
  apply (proj1 (weighted_recombination_by_date example_A_first)).
Defined.

(* ------------------------------------------------------------------ *)
(** ** The order of grouping keys is transitive *)

Lemma ascii_compare_trans (a b c : ascii) :
  Ascii.compare a b = Lt -> Ascii.compare b c = Lt -> Ascii.compare a c = Lt.
Proof.
  unfold Ascii.compare. rewrite !N.compare_lt_iff. apply N.lt_trans.
Qed.

Lemma ascii_compare_refl (a : ascii) : Ascii.compare a a = Eq.
Proof. unfold Ascii.compare. apply N.compare_refl. Qed.

Lemma string_compare_trans (a b c : string) :
  String.compare a b = Lt -> String.compare b c = Lt -> String.compare a c = Lt.
Proof.
  revert b c; induction a as [|x a IH]; intros [|y b] [|z c]; simpl;
    try discriminate; try reflexivity.
  destruct (Ascii.compare x y) eqn:Exy; try discriminate;
    destruct (Ascii.compare y z) eqn:Eyz; try discriminate; intros H1 H2.
  - apply Ascii.compare_eq_iff in Exy, Eyz. subst.
    rewrite ascii_compare_refl. eauto.
  - apply Ascii.compare_eq_iff in Exy. subst. now rewrite Eyz.
  - apply Ascii.compare_eq_iff in Eyz. subst. now rewrite Exy.
  - now rewrite (ascii_compare_trans x y z).
Qed.

Lemma ts_compare_lt (a b : Timestamp) : ts_compare a b = Lt <-> ts_lt a b.
Proof.
  rewrite <- ts_ltb_lt. unfold ts_ltb.
  destruct (ts_compare a b); split; congruence.
Qed.

Lemma ts_lt_trans (a b c : Timestamp) : ts_lt a b -> ts_lt b c -> ts_lt a c.
Proof. unfold ts_lt; lia. Qed.

Lemma cell_compare_trans (a b c : keycell) :
  cell_compare a b = Lt -> cell_compare b c = Lt -> cell_compare a c = Lt.
Proof.
  destruct a, b, c; simpl; try discriminate; try reflexivity.
  - rewrite !ts_compare_lt. apply ts_lt_trans.
  - apply string_compare_trans.
Qed.

Lemma key_compare_trans (a b c : list keycell) :
  key_compare a b = Lt -> key_compare b c = Lt -> key_compare a c = Lt.
Proof.
  revert b c; induction a as [|x a IH]; intros [|y b] [|z c]; simpl;
    try discriminate; try reflexivity.
  destruct (cell_compare x y) eqn:Exy; try discriminate;
    destruct (cell_compare y z) eqn:Eyz; try discriminate; intros H1 H2.
  - apply cell_compare_eq in Exy, Eyz. subst.
    assert (E : cell_compare z z = Eq) by now apply cell_compare_eq.
    rewrite E. eauto.
  - apply cell_compare_eq in Exy. subst. now rewrite Eyz.
  - apply cell_compare_eq in Eyz. subst. now rewrite Exy.
  - now rewrite (cell_compare_trans x y z).
Qed.

Lemma key_leb_trans (a b c : list keycell) :
  key_leb a b = true -> key_leb b c = true -> key_leb a c = true.
Proof.
  unfold key_leb.
  destruct (key_compare a b) eqn:Eab; try discriminate;
    destruct (key_compare b c) eqn:Ebc; try discriminate; intros _ _.
  - apply key_compare_eq in Eab, Ebc. subst.
    assert (E : key_compare c c = Eq) by now apply key_compare_eq.
    now rewrite E.
  - apply key_compare_eq in Eab. subst. now rewrite Ebc.
  - apply key_compare_eq in Ebc. subst. now rewrite Eab.
  - now rewrite (key_compare_trans a b c).
Qed.

(** A sorted list under a transitive order: every element precedes all
    later ones. *)
Lemma Sorted_strong {A : Type} (R : A -> A -> Prop) (l : list A) :
  (forall a b c, R a b -> R b c -> R a c) ->
  Sorted R l -> StronglySorted R l.
Proof.
  intros Htrans HS. induction HS as [|a l HS IH Hhd]; constructor; auto.
  destruct Hhd as [|b l' Hab]; constructor; [assumption|].
  inversion IH as [|? ? _ Hall]; subst.
  eapply Forall_impl; [|exact Hall]. intros c Hbc. eauto.
Qed.

(* ------------------------------------------------------------------ *)
(** ** The two Covid windows *)

Lemma filter_exclusive_length {A : Type} (p q : A -> bool) (l : list A) :
  (forall x, p x = true -> q x = false) ->
  (length (filter p l) + length (filter q l) <= length l)%nat.
Proof.
  intros H. induction l as [|x l IH]; simpl; [lia|].
  destruct (p x) eqn:Ep; [rewrite (H x Ep)|destruct (q x)]; simpl; lia.
Qed.

Lemma pre_window_excludes_post (d : Timestamp) :
  ts_geb d pre_covid_start && ts_leb d pre_covid_end = true ->
  ts_geb d post_covid_start && ts_leb d post_covid_end = false.
Proof.
  unfold ts_geb. rewrite andb_true_iff, !ts_leb_le. intros [_ H].
  apply andb_false_iff. left. apply not_true_iff_false. rewrite ts_leb_le.
  unfold ts_le, pre_covid_end, post_covid_start in *; simpl in *. lia.
Qed.

(** X1. No row is counted on both sides of the comparison: a row of the
    pre-Covid frame is never a row of the post-Covid frame, so the two
    frames together hold at most as many rows as the loaded frame; every
    post-Covid row is also in the January-to-June frame of the monthly
    trend chart. *)
Theorem covid_windows_disjoint (df : DataFrame) :
  (forall r, In r (pre_covid_df df) -> ~ In r (post_covid_df df))
  /\ (length (pre_covid_df df) + length (post_covid_df df) <= length df)%nat
  /\ (forall r, In r (post_covid_df df) -> In r (covid_period_df df)).
Proof.
  split; [|split].
  - unfold pre_covid_df, post_covid_df. intros r Hpre Hpost.
    apply filter_In in Hpre, Hpost. destruct Hpre as [_ Hpre], Hpost as [_ Hpost].
    apply pre_window_excludes_post in Hpre. congruence.
  - apply filter_exclusive_length. intros r. apply pre_window_excludes_post.
  - unfold post_covid_df, covid_period_df. intros r Hr.
    apply filter_In in Hr. destruct Hr as [Hin Hr]. apply filter_In.
    split; [assumption|]. unfold ts_geb in *.
    apply andb_true_iff in Hr. destruct Hr as [H1 H2].
    apply andb_true_iff. split; [|assumption].
    apply ts_leb_le. apply ts_leb_le in H1.
    eapply ts_le_trans; [|exact H1].
    unfold ts_le, post_covid_start; simpl. lia.
Qed.

(* ------------------------------------------------------------------ *)
(** ** When the headline and the per-region figures are numbers *)

Lemma mean_NaN_iff (l : list Q) : mean l = NaN <-> l = [].
Proof. destruct l; simpl; split; congruence. Qed.

Lemma rates_nil_iff (df : DataFrame) : rates df = [] <-> df = [].
Proof. destruct df; simpl; split; congruence. Qed.

Lemma mean_rates_NaN_iff (df : DataFrame) : mean (rates df) = NaN <-> df = [].
Proof. now rewrite mean_NaN_iff, rates_nil_iff. Qed.

Lemma Qis_zero_false (x : Q) : Qis_zero x = false <-> ~ x == 0.
Proof. rewrite <- Qis_zero_eq. symmetry. apply not_true_iff_false. Qed.

(** X2. The headline percentage change is a number exactly when both
    windows hold rows and the pre-Covid mean is not zero, and then it is
    [(post - pre) / pre * 100], also for a negative pre-Covid mean; when
    either window is empty it is not-a-number. *)
Theorem percent_change_finite_iff (df : DataFrame) :
  (forall pre post,
      pre_covid_avg df = Fin pre -> post_covid_avg df = Fin post ->
      ~ pre == 0 ->
      percent_change df = Fin ((post - pre) / pre * 100))
  /\ (pre_covid_df df = [] \/ post_covid_df df = [] ->
      percent_change df = NaN)
  /\ (is_fin (percent_change df) = true
      <-> pre_covid_df df <> [] /\ post_covid_df df <> []
          /\ exists pre, pre_covid_avg df = Fin pre /\ ~ pre == 0).
Proof.
  assert (Hnum : forall pre post,
      pre_covid_avg df = Fin pre -> post_covid_avg df = Fin post ->
      ~ pre == 0 ->
      percent_change df = Fin ((post - pre) / pre * 100)).
  { intros pre post Hpre Hpost Hnz. unfold percent_change.
    rewrite Hpre, Hpost. simpl.
    now rewrite (proj2 (Qis_zero_false pre) Hnz). }
  assert (Hnan : pre_covid_df df = [] \/ post_covid_df df = [] ->
                 percent_change df = NaN).
  { unfold percent_change, pre_covid_avg, post_covid_avg.
    intros [E|E]; rewrite E; simpl; [|reflexivity].
    destruct (mean (rates (post_covid_df df))); reflexivity. }
  split; [exact Hnum|]. split; [exact Hnan|]. split.
  - intros Hfin.
    destruct (pre_covid_df df) as [|r t] eqn:Epre.
    { rewrite Hnan in Hfin by (now left). discriminate. }
    destruct (post_covid_df df) as [|r' t'] eqn:Epost.
    { rewrite Hnan in Hfin by (now right). discriminate. }
    split; [discriminate|]. split; [discriminate|].
    unfold percent_change, pre_covid_avg, post_covid_avg in *.
    rewrite Epre, Epost in *. simpl in *.
    eexists. split; [reflexivity|].
    apply Qis_zero_false.
    match goal with
    | H : context [Qis_zero ?p] |- Qis_zero ?p = false =>
        destruct (Qis_zero p); [|reflexivity]
    end.
    match type of Hfin with
    | context [Qis_zero ?x] => destruct (Qis_zero x); discriminate
    end.
  - intros (Hpre & Hpost & pre & Hp & Hnz).
    destruct (mean_shape (rates (post_covid_df df))) as [E|[post E]].
    { apply mean_rates_NaN_iff in E. contradiction. }
    now rewrite (Hnum pre post Hp E Hnz).
Qed.

Lemma percent_change_finite_iff_witness :
  percent_change example_A_first = Fin ((40 / 2 - 30 / 2) / (30 / 2) * 100).
Proof.
  apply (proj1 (percent_change_finite_iff example_A_first));
    [reflexivity|reflexivity|discriminate].
Defined.

(** X3. What a region's impact row holds when the region lacks data.
    Without pre-Covid rows the pre mean and the change are not-a-number
    and the percentage is reported as 0; with a positive pre mean but no
    post-Covid rows the change and the percentage are not-a-number; with
    rows in both windows the change is a number.  The percentage is never
    an infinity. *)
Theorem region_impact_missing_data (df : DataFrame) (row : ImpactRow) :
  In row (region_impact_full df) ->
  let pre_rows := window_rows df (impact_Region row)
                    (mkTimestamp 2019 5 1) (mkTimestamp 2020 2 29) in
  let post_rows := window_rows df (impact_Region row)
                     (mkTimestamp 2020 3 1) (mkTimestamp 2020 6 30) in
  (pre_rows = [] ->
   Pre_Covid_Rate row = NaN /\ Absolute_Change row = NaN
   /\ Percentage_Change row = Fin 0)
  /\ (post_rows = [] ->
      Post_Covid_Rate row = NaN /\ Absolute_Change row = NaN
      /\ (forall pre, Pre_Covid_Rate row = Fin pre -> 0 < pre ->
            Percentage_Change row = NaN))
  /\ (pre_rows <> [] -> post_rows <> [] ->
      exists change, Absolute_Change row = Fin change)
  /\ (forall s, Percentage_Change row <> Inf s).
Proof.
  intros Hin pre_rows post_rows.
  destruct (region_impact_full_row df row Hin) as (_ & Hpre & Hpost & Hch & Hpc).
  rewrite region_rows_pre in Hpre. rewrite region_rows_post in Hpost.
  fold pre_rows in Hpre. fold post_rows in Hpost.
  split; [|split; [|split]].
  - intros E. rewrite E in Hpre. simpl in Hpre.
    rewrite Hpc, Hch, Hpre.
    destruct (Post_Covid_Rate row); auto.
  - intros E. rewrite E in Hpost. simpl in Hpost.
    rewrite Hpc, Hch, Hpost. split; [reflexivity|].
    split; [destruct (Pre_Covid_Rate row); reflexivity|].
    intros pre -> Hpos. simpl. now rewrite (proj2 (Qltb_lt 0 pre) Hpos).
  - intros Hne1 Hne2. rewrite Hch, Hpre, Hpost.
    rewrite !mean_nonempty by now apply rates_nonempty.
    simpl. eauto.
  - intros s. rewrite Hpc, Hch, Hpre, Hpost.
    destruct (mean_shape (rates pre_rows)) as [-> | [p ->]];
      [simpl; discriminate|].
    destruct (fgtb (Fin p) (Fin 0)) eqn:Hgt; [|discriminate].
    simpl in Hgt. apply Qltb_lt in Hgt.
    destruct (mean_shape (rates post_rows)) as [-> | [q ->]];
      [simpl; discriminate|].
    simpl. rewrite (Qis_zero_pos p Hgt). discriminate.
Qed.

Lemma region_impact_missing_data_witness :
  let df := [mkObservation (mkTimestamp 2020 4 30) "A" "Rural" 15 0 0] in
  exists row,
    In row (region_impact_full df)
    /\ Pre_Covid_Rate row = NaN /\ Absolute_Change row = NaN
    /\ Percentage_Change row = Fin 0.
Proof.
  intros df.
  exists (mkImpactRow "A" NaN (Fin (15 / 1)) NaN (Fin 0)).
  assert (Hin : In (mkImpactRow "A" NaN (Fin (15 / 1)) NaN (Fin 0))
                   (region_impact_full df)) by (left; reflexivity).
  split; [exact Hin|].
  apply (proj1 (region_impact_missing_data df _ Hin)). reflexivity.
Defined.

Lemma fsub_NaN_iff (a b : fnum Q) :
  is_fin a || is_nan a = true -> is_fin b || is_nan b = true ->
  (fsub a b = NaN <-> a = NaN \/ b = NaN).
Proof.
  destruct a, b; simpl; intros Ha Hb; try discriminate;
    split; auto; try discriminate; intros [H|H]; discriminate.
Qed.

Lemma region_impact_NaN_iff (df : DataFrame) (region : string) (change : fnum Q) :
  In (region, change) (region_impact df) ->
  (change = NaN
   <-> window_rows df region (mkTimestamp 2019 5 1) (mkTimestamp 2020 2 29) = []
       \/ window_rows df region (mkTimestamp 2020 3 1) (mkTimestamp 2020 6 30)
          = []).
Proof.
  intros H. rewrite (region_impact_row df region change H).
  rewrite fsub_NaN_iff, !mean_rates_NaN_iff; [tauto| |].
  - destruct (mean_shape (rates (window_rows df region (mkTimestamp 2020 3 1)
                                               (mkTimestamp 2020 6 30))))
      as [-> | [q ->]]; reflexivity.
  - destruct (mean_shape (rates (window_rows df region (mkTimestamp 2019 5 1)
                                               (mkTimestamp 2020 2 29))))
      as [-> | [q ->]]; reflexivity.
Qed.

Lemma most_affected_some (df : DataFrame) (region : string) (c : Q) :
  In (region, Fin c) (region_impact df) -> most_affected df <> None.
Proof.
  intros Hin. unfold most_affected.
  destruct (idxmax_scan_some (map snd (region_impact df)) 0 None) as [j Hj].
  { right. exists (Fin c). split; [|reflexivity].
    apply in_map_iff. exists (region, Fin c). auto. }
  unfold idxmax. rewrite Hj.
  apply idxmax_spec in Hj. destruct Hj as (v & _ & Hnth & _).
  rewrite nth_error_map in Hnth.
  destruct (nth_error (region_impact df) j); [discriminate|discriminate].
Qed.

Lemma most_affected_row (df : DataFrame) (region : string) (change : fnum Q) :
  most_affected df = Some (region, change) ->
  In (region, change) (region_impact df) /\ is_nan change = false.
Proof.
  unfold most_affected.
  destruct (idxmax (map snd (region_impact df))) as [i|] eqn:E;
    [|discriminate].
  intros Hrow. apply idxmax_spec in E. destruct E as (v & Hv & Hnth & _).
  rewrite nth_error_map, Hrow in Hnth. simpl in Hnth. injection Hnth as <-.
  split; [eapply nth_error_In; eauto|assumption].
Qed.

(** X4. Picking the most affected region fails exactly when no region
    has rows in both windows; otherwise a region is returned. *)
Theorem most_affected_none_iff (df : DataFrame) :
  most_affected df = None
  <-> forall region,
        In region (map Region df) ->
        window_rows df region (mkTimestamp 2019 5 1) (mkTimestamp 2020 2 29) = []
        \/ window_rows df region (mkTimestamp 2020 3 1) (mkTimestamp 2020 6 30)
           = [].
Proof.
  assert (Hreg : forall region,
            In region (map Region df) <->
            exists change, In (region, change) (region_impact df)).
  { intros region. rewrite <- (In_unique _ String.eqb_eq).
    rewrite <- region_impact_regions, in_map_iff. split.
    - intros ([r c] & <- & H). eauto.
    - intros (c & H). exists (region, c). auto. }
  split.
  - intros Hnone region Hin. apply Hreg in Hin. destruct Hin as (change & Hin).
    apply (region_impact_NaN_iff df region change Hin).
    destruct (region_impact_shape df region change Hin) as [E|[c E]];
      [assumption|]. subst change.
    exfalso. now apply (most_affected_some df region c Hin).
  - intros Hall. destruct (most_affected df) as [[region change]|] eqn:E;
      [|reflexivity]. exfalso.
    destruct (most_affected_row df region change E) as [Hin Hnn].
    assert (Hr : In region (map Region df)) by (apply Hreg; eauto).
    apply Hall in Hr.
    apply (region_impact_NaN_iff df region change Hin) in Hr.
    subst change. discriminate.
Qed.

(* ------------------------------------------------------------------ *)
(** ** Tables sorted in descending order *)

Lemma desc_leb_total (x y : fnum Q) :
  desc_leb x y = true \/ desc_leb y x = true.
Proof.
  unfold desc_leb.
  destruct x as [|[|]|x], y as [|[|]|y]; simpl; auto.
  destruct (Qltb x y) eqn:E; simpl; auto.
  right. apply negb_true_iff, Qltb_ge. apply Qltb_lt in E. lra.
Qed.

Lemma desc_leb_trans (x y z : fnum Q) :
  desc_leb x y = true -> desc_leb y z = true -> desc_leb x z = true.
Proof.
  unfold desc_leb.
  destruct x as [|[|]|x], y as [|[|]|y], z as [|[|]|z]; simpl;
    try reflexivity; try discriminate.
  rewrite !negb_true_iff, !Qltb_ge. intros H1 H2. lra.
Qed.

Lemma desc_leb_Fin_r (x : fnum Q) (c : Q) :
  desc_leb x (Fin c) = true -> is_nan x = false /\ fgtb (Fin c) x = false.
Proof.
  unfold desc_leb; simpl. rewrite andb_true_iff, !negb_true_iff. tauto.
Qed.

Section SortValues.
Context {A : Type} (by_column : A -> fnum Q).

Lemma sort_values_desc_perm (l : list A) :
  Permutation l (sort_values_desc by_column l).
Proof. apply sort_perm. Qed.

Lemma sort_values_desc_sorted (l : list A) :
  StronglySorted (fun a b => desc_le (by_column a) (by_column b))
    (sort_values_desc by_column l).
Proof.
  apply Sorted_strong.
  - intros a b c. apply desc_leb_trans.
  - apply (sort_Sorted (fun a b => desc_leb (by_column a) (by_column b))).
    intros a b. apply desc_leb_total.
Qed.

End SortValues.

Lemma StronglySorted_firstn {A : Type} (R : A -> A -> Prop) (n : nat)
    (l : list A) :
  StronglySorted R l -> StronglySorted R (firstn n l).
Proof.
  intros H. revert n. induction H as [|a l H IH Hall]; intros [|n]; simpl;
    constructor; auto.
  rewrite Forall_forall in *. intros x Hx. apply Hall.
  eapply (In_nth_error) in Hx. destruct Hx as (i & Hi).
  apply nth_error_In with i. rewrite nth_error_firstn in Hi.
  destruct (i <? n)%nat; [assumption|discriminate].
Qed.

Lemma StronglySorted_firstn_skipn {A : Type} (R : A -> A -> Prop) (n : nat)
    (l : list A) (a b : A) :
  StronglySorted R l -> In a (firstn n l) -> In b (skipn n l) -> R a b.
Proof.
  intros H. revert n. induction H as [|h l H IH Hall]; intros n Ha Hb.
  - rewrite firstn_nil in Ha. contradiction.
  - destruct n as [|n]; simpl in *; [contradiction|].
    destruct Ha as [<-|Ha].
    + rewrite Forall_forall in Hall. apply Hall.
      rewrite <- (firstn_skipn n l). apply in_or_app. now right.
    + eauto.
Qed.

Lemma StronglySorted_weaken {A : Type} (R S : A -> A -> Prop) (l : list A) :
  (forall a b, In a l -> In b l -> R a b -> S a b) ->
  StronglySorted R l -> StronglySorted S l.
Proof.
  intros HRS H. induction H as [|a l H IH Hall]; constructor.
  - apply IH. intros; apply HRS; simpl; auto.
  - rewrite Forall_forall in *. intros b Hb. apply HRS; simpl; auto.
Qed.

Lemma StronglySorted_head {A : Type} (R : A -> A -> Prop) (l : list A)
    (h x : A) :
  StronglySorted R l -> hd_error l = Some h -> In x l -> x = h \/ R h x.
Proof.
  intros H Hh Hx. destruct H as [|a l H Hall]; [discriminate|].
  simpl in Hh. injection Hh as ->. destruct Hx as [<-|Hx]; [now left|].
  right. rewrite Forall_forall in Hall. auto.
Qed.

(** *** The impact table *)

Lemma region_impact_of_full (df : DataFrame) :
  map (fun row => (impact_Region row, Absolute_Change row))
      (region_impact_full df)
  = region_impact df.
Proof.
  unfold region_impact_full, region_impact. rewrite map_map. reflexivity.
Qed.

Lemma Absolute_Change_shape (df : DataFrame) (row : ImpactRow) :
  In row (region_impact_full df) ->
  Absolute_Change row = NaN \/ exists c, Absolute_Change row = Fin c.
Proof.
  intros H. apply (region_impact_shape df (impact_Region row)).
  rewrite <- region_impact_of_full. apply in_map_iff. eauto.
Qed.

Lemma desc_le_numbers (df : DataFrame) (a b : ImpactRow) (cb : Q) :
  In a (region_impact_full df) ->
  desc_le (Absolute_Change a) (Absolute_Change b) ->
  Absolute_Change b = Fin cb ->
  exists ca, Absolute_Change a = Fin ca /\ cb <= ca.
Proof.
  intros Ha Hab Hb. unfold desc_le in Hab. rewrite Hb in Hab.
  apply desc_leb_Fin_r in Hab. destruct Hab as [Hn Hgt].
  destruct (Absolute_Change_shape df a Ha) as [E|[ca E]]; rewrite E in *;
    [discriminate|].
  exists ca. split; [reflexivity|]. simpl in Hgt. now apply Qltb_ge.
Qed.

(** X6. The bar chart of the most affected regions.  The sorted impact
    table holds the rows of the impact table, reordered; the chart shows
    its first ten rows, or all of them when there are fewer regions, in
    descending order of absolute change; and every region left out of
    the chart whose change is a number is matched or exceeded by every
    region shown. *)
Theorem top_10_spec (df : DataFrame) :
  Permutation (region_impact_full df) (region_impact_df_sorted df)
  /\ length (top_10 df)
     = Nat.min 10 (length (unique String.eqb (map Region df)))
  /\ (forall a, In a (top_10 df) -> In a (region_impact_full df))
  /\ StronglySorted
       (fun a b => forall cb, Absolute_Change b = Fin cb ->
                   exists ca, Absolute_Change a = Fin ca /\ cb <= ca)
       (top_10 df)
  /\ (forall a b cb,
        In a (top_10 df) ->
        In b (skipn 10 (region_impact_df_sorted df)) ->
        Absolute_Change b = Fin cb ->
        exists ca, Absolute_Change a = Fin ca /\ cb <= ca).
Proof.
  pose proof (sort_values_desc_perm Absolute_Change (region_impact_full df))
    as Hperm.
  pose proof (sort_values_desc_sorted Absolute_Change (region_impact_full df))
    as Hsorted.
  fold (region_impact_df_sorted df) in Hperm, Hsorted.
  assert (Hin : forall a, In a (top_10 df) -> In a (region_impact_full df)).
  { intros a Ha. apply (Permutation_in _ (Permutation_sym Hperm)).
    unfold top_10 in Ha. rewrite <- (firstn_skipn 10). apply in_or_app.
    now left. }
  split; [exact Hperm|]. split; [|split; [exact Hin|split]].
  - unfold top_10. rewrite length_firstn, <- (Permutation_length Hperm).
    now rewrite <- impact_regions, length_map.
  - eapply StronglySorted_weaken;
      [|apply StronglySorted_firstn; exact Hsorted].
    intros a b Ha _ Hab cb Hb.
    apply (desc_le_numbers df a b cb); [now apply Hin|exact Hab|exact Hb].
  - intros a b cb Ha Hb Hcb.
    apply (desc_le_numbers df a b cb); [now apply Hin| |exact Hcb].
    apply (StronglySorted_firstn_skipn
             (fun a b => desc_le (Absolute_Change a) (Absolute_Change b))
             10 (region_impact_df_sorted df) a b Hsorted Ha Hb).
Qed.

Lemma most_affected_max (df : DataFrame) (region : string) (change : fnum Q) :
  most_affected df = Some (region, change) ->
  forall region' change',
    In (region', change') (region_impact df) -> is_nan change' = false ->
    fgtb change' change = false.
Proof.
  unfold most_affected.
  destruct (idxmax (map snd (region_impact df))) as [i|] eqn:E;
    [|discriminate].
  intros Hrow region' change' Hin Hnn.
  apply idxmax_spec in E. destruct E as (v & Hv & Hnth & Hmax).
  rewrite nth_error_map, Hrow in Hnth. simpl in Hnth. injection Hnth as <-.
  apply In_nth_error in Hin. destruct Hin as (j & Hj).
  apply (Hmax j change'); [|assumption].
  now rewrite nth_error_map, Hj.
Qed.

(** X5. The metric and the chart agree: when a most affected region is
    reported, its change is a number and equals the absolute change of
    the first row of the sorted impact table, which is the first bar of
    the chart. *)
Theorem most_affected_tops_chart (df : DataFrame) (region : string)
    (change : fnum Q) :
  most_affected df = Some (region, change) ->
  exists row c c',
    hd_error (region_impact_df_sorted df) = Some row
    /\ hd_error (top_10 df) = Some row
    /\ change = Fin c /\ Absolute_Change row = Fin c' /\ c' == c.
Proof.
  intros Hm.
  destruct (most_affected_row df region change Hm) as [Hin Hnn].
  destruct (region_impact_shape df region change Hin) as [E|[c E]];
    [rewrite E in Hnn; discriminate|]. subst change.
  pose proof (sort_values_desc_perm Absolute_Change (region_impact_full df))
    as Hperm.
  pose proof (sort_values_desc_sorted Absolute_Change (region_impact_full df))
    as Hsorted.
  fold (region_impact_df_sorted df) in Hperm, Hsorted.
  rewrite <- region_impact_of_full in Hin. apply in_map_iff in Hin.
  destruct Hin as (rm & Erm & Hrm). injection Erm as Er Ec.
  assert (Hrm' : In rm (region_impact_df_sorted df))
    by (eapply Permutation_in; eauto).
  destruct (region_impact_df_sorted df) as [|row rest] eqn:Es;
    [contradiction|].
  assert (Hrow : In row (region_impact_full df)).
  { apply (Permutation_in _ (Permutation_sym Hperm)). now left. }
  assert (Hge : exists c', Absolute_Change row = Fin c' /\ c <= c').
  { destruct (StronglySorted_head _ _ row rm Hsorted eq_refl Hrm') as [->|Hd].
    - exists c. split; [assumption|apply Qle_refl].
    - apply (desc_le_numbers df row rm c); assumption. }
  destruct Hge as (c' & Ec' & Hle).
  exists row, c, c'. split; [reflexivity|].
  split; [unfold top_10; now rewrite Es|].
  split; [reflexivity|]. split; [assumption|].
  apply Qle_antisym; [|assumption].
  apply Qltb_ge.
  change (fgtb (Fin c') (Fin c) = false).
  apply (most_affected_max df region (Fin c) Hm (impact_Region row));
    [|reflexivity].
  rewrite <- region_impact_of_full. apply in_map_iff.
  exists row. rewrite Ec'. auto.
Qed.

Lemma most_affected_tops_chart_witness :
  exists row c c',
    hd_error (region_impact_df_sorted example_B_first) = Some row
    /\ hd_error (top_10 example_B_first) = Some row
    /\ Fin 5 = Fin c /\ Absolute_Change row = Fin c' /\ c' == c.
Proof.
  exact (most_affected_tops_chart example_B_first "B" (Fin 5) eq_refl).
Defined.

(** *** The bar chart of regional means *)

Lemma group_by_region (view : DataFrame) (region : string) :
  group [ColRegion] view [KStr region] = region_rows region view.
Proof.
  unfold group, region_rows. apply filter_ext. intros r.
  apply eq_true_iff_eq. rewrite key_eqb_eq, String.eqb_eq. simpl.
  split; [now intros [= ->]|now intros ->].
Qed.

(** X7. The bar chart of regional means shows the rows of the grouped
    table, reordered so that the means descend; each bar belongs to a
    selected region that has rows in the filtered view, and its height
    is the mean rate of that region's rows in the view. *)
Theorem region_data_sorted_spec (df : DataFrame) (selected_regions : list string)
    (time_period : Timestamp * Timestamp) (selected_area : string) :
  let view := filter_stage df selected_regions time_period selected_area in
  Permutation (region_data view) (region_data_sorted view)
  /\ StronglySorted
       (fun a b => exists x y, snd a = Fin x /\ snd b = Fin y /\ y <= x)
       (region_data_sorted view)
  /\ (forall k v,
        In (k, v) (region_data_sorted view) ->
        exists region,
          k = [KStr region] /\ In region selected_regions
          /\ region_rows region view <> []
          /\ v = mean (rates (region_rows region view)))
  /\ (forall region,
        region_rows region view <> [] ->
        In ([KStr region], mean (rates (region_rows region view)))
           (region_data_sorted view)).
Proof.
  intros view.
  pose proof (sort_values_desc_perm snd (region_data view)) as Hperm.
  pose proof (sort_values_desc_sorted snd (region_data view)) as Hsorted.
  fold (region_data_sorted view) in Hperm, Hsorted.
  assert (Hrow : forall k v,
        In (k, v) (region_data view) ->
        exists region,
          k = [KStr region] /\ In region selected_regions
          /\ region_rows region view <> []
          /\ v = mean (rates (region_rows region view))).
  { intros k v Hkv. unfold region_data in Hkv.
    destruct (groupby_mean_row _ _ _ _ Hkv) as [Hv Hne].
    assert (Hk : In k (map fst (groupby_mean [ColRegion] view)))
      by (apply in_map_iff; exists (k, v); auto).
    apply In_groupby_keys in Hk. destruct Hk as (r & Hr & <-).
    exists (Region r). simpl in *. rewrite group_by_region in Hv, Hne.
    split; [reflexivity|]. split; [|auto].
    unfold view in Hr. rewrite filter_stage_filter in Hr.
    apply filter_In in Hr. destruct Hr as [_ Hr].
    rewrite !andb_true_iff in Hr. now apply isin_In. }
  split; [exact Hperm|]. split; [|split].
  - eapply StronglySorted_weaken; [|exact Hsorted].
    intros [ka va] [kb vb] Ha Hb Hab. simpl in *.
    apply (Permutation_in _ (Permutation_sym Hperm)) in Ha, Hb.
    destruct (Hrow _ _ Ha) as (ra & _ & _ & Hna & ->).
    destruct (Hrow _ _ Hb) as (rb & _ & _ & Hnb & ->).
    rewrite (mean_nonempty _ (rates_nonempty _ Hna)) in *.
    rewrite (mean_nonempty _ (rates_nonempty _ Hnb)) in *.
    do 2 eexists. split; [reflexivity|]. split; [reflexivity|].
    apply desc_leb_Fin_r in Hab. destruct Hab as [_ Hab].
    simpl in Hab. now apply Qltb_ge.
  - intros k v Hkv. apply Hrow.
    now apply (Permutation_in _ (Permutation_sym Hperm)).
  - intros region Hne. apply (Permutation_in _ Hperm).
    unfold region_data, groupby_mean. apply in_map_iff.
    exists [KStr region]. rewrite group_by_region. split; [reflexivity|].
    apply In_sort, (In_unique _ key_eqb_eq), in_map_iff.
    destruct (region_rows region view) as [|r t] eqn:E; [congruence|].
    assert (Hr : In r (region_rows region view)) by (rewrite E; now left).
    unfold region_rows in Hr. apply filter_In in Hr. destruct Hr as [Hr Er].
    apply String.eqb_eq in Er. exists r. simpl. now rewrite Er.
Qed.

(* ------------------------------------------------------------------ *)
(** ** The region selector *)

Lemma firstn_nil_iff {A : Type} (n : nat) (l : list A) :
  (0 < n)%nat -> (firstn n l = [] <-> l = []).
Proof.
  intros Hn. destruct n; [lia|]. destruct l; simpl; split; congruence.
Qed.

(** X8. The selector offers every region of the frame exactly once, in
    ascending order; the preselection is its first five entries (all of
    them when there are fewer) and is empty only for an empty frame, so
    that with the preselection the regional section is skipped only
    when the frame has no rows. *)
Theorem all_regions_spec (df : DataFrame) :
  NoDup (all_regions df)
  /\ Sorted (fun a b => String.leb a b = true) (all_regions df)
  /\ (forall x, In x (all_regions df) <-> exists r, In r df /\ Region r = x)
  /\ default_regions df = firstn 5 (all_regions df)
  /\ length (default_regions df) = Nat.min 5 (length (all_regions df))
  /\ (forall x, In x (default_regions df) -> In x (all_regions df))
  /\ (default_regions df = [] <-> df = [])
  /\ (forall time_period selected_area,
        regional_analysis df (default_regions df) time_period selected_area
        = None <-> df = []).
Proof.
  assert (Hempty : default_regions df = [] <-> df = []).
  { unfold default_regions. rewrite firstn_nil_iff by lia. split.
    - intros E. destruct df as [|r t]; [reflexivity|]. exfalso.
      assert (H : In (Region r) (all_regions (r :: t))).
      { apply In_all_regions. exists r. simpl; auto. }
      now rewrite E in H.
    - now intros ->. }
  split; [|split; [|split; [|split; [|split; [|split; [|split]]]]]].
  - unfold all_regions, sorted.
    eapply Permutation_NoDup; [apply sort_perm|].
    apply (NoDup_unique _ String.eqb_eq).
  - unfold all_regions, sorted. apply sort_Sorted. apply String.leb_total.
  - apply In_all_regions.
  - reflexivity.
  - unfold default_regions. apply length_firstn.
  - unfold default_regions. intros x Hx.
    rewrite <- (firstn_skipn 5 (all_regions df)). apply in_or_app. now left.
  - exact Hempty.
  - intros tp area. rewrite <- Hempty. unfold regional_analysis.
    destruct (default_regions df); split; congruence.
Qed.

(* ------------------------------------------------------------------ *)
(** ** The area selector *)

Lemma filter_split_perm {A : Type} (p q : A -> bool) (l : list A) :
  (forall x, In x l -> p x = negb (q x)) ->
  Permutation l (filter p l ++ filter q l).
Proof.
  induction l as [|x l IH]; simpl; intros H; [constructor|].
  rewrite (H x (or_introl eq_refl)).
  destruct (q x); simpl.
  - apply Permutation_cons_app. apply IH. auto.
  - constructor. apply IH. auto.
Qed.

(** X9. The choice of area splits the view.  Every row of the Rural view
    and of the Urban view is a row of the view for Both with that area,
    the two views never hold more rows than the view for Both, and when
    every row of the frame is Rural or Urban the view for Both is the
    Rural view and the Urban view put together. *)
Theorem filter_stage_area_split (df : DataFrame) (selected_regions : list string)
    (time_period : Timestamp * Timestamp) :
  let both := filter_stage df selected_regions time_period "Both" in
  let rural := filter_stage df selected_regions time_period "Rural" in
  let urban := filter_stage df selected_regions time_period "Urban" in
  rural = filter (fun r => String.eqb (Area r) "Rural") both
  /\ urban = filter (fun r => String.eqb (Area r) "Urban") both
  /\ (length rural + length urban <= length both)%nat
  /\ ((forall r, In r df -> Area r = "Rural"%string \/ Area r = "Urban"%string) ->
      Permutation both (rural ++ urban)
      /\ length both = (length rural + length urban)%nat).
Proof.
  intros both rural urban.
  assert (Er : rural = filter (fun r => String.eqb (Area r) "Rural") both)
    by reflexivity.
  assert (Eu : urban = filter (fun r => String.eqb (Area r) "Urban") both)
    by reflexivity.
  split; [exact Er|]. split; [exact Eu|]. split.
  - rewrite Er, Eu. apply filter_exclusive_length.
    intros r H. apply String.eqb_eq in H. now rewrite H.
  - intros Hareas.
    assert (Hperm : Permutation both (rural ++ urban)).
    { rewrite Er, Eu. apply filter_split_perm. intros r Hr.
      assert (Hdf : In r df).
      { unfold both in Hr. rewrite filter_stage_filter in Hr.
        now apply filter_In in Hr. }
      destruct (Hareas r Hdf) as [-> | ->]; reflexivity. }
    split; [exact Hperm|].
    rewrite (Permutation_length Hperm). apply length_app.
Qed.

Lemma filter_stage_area_split_witness :
  Permutation
    (filter_stage example_A_first ["A"; "B"]%string
       (mkTimestamp 2019 1 1, mkTimestamp 2020 12 31) "Both")
    (filter_stage example_A_first ["A"; "B"]%string
       (mkTimestamp 2019 1 1, mkTimestamp 2020 12 31) "Rural"
     ++ filter_stage example_A_first ["A"; "B"]%string
          (mkTimestamp 2019 1 1, mkTimestamp 2020 12 31) "Urban").
Proof.
  apply (proj2 (proj2 (proj2
           (filter_stage_area_split example_A_first ["A"; "B"]%string
              (mkTimestamp 2019 1 1, mkTimestamp 2020 12 31))))).
  intros r Hr. simpl in Hr.
  repeat (destruct Hr as [<-|Hr]; [now left|]). contradiction.
Defined.

(* ------------------------------------------------------------------ *)
(** ** Charts over the same frame *)

Lemma length_unique_le {A : Type} (eqb : A -> A -> bool) (l : list A) :
  (length (unique eqb l) <= length l)%nat.
Proof.
  induction l as [|x l IH]; simpl; [lia|].
  pose proof (filter_length_le (fun y => negb (eqb x y)) (unique eqb l)). lia.
Qed.

Lemma length_groupby_mean (keys : list column) (df : DataFrame) :
  (length (groupby_mean keys df) <= length df)%nat.
Proof.
  unfold groupby_mean. rewrite length_map.
  rewrite <- (Permutation_length (sort_perm key_leb _)).
  pose proof (length_unique_le key_eqb (map (key_of keys) df)) as H.
  now rewrite length_map in H.
Qed.

(** X11. Charts drawn from one frame cover the same keys.  The
    rural-versus-urban chart has a point for a date exactly when the
    overall trend chart has one, and the regional trend chart has a line
    for a region exactly when the regional bar chart has a bar for it;
    none of these tables has more rows than the frame it is computed
    from. *)
Theorem charts_cover_same_keys (df view : DataFrame) :
  (forall d, In [KDate d] (map fst (monthly_data df))
             <-> exists a, In [KDate d; KStr a] (map fst (area_data df)))
  /\ (forall g, In [KStr g] (map fst (region_data view))
                <-> exists d, In [KStr g; KDate d]
                                 (map fst (region_time_data view)))
  /\ (length (monthly_data df) <= length (area_data df) <= length df)%nat
  /\ (length (region_data view) <= length (region_time_data view)
      <= length view)%nat.
Proof.
  assert (Hlen : forall (c1 c2 : column) (f : DataFrame),
            (length (groupby_mean [c1] f)
             <= length (groupby_mean [c1; c2] f))%nat).
  { intros c1 c2 f.
    rewrite <- (length_map fst (groupby_mean [c1] f)).
    rewrite <- (length_map fst (groupby_mean [c1; c2] f)).
    rewrite <- (length_map (fun k => firstn 1 k)
                  (map fst (groupby_mean [c1; c2] f))).
    apply NoDup_incl_length; [apply NoDup_groupby_keys|].
    intros k Hk. apply In_groupby_keys in Hk. destruct Hk as (r & Hr & <-).
    apply in_map_iff. exists (key_of [c1; c2] r). split; [reflexivity|].
    apply In_groupby_keys. eauto. }
  split; [|split; [|split]].
  - intros d. unfold monthly_data, area_data. rewrite In_groupby_keys. split.
    + intros (r & Hr & E). exists (Area r). apply In_groupby_keys.
      exists r. split; [assumption|]. simpl in *. now injection E as ->.
    + intros (a & Ha). apply In_groupby_keys in Ha.
      destruct Ha as (r & Hr & E). exists r. split; [assumption|].
      simpl in *. now injection E as -> _.
  - intros g. unfold region_data, region_time_data.
    rewrite In_groupby_keys. split.
    + intros (r & Hr & E). exists (Date r). apply In_groupby_keys.
      exists r. split; [assumption|]. simpl in *. now injection E as ->.
    + intros (d & Hd). apply In_groupby_keys in Hd.
      destruct Hd as (r & Hr & E). exists r. split; [assumption|].
      simpl in *. now injection E as -> _.
  - split; [apply Hlen|apply length_groupby_mean].
  - split; [apply Hlen|apply length_groupby_mean].
Qed.

(* ------------------------------------------------------------------ *)
(** ** Grouping a frame filtered on its grouping key *)

Section FilterSorted.
Context {A : Type} (leb : A -> A -> bool) (p : A -> bool).
Hypothesis leb_total : forall x y, leb x y = true \/ leb y x = true.
Hypothesis leb_trans :
  forall x y z, leb x y = true -> leb y z = true -> leb x z = true.

Lemma insert_sorted_below (x : A) (l : list A) :
  (forall y, In y l -> leb x y = true) -> insert_sorted leb x l = x :: l.
Proof.
  destruct l as [|h t]; simpl; [reflexivity|]. intros H.
  now rewrite (H h (or_introl eq_refl)).
Qed.

Lemma filter_insert_sorted (x : A) (l : list A) :
  StronglySorted (fun a b => leb a b = true) l ->
  filter p (insert_sorted leb x l)
  = if p x then insert_sorted leb x (filter p l) else filter p l.
Proof.
  induction 1 as [|h t Ht IH Hall]; simpl.
  - destruct (p x); reflexivity.
  - rewrite Forall_forall in Hall. destruct (leb x h) eqn:E; simpl.
    + destruct (p x); [|reflexivity].
      symmetry. apply insert_sorted_below. intros y Hy.
      assert (Hy' : In y (h :: t)).
      { destruct (p h); [|right; now apply filter_In in Hy].
        destruct Hy as [<-|Hy]; [now left|right; now apply filter_In in Hy]. }
      destruct Hy' as [<-|Hy']; [assumption|eauto].
    + rewrite IH. destruct (p h), (p x); simpl; try reflexivity.
      now rewrite E.
Qed.

Lemma sort_filter (l : list A) :
  sort leb (filter p l) = filter p (sort leb l).
Proof.
  induction l as [|x l IH]; simpl; [reflexivity|].
  rewrite filter_insert_sorted.
  - destruct (p x); simpl; now rewrite IH.
  - apply Sorted_strong; [exact leb_trans|]. now apply sort_Sorted.
Qed.

End FilterSorted.

Lemma unique_filter {A : Type} (eqb : A -> A -> bool) (p : A -> bool)
    (l : list A) :
  (forall x y, eqb x y = true -> x = y) ->
  unique eqb (filter p l) = filter p (unique eqb l).
Proof.
  intros Heq. induction l as [|x l IH]; simpl; [reflexivity|].
  destruct (p x) eqn:Ep; simpl.
  - rewrite IH, !filter_filter. f_equal. apply filter_ext.
    intros y. apply andb_comm.
  - rewrite IH, filter_filter. symmetry. apply filter_ext_in.
    intros y Hy.
    destruct (eqb x y) eqn:E; simpl; [|reflexivity].
    apply Heq in E. subst y. now rewrite Ep.
Qed.

Lemma map_filter_key {A B : Type} (f : A -> B) (p : B -> bool) (l : list A) :
  map f (filter (fun x => p (f x)) l) = filter p (map f l).
Proof.
  induction l as [|x l IH]; simpl; [reflexivity|].
  destruct (p (f x)); simpl; now rewrite IH.
Qed.

(** Grouping after a filter on the grouping key gives the rows of the
    grouped table that pass the filter. *)
Lemma groupby_mean_filter (keys : list column) (p : list keycell -> bool)
    (df : DataFrame) :
  groupby_mean keys (filter (fun r => p (key_of keys r)) df)
  = filter (fun row => p (fst row)) (groupby_mean keys df).
Proof.
  unfold groupby_mean.
  rewrite map_filter_key, unique_filter by (intros x y; apply key_eqb_eq).
  rewrite (sort_filter key_leb p key_leb_total key_leb_trans).
  set (K := sort key_leb (unique key_eqb (map (key_of keys) df))).
  assert (E : forall L,
    map (fun k => (k, mean (rates (group keys
              (filter (fun r => p (key_of keys r)) df) k)))) (filter p L)
    = filter (fun row => p (fst row))
        (map (fun k => (k, mean (rates (group keys df k)))) L)).
  { induction L as [|k L IH]; simpl; [reflexivity|].
    destruct (p k) eqn:Ek; simpl; rewrite IH; [|reflexivity].
    f_equal. f_equal. f_equal. f_equal. unfold group.
    rewrite filter_filter. apply filter_ext. intros r.
    destruct (key_eqb (key_of keys r) k) eqn:Er;
      [|now rewrite andb_false_r].
    apply key_eqb_eq in Er. now rewrite Er, Ek. }
  apply E.
Qed.

(** X12. The monthly chart of the Covid period is a slice of the
    overall trend chart: its rows are exactly the rows of the overall
    monthly table dated from 2020-01-01 to 2020-06-30, with the same
    means and in the same order. *)
Theorem covid_monthly_slice (df : DataFrame) :
  covid_monthly df
  = filter (fun row =>
              match head_date (fst row) with
              | Some d => ts_leb (mkTimestamp 2020 1 1) d
                          && ts_leb d (mkTimestamp 2020 6 30)
              | None => false
              end)
           (monthly_data df).
Proof.
  unfold covid_monthly, monthly_data, covid_period_df.
  rewrite <- (groupby_mean_filter [ColDate]
                (fun k => match head_date k with
                          | Some d => ts_leb (mkTimestamp 2020 1 1) d
                                      && ts_leb d (mkTimestamp 2020 6 30)
                          | None => false
                          end)).
  reflexivity.
Qed.

(* ------------------------------------------------------------------ *)
(** ** What the loader keeps, adds and rejects *)

Section LoaderFrame.

Variable to_datetime : bool -> list string -> option (list Timestamp).

Lemma get_column_none (name : string) (df : Frame) :
  (forall col, In col df -> fst col <> name) -> get_column name df = None.
Proof.
  intros H. unfold get_column. rewrite filter_none; [reflexivity|].
  intros col Hcol. apply String.eqb_neq. auto.
Qed.

(** X14. A successful load leaves every other column alone: a column
    whose trimmed header is not Date, Year, Month or Month_Name is in
    the loaded frame under its trimmed header with the values it had,
    and the loaded frame has no further columns besides those four.
    The Month_Name column holds the month abbreviation of each parsed
    date, row by row with the Date column. *)
Theorem load_data_keeps_columns (csv df : Frame) :
  load_data to_datetime csv = Some df ->
  (forall name values,
      In (name, values) csv ->
      ~ In (strip name) ["Date"; "Year"; "Month"; "Month_Name"]%string ->
      In (strip name, values) df)
  /\ (forall name values,
        In (name, values) df ->
        ~ In name ["Date"; "Year"; "Month"; "Month_Name"]%string ->
        exists raw, In (raw, values) csv /\ name = strip raw)
  /\ exists parsed,
      get_column "Date" df = Some (map CTime parsed)
      /\ In ("Month_Name"%string, month_names_of parsed) df
      /\ (forall c, In ("Month_Name"%string, c) df -> c = month_names_of parsed)
      /\ month_names_of parsed
         = map (fun t => CStr (month_abbr (month t))) parsed.
Proof.
  intros Hload.
  destruct (load_data_inv to_datetime csv df Hload)
    as (cells & texts & parsed & Hget & Hstrip & Hparse).
  rewrite (load_data_eq to_datetime csv cells texts parsed Hget Hstrip Hparse)
    in Hload.
  injection Hload as <-.
  assert (Hother : forall name values,
    ~ In name ["Date"; "Year"; "Month"; "Month_Name"]%string ->
    (In (name, values)
        (set_column "Month_Name" (month_names_of parsed)
           (set_column "Month" (months_of parsed)
              (set_column "Year" (years_of parsed)
                 (set_column "Date" (map CTime parsed) (strip_columns csv)))))
     <-> In (name, values) (strip_columns csv))).
  { intros name values Hn. simpl in Hn.
    rewrite !In_set_other; [reflexivity| | | |]; intros ->; tauto. }
  split; [|split].
  - intros name values Hin Hn. apply Hother; [assumption|].
    unfold strip_columns. apply in_map_iff. exists (name, values). auto.
  - intros name values Hin Hn. apply Hother in Hin; [|assumption].
    unfold strip_columns in Hin. apply in_map_iff in Hin.
    destruct Hin as ([raw v] & [= <- <-] & Hin). eauto.
  - exists parsed. split; [|split; [|split]].
    + rewrite !get_set_other by discriminate.
      now apply (get_set_same "Date" _ cells).
    + apply In_set_same.
    + intros c Hc. eapply In_set_same; eauto.
    + reflexivity.
Qed.

(** X15. When the load fails, and when it cannot.  It fails when no
    header reads Date after trimming, and when the parser rejects the
    trimmed dates.  Once the column under the trimmed header Date is a
    column of text and the parser has read its trimmed texts, no later
    step of the loader fails: the load returns a frame. *)
Theorem load_data_fails (csv : Frame) :
  ((forall col, In col csv -> strip (fst col) <> "Date"%string) ->
   load_data to_datetime csv = None)
  /\ (forall cells texts,
        get_column "Date" (strip_columns csv) = Some cells ->
        str_strip cells = Some texts ->
        to_datetime true texts = None ->
        load_data to_datetime csv = None)
  /\ (forall cells texts parsed,
        get_column "Date" (strip_columns csv) = Some cells ->
        str_strip cells = Some texts ->
        to_datetime true texts = Some parsed ->
        exists df, load_data to_datetime csv = Some df).
Proof.
  split; [|split].
  - intros H. unfold load_data. rewrite get_column_none; [reflexivity|].
    intros col Hcol. unfold strip_columns in Hcol. apply in_map_iff in Hcol.
    destruct Hcol as (raw & <- & Hraw). simpl. auto.
  - intros cells texts Hget Hstrip Hparse. unfold load_data.
    rewrite Hget; cbn [bind]. rewrite Hstrip; cbn [bind].
    now rewrite Hparse.
  - intros cells texts parsed Hget Hstrip Hparse.
    rewrite (load_data_eq to_datetime csv cells texts parsed); eauto.
Qed.

End LoaderFrame.

Lemma load_data_keeps_columns_witness :
  exists df,
    load_data strict_to_datetime example_csv = Some df
    /\ In ("Region"%string, [CStr "A"; CStr "A"]) df
    /\ In ("Estimated Unemployment Rate (%)"%string, [CNum 3.65; CNum 3.05]) df.
Proof.
  eexists. split; [reflexivity|].
  split.
  - apply (proj1 (load_data_keeps_columns strict_to_datetime example_csv _
                    eq_refl) " Region"%string); [now left|].
    vm_compute. intuition discriminate.
  - apply (proj1 (load_data_keeps_columns strict_to_datetime example_csv _
                    eq_refl) " Estimated Unemployment Rate (%)"%string);
      [right; right; now left|].
    vm_compute. intuition discriminate.
Defined.

(* ------------------------------------------------------------------ *)
(** ** The count of regions and the region selector *)

Lemma key_eqb_KStr (a b : string) :
  key_eqb [KStr a] [KStr b] = String.eqb a b.
Proof.
  apply eq_true_iff_eq. rewrite key_eqb_eq, String.eqb_eq.
  split; [now intros [= ->]|now intros ->].
Qed.

Lemma In_dropna {A : Type} (l : list (option A)) (x : A) :
  In x (dropna l) <-> In (Some x) l.
Proof.
  induction l as [|[y|] l IH]; simpl; [tauto| |].
  - rewrite IH. split; intros [H|H]; auto; left; congruence.
  - rewrite IH. split; [auto|]. intros [H|H]; [discriminate|assumption].
Qed.

Lemma dropna_map_Some {A : Type} (l : list A) : dropna (map Some l) = l.
Proof. induction l as [|x l IH]; simpl; [reflexivity|now rewrite IH]. Qed.

Lemma length_dropna_le {A : Type} (l : list (option A)) :
  (length (dropna l) <= length l)%nat.
Proof. induction l as [|[x|] l IH]; simpl; lia. Qed.

Lemma NoDup_map_Some {A : Type} (l : list A) : NoDup l -> NoDup (map Some l).
Proof.
  induction 1 as [|x l Hx _ IH]; simpl; constructor; [|assumption].
  rewrite in_map_iff. intros (y & [= ->] & Hy). contradiction.
Qed.

Lemma region_missing_In (df : RawFrame) :
  region_missing df = true <-> In None (map Region_cell df).
Proof.
  unfold region_missing. rewrite existsb_exists, in_map_iff. split.
  - intros (r & Hr & E). exists r. destruct (Region_cell r); [discriminate|auto].
  - intros (r & E & Hr). exists r. rewrite E. auto.
Qed.

Lemma length_unique_cells (df : RawFrame) :
  length (unique text_cell_eqb (map Region_cell df))
  = (Region_nunique df + (if region_missing df then 1 else 0))%nat.
Proof.
  unfold Region_nunique. set (cells := map Region_cell df).
  assert (P : Permutation (unique text_cell_eqb cells)
                ((if region_missing df then [None] else [])
                 ++ map Some (unique String.eqb (dropna cells)))).
  { apply NoDup_Permutation.
    - apply (NoDup_unique _ text_cell_eqb_eq).
    - assert (N : NoDup (map Some (unique String.eqb (dropna cells))))
        by apply NoDup_map_Some, (NoDup_unique _ String.eqb_eq).
      destruct (region_missing df); [|exact N]. simpl. constructor; [|exact N].
      rewrite in_map_iff. intros (y & E & _). discriminate.
    - intros c. rewrite (In_unique _ text_cell_eqb_eq), in_app_iff, in_map_iff.
      split.
      + intros Hc. destruct c as [s|].
        * right. exists s. split; [reflexivity|].
          now apply (In_unique _ String.eqb_eq), In_dropna.
        * left. apply region_missing_In in Hc. rewrite Hc. now left.
      + intros [Hc|(s & <- & Hs)].
        * destruct (region_missing df) eqn:E; [|contradiction].
          destruct Hc as [<-|[]]. now apply region_missing_In.
        * now apply In_dropna, (In_unique _ String.eqb_eq). }
  rewrite (Permutation_length P), length_app, length_map.
  destruct (region_missing df); simpl; lia.
Qed.

(** X16. The region count of the overview against the region selector.
    [nunique] counts the distinct regions that are present; the selector
    offers one option per distinct cell of the column, the missing one
    included, as the text nan.  So the selector has as many options as
    the overview counts regions when no row lacks its region, and one
    more when some row does.  The count never exceeds the number of
    records.  On rows without missing cells it is also the number of
    rows of the impact table and of the table the most affected region
    is picked from, and the number of bars of the regional chart when
    nothing is filtered out. *)
Theorem Region_nunique_spec (df : RawFrame) :
  length (all_regions_raw df)
  = (Region_nunique df + (if region_missing df then 1 else 0))%nat
  /\ (Region_nunique df <= length df)%nat
  /\ (forall frame : DataFrame,
        region_missing (map complete frame) = false
        /\ Region_nunique (map complete frame) = length (all_regions frame)
        /\ Region_nunique (map complete frame)
           = length (region_impact_full frame)
        /\ Region_nunique (map complete frame) = length (region_impact frame)
        /\ Region_nunique (map complete frame) = length (region_data frame)).
Proof.
  split; [|split].
  - unfold all_regions_raw, sorted.
    rewrite <- (Permutation_length (sort_perm String.leb _)), length_map.
    apply length_unique_cells.
  - unfold Region_nunique.
    pose proof (length_unique_le String.eqb (dropna (map Region_cell df))) as H1.
    pose proof (length_dropna_le (map Region_cell df)) as H2.
    rewrite length_map in H2. lia.
  - intros frame.
    assert (E : Region_nunique (map complete frame)
                = length (unique String.eqb (map Region frame))).
    { unfold Region_nunique.
      replace (map Region_cell (map complete frame))
        with (map Some (map Region frame))
        by (rewrite !map_map; reflexivity).
      now rewrite dropna_map_Some. }
    split; [|split; [|split; [|split]]].
    + apply not_true_iff_false. rewrite region_missing_In, map_map.
      rewrite in_map_iff. intros (r & H & _). discriminate.
    + rewrite E. unfold all_regions, sorted.
      apply Permutation_length, sort_perm.
    + rewrite E. now rewrite <- impact_regions, length_map.
    + rewrite E. now rewrite <- region_impact_regions, length_map.
    + rewrite E. unfold region_data, groupby_mean. rewrite length_map.
      rewrite <- (Permutation_length (sort_perm key_leb _)).
      replace (map (key_of [ColRegion]) frame)
        with (map (fun g => [KStr g]) (map Region frame))
        by (rewrite map_map; reflexivity).
      rewrite (unique_map_inj String.eqb key_eqb) by apply key_eqb_KStr.
      now rewrite length_map.
Qed.

(* ------------------------------------------------------------------ *)
(** ** The sign of a percentage change *)

Lemma percent_sign (c pre : Q) :
  0 < pre ->
  (0 < c <-> 0 < c / pre * 100) /\ (c == 0 <-> c / pre * 100 == 0)
  /\ (c < 0 <-> c / pre * 100 < 0).
Proof.
  intros Hpre.
  assert (Hk : 0 < 100 / pre) by (apply Qlt_shift_div_l; lra).
  assert (E : c / pre * 100 == c * (100 / pre)) by (field; lra).
  rewrite E. set (k := 100 / pre) in *.
  split; [|split]; split; intros H; nra.
Qed.

(** X17. Where the guard lets the percentage through, it has the sign of
    the change: for a region, and for the rural and the urban area, with
    a positive pre-Covid mean the percentage change is positive, zero or
    negative exactly when the post-Covid mean is above, equal to or
    below the pre-Covid mean. *)
Theorem percentage_has_sign_of_change (df : DataFrame) :
  (forall row pre post,
      In row (region_impact_full df) ->
      Pre_Covid_Rate row = Fin pre -> Post_Covid_Rate row = Fin post ->
      0 < pre ->
      exists pct, Percentage_Change row = Fin pct
                  /\ (pre < post <-> 0 < pct)
                  /\ (post == pre <-> pct == 0)
                  /\ (post < pre <-> pct < 0))
  /\ (forall pre post,
        rural_pre df = Fin pre -> rural_post df = Fin post -> 0 < pre ->
        exists pct, rural_change_pct df = Fin pct
                    /\ (pre < post <-> 0 < pct)
                    /\ (post == pre <-> pct == 0)
                    /\ (post < pre <-> pct < 0))
  /\ (forall pre post,
        urban_pre df = Fin pre -> urban_post df = Fin post -> 0 < pre ->
        exists pct, urban_change_pct df = Fin pct
                    /\ (pre < post <-> 0 < pct)
                    /\ (post == pre <-> pct == 0)
                    /\ (post < pre <-> pct < 0)).
Proof.
  assert (Hsign : forall pre post, 0 < pre ->
            (pre < post <-> 0 < (post - pre) / pre * 100)
            /\ (post == pre <-> (post - pre) / pre * 100 == 0)
            /\ (post < pre <-> (post - pre) / pre * 100 < 0)).
  { intros pre post Hpre.
    destruct (percent_sign (post - pre) pre Hpre) as (H1 & H2 & H3).
    rewrite <- H1, <- H2, <- H3. repeat split; intros H; lra. }
  split; [|split].
  - intros row pre post Hrow Hp Hq Hpos.
    destruct (region_impact_full_row df row Hrow) as (_ & _ & _ & Hch & Hpc).
    rewrite Hpc, Hch, Hp, Hq. simpl.
    rewrite (proj2 (Qltb_lt 0 pre) Hpos), (Qis_zero_pos pre Hpos).
    eexists. split; [reflexivity|]. now apply Hsign.
  - intros pre post Hp Hq Hpos. unfold rural_change_pct.
    rewrite Hp, Hq. simpl.
    rewrite (proj2 (Qltb_lt 0 pre) Hpos), (Qis_zero_pos pre Hpos).
    eexists. split; [reflexivity|]. now apply Hsign.
  - intros pre post Hp Hq Hpos. unfold urban_change_pct.
    rewrite Hp, Hq. simpl.
    rewrite (proj2 (Qltb_lt 0 pre) Hpos), (Qis_zero_pos pre Hpos).
    eexists. split; [reflexivity|]. now apply Hsign.
Qed.
